(** * OhioProof ledger core: a shallow embedding and its properties

    Embedded sources:
    - [src/core.py]            ([dual_hash], [emit_receipt], [merkle], [StopRule],
                                [stoprule_hash_mismatch])
    - [src/anchor/hash.py]     ([dual_hash], [split_dual_hash])
    - [src/anchor/merkle.py]   ([build_merkle_tree], [get_merkle_proof],
                                [verify_merkle_proof])
    - [src/anchor/verify.py]   ([verify_integrity])
    - [src/ledger/store.py]    ([LedgerStore])
    - [src/ledger/compact.py]  ([compact_ledger], [verify_compaction])

    Python's own libraries are the environment of the program.  [hashlib.sha256]
    and [json.dumps] are given executable reference implementations; the optional
    [blake3] package, [json.loads], the wall clock and [str()] are fields of a
    [Runtime] record the embedded functions are parametric in. *)

From Stdlib Require Import ZArith List String Ascii Strings.Byte Lia Bool DecimalString.
From stdpp Require Import base option list gmap strings.
Import ListNotations.

#[local] Open Scope Z_scope.

(* ================================================================== *)
(** ** Bytes and hexadecimal text *)

Module Hex.

Definition digits : list ascii :=
  ["0"; "1"; "2"; "3"; "4"; "5"; "6"; "7"; "8"; "9";
   "a"; "b"; "c"; "d"; "e"; "f"]%char.

(** Lower-case hexadecimal digit of the low nibble of [n]. *)
Definition digit (n : Z) : ascii :=
  nth (Z.to_nat (Z.land n 15)) digits "0"%char.

(** The eight digits of a 32-bit word, most significant first. *)
Definition word32 (x : Z) : string :=
  String (digit (Z.shiftr x 28)) (String (digit (Z.shiftr x 24))
 (String (digit (Z.shiftr x 20)) (String (digit (Z.shiftr x 16))
 (String (digit (Z.shiftr x 12)) (String (digit (Z.shiftr x 8))
 (String (digit (Z.shiftr x 4))  (String (digit x) EmptyString))))))).

(** The four digits [XXXX] of a [\uXXXX] escape. *)
Definition word16 (x : Z) : string :=
  String (digit (Z.shiftr x 12)) (String (digit (Z.shiftr x 8))
 (String (digit (Z.shiftr x 4))  (String (digit x) EmptyString))).

End Hex.

Definition byte_to_Z (b : byte) : Z := Z.of_N (Byte.to_N b).

(* ================================================================== *)
(** ** [hashlib.sha256]: FIPS 180-4 on 32-bit words carried in [Z] *)

Module SHA256.

Definition mask32 : Z := 2 ^ 32 - 1.
Definition add32 (x y : Z) : Z := Z.land (x + y) mask32.
Definition rotr (n x : Z) : Z :=
  Z.lor (Z.shiftr x n) (Z.land (Z.shiftl x (32 - n)) mask32).

Definition Ch (x y z : Z) : Z :=
  Z.lxor (Z.land x y) (Z.land (Z.lxor x mask32) z).
Definition Maj (x y z : Z) : Z :=
  Z.lxor (Z.lxor (Z.land x y) (Z.land x z)) (Z.land y z).
Definition Sigma0 (x : Z) : Z := Z.lxor (Z.lxor (rotr 2 x) (rotr 13 x)) (rotr 22 x).
Definition Sigma1 (x : Z) : Z := Z.lxor (Z.lxor (rotr 6 x) (rotr 11 x)) (rotr 25 x).
Definition sigma0 (x : Z) : Z := Z.lxor (Z.lxor (rotr 7 x) (rotr 18 x)) (Z.shiftr x 3).
Definition sigma1 (x : Z) : Z := Z.lxor (Z.lxor (rotr 17 x) (rotr 19 x)) (Z.shiftr x 10).

(** The round constants: the first 32 bits of the fractional parts of the
    cube roots of the first 64 primes. *)
Definition K : list Z :=
  [1116352408; 1899447441; 3049323471; 3921009573; 961987163; 1508970993;
   2453635748; 2870763221; 3624381080; 310598401; 607225278; 1426881987;
   1925078388; 2162078206; 2614888103; 3248222580; 3835390401; 4022224774;
   264347078; 604807628; 770255983; 1249150122; 1555081692; 1996064986;
   2554220882; 2821834349; 2952996808; 3210313671; 3336571891; 3584528711;
   113926993; 338241895; 666307205; 773529912; 1294757372; 1396182291;
   1695183700; 1986661051; 2177026350; 2456956037; 2730485921; 2820302411;
   3259730800; 3345764771; 3516065817; 3600352804; 4094571909; 275423344;
   430227734; 506948616; 659060556; 883997877; 958139571; 1322822218;
   1537002063; 1747873779; 1955562222; 2024104815; 2227730452; 2361852424;
   2428436474; 2756734187; 3204031479; 3329325298].

(** The chaining value: eight 32-bit words. *)
Record state : Type := State
  { h0 : Z; h1 : Z; h2 : Z; h3 : Z; h4 : Z; h5 : Z; h6 : Z; h7 : Z }.

Definition init : state :=
  State 1779033703 3144134277 1013904242 2773480762
        1359893119 2600822924 528734635 1541459225.

(** Big-endian bytes of a [len]-byte unsigned integer. *)
Fixpoint be_bytes (len : nat) (x : Z) : list Z :=
  match len with
  | O => []
  | S n => Z.land (Z.shiftr x (8 * Z.of_nat n)) 255 :: be_bytes n x
  end.

(** Message padding: a [1] bit, zeros up to 56 modulo 64, the bit length. *)
Definition pad (msg : list Z) : list Z :=
  let n := Z.of_nat (length msg) in
  let zeros := Z.to_nat ((55 - n) mod 64) in
  msg ++ [128] ++ repeat 0 zeros ++ be_bytes 8 (8 * n).

Fixpoint words (bs : list Z) (fuel : nat) : list Z :=
  match fuel, bs with
  | S f, a :: b :: c :: d :: rest =>
      Z.lor (Z.shiftl a 24) (Z.lor (Z.shiftl b 16) (Z.lor (Z.shiftl c 8) d))
      :: words rest f
  | _, _ => []
  end.

(** Message schedule: [extend n w] appends [n] further words to [w]. *)
Fixpoint extend (n : nat) (w : list Z) : list Z :=
  match n with
  | O => w
  | S n' =>
      let t := length w in
      let g (k : nat) := nth (t - k) w 0 in
      extend n' (w ++ [add32 (add32 (add32 (sigma1 (g 2%nat)) (g 7%nat))
                                     (sigma0 (g 15%nat))) (g 16%nat)])
  end.

Definition round (s : state) (kw : Z * Z) : state :=
  let '(k, w) := kw in
  let t1 := add32 (add32 (add32 (add32 (h7 s) (Sigma1 (h4 s)))
                                 (Ch (h4 s) (h5 s) (h6 s))) k) w in
  let t2 := add32 (Sigma0 (h0 s)) (Maj (h0 s) (h1 s) (h2 s)) in
  State (add32 t1 t2) (h0 s) (h1 s) (h2 s) (add32 (h3 s) t1) (h4 s) (h5 s) (h6 s).

Definition compress (s : state) (block : list Z) : state :=
  let w := extend 48 (words block 16) in
  let r := fold_left round (combine K w) s in
  State (add32 (h0 s) (h0 r)) (add32 (h1 s) (h1 r)) (add32 (h2 s) (h2 r))
        (add32 (h3 s) (h3 r)) (add32 (h4 s) (h4 r)) (add32 (h5 s) (h5 r))
        (add32 (h6 s) (h6 r)) (add32 (h7 s) (h7 r)).

Fixpoint blocks (fuel : nat) (bs : list Z) (s : state) : state :=
  match fuel, bs with
  | S f, _ :: _ => blocks f (skipn 64 bs) (compress s (firstn 64 bs))
  | _, _ => s
  end.

Definition digest (msg : list byte) : state :=
  let p := pad (map byte_to_Z msg) in
  blocks (length p) p init.

(** [hashlib.sha256(data).hexdigest()] *)
Definition hexdigest (msg : list byte) : string :=
  let s := digest msg in
  Hex.word32 (h0 s) +:+ Hex.word32 (h1 s) +:+ Hex.word32 (h2 s) +:+ Hex.word32 (h3 s) +:+
  Hex.word32 (h4 s) +:+ Hex.word32 (h5 s) +:+ Hex.word32 (h6 s) +:+ Hex.word32 (h7 s).

End SHA256.

(* ================================================================== *)
(** ** Python values

    The values the ledger handles are the ones [json.loads] produces and
    [json.dumps] accepts, floats excepted: [None], booleans, integers, strings,
    lists and dicts.  A [str] is a sequence of code points below 256, one
    [ascii] each.  A [dict] keeps its items in insertion order; its keys are
    hashable scalars, and [True]/[False] are the same keys as [1]/[0]. *)

#[local] Unset Elimination Schemes.

Inductive key : Type :=
| KNone
| KBool (b : bool)
| KInt (z : Z)
| KStr (s : string).

Inductive value : Type :=
| VNone
| VBool (b : bool)
| VInt (z : Z)
| VStr (s : string)
| VList (l : list value)
| VDict (d : list (key * value)).

#[local] Set Elimination Schemes.

Abbreviation pydict := (list (key * value)).

Definition Z_of_bool (b : bool) : Z := if b then 1 else 0.

(** [k1 == k2] on dict keys (together with equal hashes). *)
Definition key_eqb (k1 k2 : key) : bool :=
  match k1, k2 with
  | KNone, KNone => true
  | KBool a, KBool b => Bool.eqb a b
  | KBool a, KInt z | KInt z, KBool a => Z.eqb (Z_of_bool a) z
  | KInt a, KInt b => Z.eqb a b
  | KStr a, KStr b => String.eqb a b
  | _, _ => false
  end.

(** The key a value is used as; [None] when the value is unhashable. *)
Definition to_key (v : value) : option key :=
  match v with
  | VNone => Some KNone
  | VBool b => Some (KBool b)
  | VInt z => Some (KInt z)
  | VStr s => Some (KStr s)
  | VList _ | VDict _ => None
  end.

(** [d.get(k)] as an option, [d.get(k, default)], and [d[k] = v]. *)
Fixpoint dict_lookup (k : key) (d : pydict) : option value :=
  match d with
  | [] => None
  | (k', v) :: d' => if key_eqb k' k then Some v else dict_lookup k d'
  end.

Definition dict_get (k : string) (default : value) (d : pydict) : value :=
  match dict_lookup (KStr k) d with
  | Some v => v
  | None => default
  end.

Fixpoint dict_set (k : key) (v : value) (d : pydict) : pydict :=
  match d with
  | [] => [(k, v)]
  | (k', v') :: d' =>
      if key_eqb k' k then (k', v) :: d' else (k', v') :: dict_set k v d'
  end.

(** A dict display [{k1: v1, ..., **rest}]: items are set from left to right. *)
Definition dict_of_items (items : pydict) : pydict :=
  fold_left (fun d kv => dict_set (fst kv) (snd kv) d) items [].

(** [v1 == v2]. *)
Fixpoint value_eqb (v1 v2 : value) : bool :=
  match v1, v2 with
  | VNone, VNone => true
  | VBool a, VBool b => Bool.eqb a b
  | VBool a, VInt z | VInt z, VBool a => Z.eqb (Z_of_bool a) z
  | VInt a, VInt b => Z.eqb a b
  | VStr a, VStr b => String.eqb a b
  | VList l1, VList l2 =>
      (fix go (l1 l2 : list value) : bool :=
         match l1, l2 with
         | [], [] => true
         | x :: t1, y :: t2 => value_eqb x y && go t1 t2
         | _, _ => false
         end) l1 l2
  | VDict d1, VDict d2 =>
      Nat.eqb (length d1) (length d2) &&
      (fix go (d : pydict) : bool :=
         match d with
         | [] => true
         | (k, x) :: t =>
             match dict_lookup k d2 with
             | Some y => value_eqb x y && go t
             | None => false
             end
         end) d1
  | _, _ => false
  end.

(** [a < b]: defined between two strings, between two numbers (booleans
    included) and between two lists, which compare at their first unequal
    elements; [TypeError] otherwise. *)
Fixpoint py_lt (a b : value) : option bool :=
  match a, b with
  | VStr x, VStr y => Some (String.ltb x y)
  | VInt x, VInt y => Some (x <? y)
  | VInt x, VBool y => Some (x <? Z_of_bool y)
  | VBool x, VInt y => Some (Z_of_bool x <? y)
  | VBool x, VBool y => Some (Z_of_bool x <? Z_of_bool y)
  | VList l1, VList l2 =>
      (fix go (l1 l2 : list value) : option bool :=
         match l1, l2 with
         | [], [] => Some false
         | [], _ :: _ => Some true
         | _ :: _, [] => Some false
         | x :: t1, y :: t2 => if value_eqb x y then go t1 t2 else py_lt x y
         end) l1 l2
  | _, _ => None
  end.

(** A dict key as a value, as [list(d.keys())] yields it. *)
Definition value_of_key (k : key) : value :=
  match k with
  | KNone => VNone
  | KBool b => VBool b
  | KInt z => VInt z
  | KStr s => VStr s
  end.

(** Truth value of a value, as [if v:] and [a and b] test it. *)
Definition truthy (v : value) : bool :=
  match v with
  | VNone => false
  | VBool b => b
  | VInt z => negb (z =? 0)
  | VStr s => negb (String.eqb s EmptyString)
  | VList l => match l with [] => false | _ => true end
  | VDict d => match d with [] => false | _ => true end
  end.

Definition is_dict (v : value) : bool :=
  match v with VDict _ => true | _ => false end.

(* ================================================================== *)
(** ** Strings: [encode("utf-8")], [strip], [split], [replace], lines *)

Definition code (c : ascii) : Z := Z.of_N (N_of_ascii c).
Definition byte_of_Z (z : Z) : byte :=
  match Byte.of_N (Z.to_N z) with Some b => b | None => x00 end.

(** [s.encode("utf-8")]: one byte below 128, two bytes from 128 to 255. *)
Fixpoint utf8_encode (s : string) : list byte :=
  match s with
  | EmptyString => []
  | String c s' =>
      let n := code c in
      if n <? 128 then byte_of_Z n :: utf8_encode s'
      else byte_of_Z (Z.lor 192 (Z.shiftr n 6))
           :: byte_of_Z (Z.lor 128 (Z.land n 63)) :: utf8_encode s'
  end.

(** [c.isspace()] for code points below 256. *)
Definition isspace (c : ascii) : bool :=
  let n := code c in
  ((9 <=? n) && (n <=? 13)) || ((28 <=? n) && (n <=? 32))
  || (n =? 133) || (n =? 160).

Fixpoint lstrip (s : string) : string :=
  match s with
  | EmptyString => EmptyString
  | String c s' => if isspace c then lstrip s' else s
  end.

(** [s.rstrip()]: a character stays when something visible follows it or
    it is visible itself. *)
Fixpoint rstrip (s : string) : string :=
  match s with
  | EmptyString => EmptyString
  | String c s' =>
      match rstrip s' with
      | EmptyString => if isspace c then EmptyString else String c EmptyString
      | r => String c r
      end
  end.

(** [s.strip()] *)
Definition strip (s : string) : string := rstrip (lstrip s).

(** [c in s] for a one-character [c]. *)
Fixpoint has_char (c : ascii) (s : string) : bool :=
  match s with
  | EmptyString => false
  | String c' s' => Ascii.eqb c c' || has_char c s'
  end.

(** [sep.join(parts)] *)
Fixpoint join (sep : string) (parts : list string) : string :=
  match parts with
  | [] => EmptyString
  | [p] => p
  | p :: rest => p +:+ sep +:+ join sep rest
  end.

(** [s.split(c)] for a one-character separator: the list is never empty. *)
Fixpoint split_on (sep : ascii) (s : string) : list string :=
  match s with
  | EmptyString => [EmptyString]
  | String c s' =>
      if Ascii.eqb c sep then EmptyString :: split_on sep s'
      else match split_on sep s' with
           | [] => [String c EmptyString]
           | p :: rest => String c p :: rest
           end
  end.

(** [s.replace(old, new)] for a non-empty [old]: occurrences are replaced
    from left to right without overlap; [skip] counts the characters of a
    replaced occurrence still to be dropped. *)
Fixpoint replace_from (old new : string) (skip : nat) (s : string) : string :=
  match s with
  | EmptyString => EmptyString
  | String c s' =>
      match skip with
      | S k => replace_from old new k s'
      | O =>
          if String.prefix old s
          then new +:+ replace_from old new (String.length old - 1) s'
          else String c (replace_from old new O s')
      end
  end.

Definition replace (old new s : string) : string := replace_from old new O s.

(** Reading a text file translates ["\r\n"] and ["\r"] to ["\n"]. *)
Definition LF : ascii := "010"%char.
Definition CR : ascii := "013"%char.

Fixpoint universal_newlines (s : string) : string :=
  match s with
  | EmptyString => EmptyString
  | String c s' =>
      if Ascii.eqb c CR then
        match s' with
        | String c' s'' =>
            if Ascii.eqb c' LF then universal_newlines s'
            else String LF (universal_newlines s')
        | EmptyString => String LF EmptyString
        end
      else String c (universal_newlines s')
  end.

(** The lines [for line in f] yields: each keeps its ["\n"]; the last one
    has none when the text does not end in a newline. *)
Fixpoint lines_keepends (s : string) : list string :=
  match s with
  | EmptyString => []
  | String c s' =>
      if Ascii.eqb c LF then String c EmptyString :: lines_keepends s'
      else match lines_keepends s' with
           | [] => [String c EmptyString]
           | l :: rest => String c l :: rest
           end
  end.

Definition readlines (content : string) : list string :=
  lines_keepends (universal_newlines content).

(* ================================================================== *)
(** ** [json.dumps(v, sort_keys=...)] with the default separators and
       [ensure_ascii=True] *)

Definition DQUOTE : ascii := "034"%char.
Definition BACKSLASH : ascii := "092"%char.

Definition escape_char (c : ascii) : string :=
  let n := code c in
  if Ascii.eqb c DQUOTE then String BACKSLASH (String DQUOTE EmptyString)
  else if Ascii.eqb c BACKSLASH then String BACKSLASH (String BACKSLASH EmptyString)
  else if n =? 10 then String BACKSLASH "n"
  else if n =? 13 then String BACKSLASH "r"
  else if n =? 9 then String BACKSLASH "t"
  else if n =? 8 then String BACKSLASH "b"
  else if n =? 12 then String BACKSLASH "f"
  else if (32 <=? n) && (n <=? 126) then String c EmptyString
  else String BACKSLASH (String "u" (Hex.word16 n)).

Fixpoint escape (s : string) : string :=
  match s with
  | EmptyString => EmptyString
  | String c s' => escape_char c +:+ escape s'
  end.

Definition json_string (s : string) : string :=
  String DQUOTE (escape s +:+ String DQUOTE EmptyString).

(** [int.__repr__] *)
Definition repr_int (z : Z) : string := NilZero.string_of_int (Z.to_int z).

(** The string a dict key is turned into before it is written. *)
Definition key_str (k : key) : string :=
  match k with
  | KStr s => s
  | KInt z => repr_int z
  | KBool true => "true"
  | KBool false => "false"
  | KNone => "null"
  end.

Definition is_str_key (k : key) : bool :=
  match k with KStr _ => true | _ => false end.

Definition num_of_key (k : key) : option Z :=
  match k with
  | KInt z => Some z
  | KBool b => Some (Z_of_bool b)
  | _ => None
  end.

(** [k1 <= k2] where [<] is defined between the two keys. *)
Definition key_leb (k1 k2 : key) : bool :=
  match k1, k2 with
  | KStr a, KStr b => String.leb a b
  | _, _ =>
      match num_of_key k1, num_of_key k2 with
      | Some a, Some b => a <=? b
      | _, _ => true
      end
  end.

(** [sorted] raises [TypeError] as soon as it compares a string with a
    number or anything with [None]; with fewer than two items it compares
    nothing. *)
Definition keys_comparable (ks : list key) : bool :=
  (length ks <=? 1)%nat
  || forallb is_str_key ks
  || forallb (fun k => match num_of_key k with Some _ => true | None => false end) ks.

Fixpoint insert_sorted {A : Type} (x : key * A) (l : list (key * A)) : list (key * A) :=
  match l with
  | [] => [x]
  | y :: t => if key_leb (fst x) (fst y) then x :: y :: t else y :: insert_sorted x t
  end.

(** The stable sort of the items by key. *)
Definition sort_items {A : Type} (l : list (key * A)) : list (key * A) :=
  fold_right insert_sorted [] l.

Definition sorted_items {A : Type} (l : list (key * A)) : option (list (key * A)) :=
  if keys_comparable (map fst l) then Some (sort_items l) else None.

Definition render_item (kv : key * string) : string :=
  json_string (key_str (fst kv)) +:+ ": " +:+ snd kv.

(** [None] stands for [TypeError]. *)
Fixpoint json_encode (sort_keys : bool) (v : value) : option string :=
  match v with
  | VNone => Some "null"
  | VBool true => Some "true"
  | VBool false => Some "false"
  | VInt z => Some (repr_int z)
  | VStr s => Some (json_string s)
  | VList l =>
      match (fix each (l : list value) : option (list string) :=
               match l with
               | [] => Some []
               | x :: t =>
                   match json_encode sort_keys x, each t with
                   | Some s, Some r => Some (s :: r)
                   | _, _ => None
                   end
               end) l with
      | Some parts => Some ("[" +:+ join ", " parts +:+ "]")
      | None => None
      end
  | VDict d =>
      match (fix each (d : pydict) : option (list (key * string)) :=
               match d with
               | [] => Some []
               | (k, x) :: t =>
                   match json_encode sort_keys x, each t with
                   | Some s, Some r => Some ((k, s) :: r)
                   | _, _ => None
                   end
               end) d with
      | Some items =>
          match (if sort_keys then sorted_items items else Some items) with
          | Some items' => Some ("{" +:+ join ", " (map render_item items') +:+ "}")
          | None => None
          end
      | None => None
      end
  end.

(* ================================================================== *)
(** ** The runtime, the world and the monad of effects *)

(** What the program takes from its environment without defining it. *)
Class Runtime : Type := {
  (** [HAS_BLAKE3]: whether [import blake3] succeeded. *)
  HAS_BLAKE3 : bool;
  (** [blake3.blake3(data).hexdigest()]; only called when [HAS_BLAKE3]. *)
  blake3_hexdigest : list byte -> string;
  (** [json.loads(line)]; [None] stands for [json.JSONDecodeError]. *)
  json_loads : string -> option value;
  (** [datetime.now(timezone.utc).isoformat()] at the n-th reading of the clock. *)
  utcnow_isoformat : nat -> string;
  (** [str(v)] of a value that is not a [str]. *)
  py_str : value -> string
}.

Inductive exn : Type :=
| StopRule (msg : string)
| TypeError
| AttributeError
| FileNotFoundError.

Inductive outcome (A : Type) : Type :=
| Ok (a : A)
| Raise (e : exn).

Arguments Ok {A} a.
Arguments Raise {A} e.

(** Files by path, the lines printed to standard output, and the number of
    times the clock has been read. *)
Record World : Type := mkWorld {
  fs : gmap string string;
  stdout : list string;
  clock : nat
}.

Definition M (A : Type) : Type := World -> outcome A * World.

Definition ret {A : Type} (a : A) : M A := fun w => (Ok a, w).
Definition raise {A : Type} (e : exn) : M A := fun w => (Raise e, w).
Definition bind {A B : Type} (m : M A) (k : A -> M B) : M B :=
  fun w => match m w with
           | (Ok a, w') => k a w'
           | (Raise e, w') => (Raise e, w')
           end.

Notation "'let*' x := m 'in' k" := (bind m (fun x => k))
  (at level 10, x name, m at level 100, k at level 200).
Notation "'let*' ' p := m 'in' k" := (bind m (fun x => match x with p => k end))
  (at level 10, p pattern, m at level 100, k at level 200).

Definition lift {A : Type} (o : outcome A) : M A := fun w => (o, w).

(** [json.dumps] as the program calls it. *)
Definition json_dumps (sort_keys : bool) (v : value) : outcome string :=
  match json_encode sort_keys v with
  | Some s => Ok s
  | None => Raise TypeError
  end.

(** [print(line, flush=True)] *)
Definition print (line : string) : M unit :=
  fun w => (Ok tt, mkWorld (fs w) (stdout w ++ [line]) (clock w)).

(** [os.path.exists(path)] *)
Definition path_exists (path : string) : M bool :=
  fun w => (Ok (bool_decide (is_Some (fs w !! path))), w).

(** [with open(path, "a") as f: f.write(text)]; the file is created when
    it does not exist. *)
Definition append_file (path text : string) : M unit :=
  fun w => (Ok tt, mkWorld (<[path := default EmptyString (fs w !! path) +:+ text]> (fs w))
                           (stdout w) (clock w)).

(** [with open(path, "w") as f: f.write(text)] *)
Definition write_file (path text : string) : M unit :=
  fun w => (Ok tt, mkWorld (<[path := text]> (fs w)) (stdout w) (clock w)).

(** [open(path, "r")] and the whole text behind it. *)
Definition read_file (path : string) : M string :=
  fun w => match fs w !! path with
           | Some text => (Ok text, w)
           | None => (Raise FileNotFoundError, w)
           end.

(* ================================================================== *)
(** ** [src/core.py] *)

(** The argument of [dual_hash]: [bytes | str]. *)
Inductive hash_data : Type :=
| Bytes (b : list byte)
| Str (s : string).

Definition utcnow : forall {RT : Runtime}, M string :=
  fun RT w => (Ok (utcnow_isoformat (clock w)), mkWorld (fs w) (stdout w) (S (clock w))).

Module Core.
Section WithRuntime.
Context {RT : Runtime}.

Definition TENANT_ID : string := "ohioproof".

(** [dual_hash(data)] *)
Definition dual_hash (data : hash_data) : string :=
  let data := match data with Str s => utf8_encode s | Bytes b => b end in
  let sha := SHA256.hexdigest data in
  let b3 := if HAS_BLAKE3 then blake3_hexdigest data else sha in
  sha +:+ ":" +:+ b3.

(** [emit_receipt(receipt_type, data)] *)
Definition emit_receipt (receipt_type : string) (data : pydict) : M pydict :=
  let* now := utcnow in
  let* payload := lift (json_dumps true (VDict data)) in
  let receipt := dict_of_items
    ([ (KStr "receipt_type", VStr receipt_type);
       (KStr "ts", VStr (replace "+00:00" "Z" now));
       (KStr "tenant_id", dict_get "tenant_id" (VStr TENANT_ID) data);
       (KStr "payload_hash", VStr (dual_hash (Str payload))) ] ++ data) in
  let* line := lift (json_dumps false (VDict receipt)) in
  let* _ := print line in
  ret receipt.

(** [hashes[-1]]; the list is not empty where it is used. *)
Definition last_hash (hashes : list string) : string := List.last hashes EmptyString.

(** [if len(hashes) % 2: hashes.append(hashes[-1])] *)
Definition pad_odd (hashes : list string) : list string :=
  if Nat.odd (length hashes) then hashes ++ [last_hash hashes] else hashes.

(** [[dual_hash(hashes[i] + hashes[i + 1]) for i in range(0, len(hashes), 2)]];
    [hashes[i + 1]] raises [IndexError] on a list of odd length, which
    [pad_odd] excludes. *)
Fixpoint combine_pairs (hashes : list string) : list string :=
  match hashes with
  | a :: b :: rest => dual_hash (Str (a +:+ b)) :: combine_pairs rest
  | _ => []
  end.

Definition next_level (hashes : list string) : list string :=
  combine_pairs (pad_odd hashes).

(** [while len(hashes) > 1: hashes = next_level(hashes)].  Every turn
    shortens the list, so its length is fuel enough ([reduce_levels_done]). *)
Fixpoint reduce_levels (fuel : nat) (hashes : list string) : list string :=
  match fuel with
  | O => hashes
  | S fuel' =>
      if (1 <? length hashes)%nat then reduce_levels fuel' (next_level hashes)
      else hashes
  end.

(** [[dual_hash(json.dumps(i, sort_keys=True)) for i in items]] *)
Fixpoint leaf_hashes (items : list value) : outcome (list string) :=
  match items with
  | [] => Ok []
  | i :: rest =>
      match json_dumps true i with
      | Ok s =>
          match leaf_hashes rest with
          | Ok hs => Ok (dual_hash (Str s) :: hs)
          | Raise e => Raise e
          end
      | Raise e => Raise e
      end
  end.

Definition empty_root : string := dual_hash (Bytes (list_byte_of_string "empty")).

(** [merkle(items)] *)
Definition merkle (items : list value) : outcome string :=
  match items with
  | [] => Ok empty_root
  | _ =>
      match leaf_hashes items with
      | Ok hashes => Ok (nth 0 (reduce_levels (length hashes) hashes) EmptyString)
      | Raise e => Raise e
      end
  end.

(** [stoprule_hash_mismatch(expected, actual)] *)
Definition stoprule_hash_mismatch (expected actual : string) : M unit :=
  let* _ := emit_receipt "anomaly"
        [ (KStr "tenant_id", VStr TENANT_ID);
          (KStr "metric", VStr "hash_mismatch");
          (KStr "baseline", VStr expected);
          (KStr "delta", VInt (-1));
          (KStr "classification", VStr "violation");
          (KStr "action", VStr "halt") ] in
  raise (StopRule ("Hash mismatch: expected " +:+ expected +:+ ", got " +:+ actual)).

(** [stoprule_invalid_receipt(reason)] *)
Definition stoprule_invalid_receipt (reason : string) : M unit :=
  let* _ := emit_receipt "anomaly"
        [ (KStr "tenant_id", VStr TENANT_ID);
          (KStr "metric", VStr "invalid_receipt");
          (KStr "baseline", VInt 0);
          (KStr "delta", VInt (-1));
          (KStr "classification", VStr "violation");
          (KStr "action", VStr "halt") ] in
  raise (StopRule ("Invalid receipt: " +:+ reason)).

(** [stoprule_data_source_unavailable(source, retries)] *)
Definition stoprule_data_source_unavailable (source : string) (retries : Z) : M unit :=
  let* _ := emit_receipt "anomaly"
        [ (KStr "tenant_id", VStr TENANT_ID);
          (KStr "metric", VStr "data_source_unavailable");
          (KStr "baseline", VInt 0);
          (KStr "delta", VInt (-1));
          (KStr "classification", VStr "degradation");
          (KStr "action", VStr "halt");
          (KStr "source", VStr source);
          (KStr "retries_attempted", VInt retries) ] in
  raise (StopRule ("Data source unavailable after " +:+ repr_int retries
                   +:+ " retries: " +:+ source)).

End WithRuntime.
End Core.

(* ================================================================== *)
(** ** [src/anchor/hash.py] *)

Module AnchorHash.
Section WithRuntime.
Context {RT : Runtime}.

(** [dual_hash(data)], the module's own copy. *)
Definition dual_hash (data : hash_data) : string :=
  let data := match data with Str s => utf8_encode s | Bytes b => b end in
  let sha := SHA256.hexdigest data in
  let b3 := if HAS_BLAKE3 then blake3_hexdigest data else sha in
  sha +:+ ":" +:+ b3.

(** [hash_batch(items)] *)
Definition hash_batch (items : list value) : M string :=
  let* serialized := lift (json_dumps true (VList items)) in
  let batch_hash := dual_hash (Str serialized) in
  let* _ := Core.emit_receipt "batch_hash"
    [ (KStr "tenant_id", VStr Core.TENANT_ID);
      (KStr "item_count", VInt (Z.of_nat (length items)));
      (KStr "hash", VStr batch_hash) ] in
  ret batch_hash.

(** [verify_hash(data, expected_hash)] *)
Definition verify_hash (data : hash_data) (expected_hash : string) : M bool :=
  let computed := dual_hash data in
  let matches := String.eqb computed expected_hash in
  let* _ := Core.emit_receipt "hash_verification"
    [ (KStr "tenant_id", VStr Core.TENANT_ID);
      (KStr "expected", VStr expected_hash);
      (KStr "computed", VStr computed);
      (KStr "verified", VBool matches) ] in
  ret matches.

End WithRuntime.

(** [split_dual_hash(hash_str)] *)
Definition split_dual_hash (hash_str : string) : string * string :=
  match split_on ":" hash_str with
  | [a; b] => (a, b)
  | _ => (hash_str, hash_str)
  end.

End AnchorHash.

(* ================================================================== *)
(** ** [src/anchor/merkle.py] *)

(** The dict [build_merkle_tree] returns; a field is [None] when the key
    is missing, which [get_merkle_proof] provides for with [tree.get]. *)
Record tree : Type := mkTree {
  tree_root : option string;
  tree_levels : option (list (list string));
  tree_leaves : option Z
}.

(** One element of a proof: [{"hash": ..., "position": ...}]. *)
Record proof_element : Type := mkElement {
  hash : string;
  position : string
}.

Definition value_of_option_string (o : option string) : value :=
  match o with Some s => VStr s | None => VNone end.

Module Merkle.
Section WithRuntime.
Context {RT : Runtime}.

(** The body of [while len(hashes) > 1] in [build_merkle_tree]: [levels]
    receives a copy of each new level, taken before that level is padded. *)
Fixpoint build_levels (fuel : nat) (hashes : list string) (levels : list (list string))
  : list string * list (list string) :=
  match fuel with
  | O => (hashes, levels)
  | S fuel' =>
      if (1 <? length hashes)%nat then
        let hashes := Core.pad_odd hashes in
        let next_level := Core.combine_pairs hashes in
        build_levels fuel' next_level (levels ++ [next_level])
      else (hashes, levels)
  end.

(** [build_merkle_tree(items)] *)
Definition build_merkle_tree (items : list value) : M tree :=
  match items with
  | [] => ret (mkTree (Some Core.empty_root) (Some []) (Some 0))
  | _ =>
      let* hashes := lift (Core.leaf_hashes items) in
      let '(hashes', levels) := build_levels (length hashes) hashes [hashes] in
      let t := mkTree (Some (nth 0 hashes' EmptyString)) (Some levels)
                      (Some (Z.of_nat (length items))) in
      let* _ := Core.emit_receipt "merkle_tree_build"
        [ (KStr "tenant_id", VStr Core.TENANT_ID);
          (KStr "leaves", VInt (Z.of_nat (length items)));
          (KStr "levels", VInt (Z.of_nat (length levels)));
          (KStr "root", value_of_option_string (tree_root t)) ] in
      ret t
  end.

(** The body of [for level in levels[:-1]] in [get_merkle_proof]. *)
Fixpoint proof_walk (levels : list (list string)) (current_index : Z)
  (proof : list proof_element) : list proof_element :=
  match levels with
  | [] => proof
  | level :: rest =>
      let '(sibling_index, position) :=
        if current_index mod 2 =? 0 then (current_index + 1, "right")
        else (current_index - 1, "left") in
      let proof :=
        if sibling_index <? Z.of_nat (length level)
        then proof ++ [mkElement (nth (Z.to_nat sibling_index) level EmptyString) position]
        else proof in
      proof_walk rest (current_index / 2) proof
  end.

(** [get_merkle_proof(tree, index)] *)
Definition get_merkle_proof (t : tree) (index : Z) : M (list proof_element) :=
  let levels := default [] (tree_levels t) in
  if (match levels with [] => true | _ => false end)
     || (index <? 0) || (index >=? default 0 (tree_leaves t))
  then ret []
  else
    let proof := proof_walk (removelast levels) index [] in
    let* _ := Core.emit_receipt "merkle_proof"
      [ (KStr "tenant_id", VStr Core.TENANT_ID);
        (KStr "index", VInt index);
        (KStr "proof_length", VInt (Z.of_nat (length proof)));
        (KStr "root", value_of_option_string (tree_root t)) ] in
    ret proof.

(** The body of [for element in proof] in [verify_merkle_proof]. *)
Definition fold_element (current_hash : string) (element : proof_element) : string :=
  let sibling_hash := hash element in
  let combined :=
    if String.eqb (position element) "left" then sibling_hash +:+ current_hash
    else current_hash +:+ sibling_hash in
  Core.dual_hash (Str combined).

(** [verify_merkle_proof(item, proof, expected_root)] *)
Definition verify_merkle_proof (item : value) (proof : list proof_element)
  (expected_root : string) : M bool :=
  let* leaf := lift (json_dumps true item) in
  let current_hash := fold_left fold_element proof (Core.dual_hash (Str leaf)) in
  let verified := String.eqb current_hash expected_root in
  let* _ := Core.emit_receipt "merkle_proof_verification"
    [ (KStr "tenant_id", VStr Core.TENANT_ID);
      (KStr "computed_root", VStr current_hash);
      (KStr "expected_root", VStr expected_root);
      (KStr "verified", VBool verified) ] in
  ret verified.

(** [compute_merkle_root(items)] *)
Definition compute_merkle_root (items : list value) : M string :=
  match items with
  | [] => ret Core.empty_root
  | _ =>
      let* hashes := lift (Core.leaf_hashes items) in
      let root := nth 0 (Core.reduce_levels (length hashes) hashes) EmptyString in
      let* _ := Core.emit_receipt "merkle_root"
        [ (KStr "tenant_id", VStr Core.TENANT_ID);
          (KStr "item_count", VInt (Z.of_nat (length items)));
          (KStr "root", VStr root) ] in
      ret root
  end.

(** [anchor_receipts(receipts)] *)
Definition anchor_receipts (receipts : list value) : M pydict :=
  let* root := compute_merkle_root receipts in
  Core.emit_receipt "anchor"
    [ (KStr "tenant_id", VStr Core.TENANT_ID);
      (KStr "merkle_root", VStr root);
      (KStr "hash_algos", VList [VStr "SHA256"; VStr "BLAKE3"]);
      (KStr "batch_size", VInt (Z.of_nat (length receipts))) ].

End WithRuntime.
End Merkle.

(* ================================================================== *)
(** ** [src/ledger/store.py] *)

(** [r.get(k, default)] on a receipt: [AttributeError] unless it is a dict. *)
Definition receipt_get (k : string) (default : value) (r : value) : outcome value :=
  match r with
  | VDict d => Ok (dict_get k default d)
  | _ => Raise AttributeError
  end.

(** [l[start:]]: a negative [start] counts from the end. *)
Definition slice_from {A : Type} (start : Z) (l : list A) : list A :=
  let len := Z.of_nat (length l) in
  let first := if start <? 0 then Z.max (len + start) 0 else Z.min start len in
  skipn (Z.to_nat first) l.

(** [[r for r in receipts if test(r)]] where the test calls [r.get]. *)
Fixpoint select (test : pydict -> bool) (receipts : list value) : outcome (list value) :=
  match receipts with
  | [] => Ok []
  | VDict d :: rest =>
      match select test rest with
      | Ok found => Ok (if test d then VDict d :: found else found)
      | Raise e => Raise e
      end
  | _ :: _ => Raise AttributeError
  end.

Definition NL : string := String LF EmptyString.

Module LedgerStore.
Section WithRuntime.
Context {RT : Runtime}.

Definition DEFAULT_LEDGER_PATH : string := "receipts.jsonl".

(** [_ensure_file] *)
Definition _ensure_file (path : string) : M unit :=
  let* there := path_exists path in
  if negb there then append_file path EmptyString else ret tt.

(** [LedgerStore(path)]: the object is its path. *)
Definition __init__ (path : string) : M string :=
  let* _ := _ensure_file path in
  ret path.

(** [append(receipt)] *)
Definition append (self : string) (receipt : value) : M string :=
  let* receipt_json := lift (json_dumps true receipt) in
  let receipt_hash := Core.dual_hash (Str receipt_json) in
  let* _ := append_file self (receipt_json +:+ NL) in
  ret receipt_hash.

(** The body of [for line in f] in [read_all]. *)
Definition read_line (receipts : list value) (line : string) : list value :=
  let line := strip line in
  if negb (String.eqb line EmptyString) then
    match json_loads line with
    | Some receipt => receipts ++ [receipt]
    | None => receipts
    end
  else receipts.

(** [read_all()] *)
Definition read_all (self : string) : M (list value) :=
  let* there := path_exists self in
  if negb there then ret []
  else
    let* text := read_file self in
    ret (fold_left read_line (readlines text) []).

(** [count()] *)
Definition count (self : string) : M Z :=
  let* receipts := read_all self in
  ret (Z.of_nat (length receipts)).

(** [get_merkle_root()] *)
Definition get_merkle_root (self : string) : M string :=
  let* receipts := read_all self in
  lift (Core.merkle receipts).

(** [get_latest(n)] *)
Definition get_latest (self : string) (n : Z) : M (list value) :=
  let* receipts := read_all self in
  ret (slice_from (- n) receipts).

(** [append_receipt(receipt, path)] *)
Definition append_receipt (receipt : value) (path : string) : M string :=
  let* store := __init__ path in
  let* receipt_hash := append store receipt in
  let* receipt_type := lift (receipt_get "receipt_type" VNone receipt) in
  let* _ := Core.emit_receipt "ledger_append"
    [ (KStr "tenant_id", VStr Core.TENANT_ID);
      (KStr "receipt_type", receipt_type);
      (KStr "receipt_hash", VStr receipt_hash);
      (KStr "ledger_path", VStr path) ] in
  ret receipt_hash.

(** [read_receipts(path)] *)
Definition read_receipts (path : string) : M (list value) :=
  let* store := __init__ path in
  let* receipts := read_all store in
  let* _ := Core.emit_receipt "ledger_read"
    [ (KStr "tenant_id", VStr Core.TENANT_ID);
      (KStr "ledger_path", VStr path);
      (KStr "receipt_count", VInt (Z.of_nat (length receipts))) ] in
  ret receipts.

End WithRuntime.
End LedgerStore.

(* ================================================================== *)
(** ** [src/ledger/query.py] *)

Module Query.
Section WithRuntime.
Context {RT : Runtime}.

(** [query_by_type(receipt_type, path)] *)
Definition query_by_type (receipt_type : string) (path : string) : M (list value) :=
  let* store := LedgerStore.__init__ path in
  let* all_receipts := LedgerStore.read_all store in
  let* matching := lift (select (fun r => value_eqb (dict_get "receipt_type" VNone r)
                                                    (VStr receipt_type)) all_receipts) in
  let* _ := Core.emit_receipt "ledger_query"
    [ (KStr "tenant_id", VStr Core.TENANT_ID);
      (KStr "query_type", VStr "by_type");
      (KStr "filter", VStr receipt_type);
      (KStr "total_receipts", VInt (Z.of_nat (length all_receipts)));
      (KStr "matching_receipts", VInt (Z.of_nat (length matching))) ] in
  ret matching.

(** The loop of [query_by_date_range]: [start_date <= ts <= end_date] is
    defined between strings only. *)
Fixpoint in_date_range (start_date end_date : string) (receipts matching : list value)
  : outcome (list value) :=
  match receipts with
  | [] => Ok matching
  | r :: rest =>
      match receipt_get "ts" (VStr EmptyString) r with
      | Raise e => Raise e
      | Ok (VStr ts) =>
          if String.leb start_date ts && String.leb ts end_date
          then in_date_range start_date end_date rest (matching ++ [r])
          else in_date_range start_date end_date rest matching
      | Ok _ => Raise TypeError
      end
  end.

(** [query_by_date_range(start_date, end_date, path)] *)
Definition query_by_date_range (start_date end_date : string) (path : string)
  : M (list value) :=
  let* store := LedgerStore.__init__ path in
  let* all_receipts := LedgerStore.read_all store in
  let* matching := lift (in_date_range start_date end_date all_receipts []) in
  let* _ := Core.emit_receipt "ledger_query"
    [ (KStr "tenant_id", VStr Core.TENANT_ID);
      (KStr "query_type", VStr "by_date_range");
      (KStr "start_date", VStr start_date);
      (KStr "end_date", VStr end_date);
      (KStr "total_receipts", VInt (Z.of_nat (length all_receipts)));
      (KStr "matching_receipts", VInt (Z.of_nat (length matching))) ] in
  ret matching.

(** [query_by_tenant(tenant_id, path)] *)
Definition query_by_tenant (tenant_id : string) (path : string) : M (list value) :=
  let* store := LedgerStore.__init__ path in
  let* all_receipts := LedgerStore.read_all store in
  let* matching := lift (select (fun r => value_eqb (dict_get "tenant_id" VNone r)
                                                    (VStr tenant_id)) all_receipts) in
  let* _ := Core.emit_receipt "ledger_query"
    [ (KStr "tenant_id", VStr Core.TENANT_ID);
      (KStr "query_type", VStr "by_tenant");
      (KStr "filter_tenant", VStr tenant_id);
      (KStr "total_receipts", VInt (Z.of_nat (length all_receipts)));
      (KStr "matching_receipts", VInt (Z.of_nat (length matching))) ] in
  ret matching.

(** [query_by_field(field, value, path)] *)
Definition query_by_field (field : string) (v : value) (path : string) : M (list value) :=
  let* store := LedgerStore.__init__ path in
  let* all_receipts := LedgerStore.read_all store in
  let* matching := lift (select (fun r => value_eqb (dict_get field VNone r) v)
                                all_receipts) in
  let* _ := Core.emit_receipt "ledger_query"
    [ (KStr "tenant_id", VStr Core.TENANT_ID);
      (KStr "query_type", VStr "by_field");
      (KStr "field", VStr field);
      (KStr "total_receipts", VInt (Z.of_nat (length all_receipts)));
      (KStr "matching_receipts", VInt (Z.of_nat (length matching))) ] in
  ret matching.

(** [r.get("flagged") is True] *)
Definition is_flagged (r : pydict) : bool :=
  match dict_get "flagged" VNone r with
  | VBool true => true
  | _ => false
  end.

(** [query_flagged(path)] *)
Definition query_flagged (path : string) : M (list value) :=
  let* store := LedgerStore.__init__ path in
  let* all_receipts := LedgerStore.read_all store in
  let* matching := lift (select is_flagged all_receipts) in
  let* _ := Core.emit_receipt "ledger_query"
    [ (KStr "tenant_id", VStr Core.TENANT_ID);
      (KStr "query_type", VStr "flagged");
      (KStr "total_receipts", VInt (Z.of_nat (length all_receipts)));
      (KStr "matching_receipts", VInt (Z.of_nat (length matching))) ] in
  ret matching.

(** [query_anomalies(path)] *)
Definition query_anomalies (path : string) : M (list value) :=
  query_by_type "anomaly" path.

(** The loop of [aggregate_by_type]:
    [counts[rt] = counts.get(rt, 0) + 1]. *)
Fixpoint count_types (receipts : list value) (counts : pydict) : outcome pydict :=
  match receipts with
  | [] => Ok counts
  | r :: rest =>
      match receipt_get "receipt_type" (VStr "unknown") r with
      | Raise e => Raise e
      | Ok rt =>
          match to_key rt with
          | Some k =>
              let seen := match dict_lookup k counts with
                          | Some (VInt n) => n
                          | _ => 0
                          end in
              count_types rest (dict_set k (VInt (seen + 1)) counts)
          | None => Raise TypeError
          end
      end
  end.

(** [aggregate_by_type(path)] *)
Definition aggregate_by_type (path : string) : M pydict :=
  let* store := LedgerStore.__init__ path in
  let* all_receipts := LedgerStore.read_all store in
  let* counts := lift (count_types all_receipts []) in
  let* _ := Core.emit_receipt "ledger_aggregate"
    [ (KStr "tenant_id", VStr Core.TENANT_ID);
      (KStr "aggregation", VStr "by_type");
      (KStr "total_receipts", VInt (Z.of_nat (length all_receipts)));
      (KStr "type_count", VInt (Z.of_nat (length counts))) ] in
  ret counts.

End WithRuntime.
End Query.

(* ================================================================== *)
(** ** [src/ledger/compact.py] *)

(** [rt in preserve_types] *)
Definition in_types (rt : value) (preserve_types : list string) : bool :=
  existsb (fun t => value_eqb rt (VStr t)) preserve_types.

Module Compact.
Section WithRuntime.
Context {RT : Runtime}.

(** The loop separating the receipts: [(to_compact, to_keep)]. *)
Fixpoint separate (preserve_types : list string) (all_receipts : list value)
  (to_compact to_keep : list value) : outcome (list value * list value) :=
  match all_receipts with
  | [] => Ok (to_compact, to_keep)
  | r :: rest =>
      match receipt_get "ts" (VStr EmptyString) r with
      | Raise e => Raise e
      | Ok ts =>
          match receipt_get "receipt_type" (VStr EmptyString) r with
          | Raise e => Raise e
          | Ok rt =>
              if in_types rt preserve_types
              then separate preserve_types rest to_compact (to_keep ++ [r])
              else separate preserve_types rest (to_compact ++ [r]) to_keep
          end
      end
  end.

(** [by_type[rt] = by_type.get(rt, 0) + 1]: the counts are the integers the
    loop has stored itself. *)
Definition count_type (by_type : pydict) (rt : key) : pydict :=
  let seen := match dict_lookup rt by_type with
              | Some (VInt n) => n
              | _ => 0
              end in
  dict_set rt (VInt (seen + 1)) by_type.

(** The loop building [by_type]; a type that is a list or a dict is
    unhashable ([TypeError]). *)
Fixpoint count_by_type (to_compact : list value) (by_type : pydict) : outcome pydict :=
  match to_compact with
  | [] => Ok by_type
  | r :: rest =>
      match receipt_get "receipt_type" (VStr "unknown") r with
      | Raise e => Raise e
      | Ok rt =>
          match to_key rt with
          | Some k => count_by_type rest (count_type by_type k)
          | None => Raise TypeError
          end
      end
  end.

(** [to_compact[0].get("ts") if to_compact else None], and the same at [-1]. *)
Definition ts_of (r : option value) : outcome value :=
  match r with
  | Some r => receipt_get "ts" VNone r
  | None => Ok VNone
  end.

(** [for r in compacted: f.write(json.dumps(r, sort_keys=True) + "\n")] on the
    file opened by [open(path, "w")]. *)
Fixpoint write_receipts (path : string) (compacted : list value) : M unit :=
  match compacted with
  | [] => ret tt
  | r :: rest =>
      let* line := lift (json_dumps true r) in
      let* _ := append_file path (line +:+ NL) in
      write_receipts path rest
  end.

Definition default_preserve_types : list string := ["anomaly"; "anchor"; "compaction"].

(** [compact_ledger(path, max_age_days, preserve_types)] *)
Definition compact_ledger (path : string) (max_age_days : Z)
  (preserve_types : option (list string)) : M pydict :=
  let preserve_types := default default_preserve_types preserve_types in
  let* store := LedgerStore.__init__ path in
  let* all_receipts := LedgerStore.read_all store in
  match all_receipts with
  | [] => ret [ (KStr "compacted", VBool false); (KStr "reason", VStr "empty_ledger") ]
  | _ =>
      let* now := utcnow in
      let cutoff := replace "+00:00" "Z" now in
      let* '(to_compact, to_keep) := lift (separate preserve_types all_receipts [] []) in
      match to_compact with
      | [] => ret [ (KStr "compacted", VBool false);
                    (KStr "reason", VStr "nothing_to_compact") ]
      | _ =>
          let* before_root := lift (Core.merkle all_receipts) in
          let before_count := Z.of_nat (length all_receipts) in
          let* by_type := lift (count_by_type to_compact []) in
          let* start := lift (ts_of (head to_compact)) in
          let* end_ := lift (ts_of (last to_compact)) in
          let* start' := lift (ts_of (head to_compact)) in
          let* end' := lift (ts_of (last to_compact)) in
          let* compaction_receipt := Core.emit_receipt "compaction"
            [ (KStr "tenant_id", VStr Core.TENANT_ID);
              (KStr "input_span", VDict [ (KStr "start", start); (KStr "end", end_) ]);
              (KStr "output_span", VDict [ (KStr "start", start'); (KStr "end", end') ]);
              (KStr "counts", VDict [ (KStr "before", VInt (Z.of_nat (length to_compact)));
                                      (KStr "after", VInt 1) ]);
              (KStr "by_type", VDict by_type);
              (KStr "hash_continuity", VBool true);
              (KStr "pre_merkle_root", VStr before_root) ] in
          let compacted := to_keep ++ [VDict compaction_receipt] in
          let* _ := write_file path EmptyString in
          let* _ := write_receipts path compacted in
          let* after_root := lift (Core.merkle compacted) in
          ret [ (KStr "compacted", VBool true);
                (KStr "receipts_before", VInt before_count);
                (KStr "receipts_after", VInt (Z.of_nat (length compacted)));
                (KStr "receipts_compacted", VInt (Z.of_nat (length to_compact)));
                (KStr "pre_merkle_root", VStr before_root);
                (KStr "post_merkle_root", VStr after_root) ]
      end
  end.

(** [[r for r in compacted_receipts if r.get("receipt_type") == "compaction"]] *)
Fixpoint compaction_receipts_of (receipts : list value) : outcome (list value) :=
  match receipts with
  | [] => Ok []
  | r :: rest =>
      match receipt_get "receipt_type" VNone r with
      | Raise e => Raise e
      | Ok rt =>
          match compaction_receipts_of rest with
          | Raise e => Raise e
          | Ok found => Ok (if value_eqb rt (VStr "compaction") then r :: found else found)
          end
      end
  end.



(** [get_compaction_history(path)] *)
Definition get_compaction_history (path : string) : M (list value) :=
  let* store := LedgerStore.__init__ path in
  let* all_receipts := LedgerStore.read_all store in
  lift (compaction_receipts_of all_receipts).

End WithRuntime.
End Compact.

(* ================================================================== *)
(** ** [src/anchor/verify.py] *)

(** The [data: Any] of [verify_integrity]: a value or [bytes]. *)
Inductive any_data : Type :=
| AValue (v : value)
| ABytes (b : list byte).

Module Verify.
Section WithRuntime.
Context {RT : Runtime}.

(** The [isinstance] cascade computing [data_bytes]. *)
Definition data_bytes_of (data : any_data) : outcome (list byte) :=
  match data with
  | AValue (VDict d) =>
      match json_dumps true (VDict d) with
      | Ok s => Ok (utf8_encode s)
      | Raise e => Raise e
      end
  | AValue (VStr s) => Ok (utf8_encode s)
  | ABytes b => Ok b
  | AValue v => Ok (utf8_encode (py_str v))
  end.

(** [verify_integrity(data, expected_hash, halt_on_mismatch)] *)
Definition verify_integrity (data : any_data) (expected_hash : string)
  (halt_on_mismatch : bool) : M bool :=
  let* data_bytes := lift (data_bytes_of data) in
  let computed := Core.dual_hash (Bytes data_bytes) in
  let verified := String.eqb computed expected_hash in
  let* _ := Core.emit_receipt "integrity_verification"
    [ (KStr "tenant_id", VStr Core.TENANT_ID);
      (KStr "expected", VStr expected_hash);
      (KStr "computed", VStr computed);
      (KStr "verified", VBool verified) ] in
  let* _ := if negb verified && halt_on_mismatch
            then Core.stoprule_hash_mismatch expected_hash computed
            else ret tt in
  ret verified.

(** [f"{v}"]: the text itself for a [str], [str(v)] otherwise. *)
Definition format_value (v : value) : string :=
  match v with
  | VStr s => s
  | _ => py_str v
  end.

Definition required : list string := ["receipt_type"; "ts"; "tenant_id"; "payload_hash"].

(** [":" not in payload_hash]: a substring test on a [str], a membership
    test on a list or on the keys of a dict, [TypeError] on anything else. *)
Definition lacks_colon (payload_hash : value) : outcome bool :=
  match payload_hash with
  | VStr s => Ok (negb (has_char ":" s))
  | VList l => Ok (negb (existsb (fun x => value_eqb x (VStr ":")) l))
  | VDict d => Ok (negb (bool_decide (is_Some (dict_lookup (KStr ":") d))))
  | _ => Raise TypeError
  end.

(** [{k: v for k, v in receipt.items()
      if k not in ["payload_hash", "ts", "receipt_type"]}] *)
Definition data_copy_of (receipt : pydict) : pydict :=
  List.filter (fun kv => negb (existsb (fun x => key_eqb (fst kv) (KStr x))
                                       ["payload_hash"; "ts"; "receipt_type"])) receipt.

(** The errors of [verify_receipt]: one for each required field missing. *)
Definition missing_fields (receipt : pydict) : list value :=
  map (fun field => VStr ("missing_required_field:" +:+ field))
      (List.filter (fun field => negb (bool_decide (is_Some (dict_lookup (KStr field) receipt))))
                   required).

(** [verify_receipt(receipt)]; on anything but a dict the first [in] or
    [get] fails. *)
Definition verify_receipt (receipt : value) : M pydict :=
  match receipt with
  | VDict d =>
      let errors := missing_fields d in
      let* warnings :=
        match dict_lookup (KStr "payload_hash") d with
        | Some payload_hash =>
            let* serialized := lift (json_dumps true (VDict (data_copy_of d))) in
            let computed_hash := Core.dual_hash (Str serialized) in
            let* single := lift (lacks_colon payload_hash) in
            ret (if single then [VStr "single_hash_format"] else [])
        | None => ret []
        end in
      let tenant := dict_get "tenant_id" VNone d in
      let warnings :=
        if negb (value_eqb tenant (VStr Core.TENANT_ID))
        then warnings ++ [VStr ("non_standard_tenant:" +:+ format_value tenant)]
        else warnings in
      let result :=
        [ (KStr "receipt_type", dict_get "receipt_type" VNone d);
          (KStr "verified", VBool (length errors =? 0)%nat);
          (KStr "errors", VList errors);
          (KStr "warnings", VList warnings) ] in
      let* _ := Core.emit_receipt "receipt_verification"
        [ (KStr "tenant_id", VStr Core.TENANT_ID);
          (KStr "target_receipt_type", dict_get "receipt_type" VNone d);
          (KStr "verified", VBool (length errors =? 0)%nat);
          (KStr "error_count", VInt (Z.of_nat (length errors)));
          (KStr "warning_count", VInt (Z.of_nat (length warnings))) ] in
      ret result
  | VStr _ | VList _ => raise AttributeError
  | _ => raise TypeError
  end.

(** The loop of [verify_chain]. *)
Fixpoint chain_loop (i : Z) (receipts : list value) (previous_ts : value)
  (errors : list value) : M (list value) :=
  match receipts with
  | [] => ret errors
  | receipt :: rest =>
      let* result := verify_receipt receipt in
      let errors :=
        if negb (truthy (dict_get "verified" VNone result))
        then errors ++ [VDict [ (KStr "index", VInt i);
                                (KStr "errors", dict_get "errors" VNone result) ]]
        else errors in
      let* current_ts := lift (receipt_get "ts" (VStr EmptyString) receipt) in
      let* violation :=
        if truthy previous_ts
        then match py_lt current_ts previous_ts with
             | Some b => ret b
             | None => raise TypeError
             end
        else ret false in
      let errors :=
        if violation
        then errors ++ [VDict [ (KStr "index", VInt i);
                                (KStr "error", VStr "timestamp_ordering_violation") ]]
        else errors in
      chain_loop (i + 1) rest current_ts errors
  end.

(** [verify_chain(receipts)] *)
Definition verify_chain (receipts : list value) : M pydict :=
  match receipts with
  | [] => ret [ (KStr "verified", VBool true); (KStr "chain_length", VInt 0);
                (KStr "errors", VList []) ]
  | _ =>
      let* errors := chain_loop 0 receipts VNone [] in
      let result :=
        [ (KStr "verified", VBool (length errors =? 0)%nat);
          (KStr "chain_length", VInt (Z.of_nat (length receipts)));
          (KStr "errors", VList errors) ] in
      let* _ := Core.emit_receipt "chain_verification"
        [ (KStr "tenant_id", VStr Core.TENANT_ID);
          (KStr "chain_length", VInt (Z.of_nat (length receipts)));
          (KStr "verified", VBool (length errors =? 0)%nat);
          (KStr "error_count", VInt (Z.of_nat (length errors))) ] in
      ret result
  end.

(** [verify_batch_integrity(items, expected_root)] *)
Definition verify_batch_integrity (items : list value) (expected_root : string) : M pydict :=
  let* computed_root := Merkle.compute_merkle_root items in
  let verified := String.eqb computed_root expected_root in
  let result :=
    [ (KStr "verified", VBool verified);
      (KStr "item_count", VInt (Z.of_nat (length items)));
      (KStr "expected_root", VStr expected_root);
      (KStr "computed_root", VStr computed_root) ] in
  let* _ := Core.emit_receipt "batch_integrity"
              ((KStr "tenant_id", VStr Core.TENANT_ID) :: result) in
  ret result.

(** The loop of [audit_receipt_stream]: [(by_type, invalid, valid)]. *)
Fixpoint audit_loop (receipts : list value) (by_type : pydict) (invalid : list value)
  (valid : Z) : M (pydict * list value * Z) :=
  match receipts with
  | [] => ret (by_type, invalid, valid)
  | receipt :: rest =>
      let* receipt_type := lift (receipt_get "receipt_type" (VStr "unknown") receipt) in
      let* k := match to_key receipt_type with
                | Some k => ret k
                | None => raise TypeError
                end in
      let by_type :=
        match dict_lookup k by_type with
        | Some _ => by_type
        | None => dict_set k (VInt 0) by_type
        end in
      let by_type :=
        match dict_lookup k by_type with
        | Some (VInt n) => dict_set k (VInt (n + 1)) by_type
        | _ => by_type
        end in
      let* result := verify_receipt receipt in
      if truthy (dict_get "verified" VNone result)
      then audit_loop rest by_type invalid (valid + 1)
      else audit_loop rest by_type
             (invalid ++ [VDict [ (KStr "type", receipt_type);
                                  (KStr "errors", dict_get "errors" VNone result) ]])
             valid
  end.

(** [audit_receipt_stream(receipts)] *)
Definition audit_receipt_stream (receipts : list value) : M pydict :=
  let* '(by_type, invalid, valid) := audit_loop receipts [] [] 0 in
  let audit :=
    [ (KStr "total_receipts", VInt (Z.of_nat (length receipts)));
      (KStr "valid_receipts", VInt valid);
      (KStr "invalid_receipts", VInt (Z.of_nat (length invalid)));
      (KStr "by_type", VDict by_type);
      (KStr "invalid_details", VList (firstn 10 invalid)) ] in
  let* _ := Core.emit_receipt "receipt_audit"
    [ (KStr "tenant_id", VStr Core.TENANT_ID);
      (KStr "total", VInt (Z.of_nat (length receipts)));
      (KStr "valid", VInt valid);
      (KStr "invalid", VInt (Z.of_nat (length invalid)));
      (KStr "types", VList (map (fun kv => value_of_key (fst kv)) by_type)) ] in
  ret audit.

End WithRuntime.
End Verify.

(* ================================================================== *)
(** ** A reference runtime

    An executable instance of [Runtime], used to run the embedded program on
    concrete ledgers: a strict JSON reader for the float-free fragment, a
    clock that advances by one second per reading, [repr] for [str()], and
    no [blake3] package. *)

Module Reference.

Definition is_digit (c : ascii) : bool := (48 <=? code c) && (code c <=? 57).

(** JSON whitespace: space, tab, line feed, carriage return. *)
Definition is_json_ws (c : ascii) : bool :=
  let n := code c in (n =? 32) || (n =? 9) || (n =? 10) || (n =? 13).

Fixpoint skip_ws (s : string) : string :=
  match s with
  | String c s' => if is_json_ws c then skip_ws s' else s
  | EmptyString => s
  end.

Fixpoint take_digits (s : string) (acc : Z) : Z * string :=
  match s with
  | String c s' =>
      if is_digit c then take_digits s' (acc * 10 + (code c - 48)) else (acc, s)
  | EmptyString => (acc, s)
  end.

(** An unsigned integer without leading zeros; a fraction or an exponent
    would make the number a float, which is outside the fragment. *)
Definition parse_nat (s : string) : option (Z * string) :=
  match s with
  | String c s' =>
      if negb (is_digit c) then None
      else
        let '(n, rest) := if code c =? 48 then (0, s') else take_digits s 0 in
        match rest with
        | String d _ =>
            if Ascii.eqb d "." || Ascii.eqb d "e" || Ascii.eqb d "E" then None
            else Some (n, rest)
        | EmptyString => Some (n, rest)
        end
  | EmptyString => None
  end.

Definition hex_value (c : ascii) : option Z :=
  let n := code c in
  if (48 <=? n) && (n <=? 57) then Some (n - 48)
  else if (97 <=? n) && (n <=? 102) then Some (n - 87)
  else if (65 <=? n) && (n <=? 70) then Some (n - 55)
  else None.

Definition ascii_of_Z (z : Z) : ascii := ascii_of_N (Z.to_N z).

(** The characters of a string literal after its opening quote, up to and
    including the closing quote. *)
Fixpoint parse_chars (s : string) : option (string * string) :=
  match s with
  | EmptyString => None
  | String c s' =>
      if Ascii.eqb c DQUOTE then Some (EmptyString, s')
      else if Ascii.eqb c BACKSLASH then
        match s' with
        | String e s'' =>
            let simple (x : ascii) :=
              match parse_chars s'' with
              | Some (body, rest) => Some (String x body, rest)
              | None => None
              end in
            if Ascii.eqb e DQUOTE then simple DQUOTE
            else if Ascii.eqb e BACKSLASH then simple BACKSLASH
            else if Ascii.eqb e "/" then simple "/"%char
            else if Ascii.eqb e "b" then simple "008"%char
            else if Ascii.eqb e "f" then simple "012"%char
            else if Ascii.eqb e "n" then simple "010"%char
            else if Ascii.eqb e "r" then simple "013"%char
            else if Ascii.eqb e "t" then simple "009"%char
            else if Ascii.eqb e "u" then
              match s'' with
              | String a (String b (String c' (String d rest'))) =>
                  match hex_value a, hex_value b, hex_value c', hex_value d with
                  | Some 0, Some 0, Some x, Some y =>
                      match parse_chars rest' with
                      | Some (body, rest) => Some (String (ascii_of_Z (16 * x + y)) body, rest)
                      | None => None
                      end
                  | _, _, _, _ => None
                  end
              | _ => None
              end
            else None
        | EmptyString => None
        end
      else if code c <? 32 then None
      else
        match parse_chars s' with
        | Some (body, rest) => Some (String c body, rest)
        | None => None
        end
  end.

Definition drop_prefix (p s : string) : option string :=
  if String.prefix p s then Some (String.substring (String.length p)
                                    (String.length s - String.length p) s)
  else None.

(** One JSON value at the head of [s], and what follows it. *)
Fixpoint parse_value (fuel : nat) (s : string) : option (value * string) :=
  match fuel with
  | O => None
  | S fuel' =>
      match skip_ws s with
      | EmptyString => None
      | String c rest as s0 =>
          if Ascii.eqb c "n" then option_map (pair VNone) (drop_prefix "null" s0)
          else if Ascii.eqb c "t" then option_map (pair (VBool true)) (drop_prefix "true" s0)
          else if Ascii.eqb c "f" then option_map (pair (VBool false)) (drop_prefix "false" s0)
          else if Ascii.eqb c DQUOTE then
            match parse_chars rest with
            | Some (body, rest') => Some (VStr body, rest')
            | None => None
            end
          else if Ascii.eqb c "-" then
            match parse_nat rest with
            | Some (n, rest') => Some (VInt (- n), rest')
            | None => None
            end
          else if Ascii.eqb c "[" then
            match skip_ws rest with
            | String c' rest' as s1 =>
                if Ascii.eqb c' "]" then Some (VList [], rest')
                else option_map (fun '(l, r) => (VList l, r)) (parse_elements fuel' s1)
            | EmptyString => None
            end
          else if Ascii.eqb c "{" then
            match skip_ws rest with
            | String c' rest' as s1 =>
                if Ascii.eqb c' "}" then Some (VDict [], rest')
                else option_map (fun '(d, r) => (VDict (dict_of_items d), r))
                                (parse_members fuel' s1)
            | EmptyString => None
            end
          else
            match parse_nat s0 with
            | Some (n, rest') => Some (VInt n, rest')
            | None => None
            end
      end
  end
(** The elements of a non-empty array, up to and including its ["]"]. *)
with parse_elements (fuel : nat) (s : string) : option (list value * string) :=
  match fuel with
  | O => None
  | S fuel' =>
      match parse_value fuel' s with
      | Some (v, rest) =>
          match skip_ws rest with
          | String c rest' =>
              if Ascii.eqb c "]" then Some ([v], rest')
              else if Ascii.eqb c "," then
                option_map (fun '(l, r) => (v :: l, r)) (parse_elements fuel' rest')
              else None
          | EmptyString => None
          end
      | None => None
      end
  end
(** The members of a non-empty object, up to and including its ["}"]. *)
with parse_members (fuel : nat) (s : string) : option (pydict * string) :=
  match fuel with
  | O => None
  | S fuel' =>
      match skip_ws s with
      | String q s1 =>
          if negb (Ascii.eqb q DQUOTE) then None
          else
            match parse_chars s1 with
            | Some (k, s2) =>
                match skip_ws s2 with
                | String colon s3 =>
                    if negb (Ascii.eqb colon ":") then None
                    else
                      match parse_value fuel' s3 with
                      | Some (v, rest) =>
                          match skip_ws rest with
                          | String c rest' =>
                              if Ascii.eqb c "}" then Some ([(KStr k, v)], rest')
                              else if Ascii.eqb c "," then
                                option_map (fun '(d, r) => ((KStr k, v) :: d, r))
                                           (parse_members fuel' rest')
                              else None
                          | EmptyString => None
                          end
                      | None => None
                      end
                | EmptyString => None
                end
            | None => None
            end
      | EmptyString => None
      end
  end.

(** A whole document: one value, with nothing but whitespace around it. *)
Definition loads (s : string) : option value :=
  match parse_value (2 * String.length s + 2) s with
  | Some (v, rest) =>
      match skip_ws rest with
      | EmptyString => Some v
      | _ => None
      end
  | None => None
  end.

Definition two_digits (n : nat) : string :=
  String (Hex.digit (Z.of_nat (n / 10))) (String (Hex.digit (Z.of_nat (n mod 10))) EmptyString).

(** One second per reading, starting at 2024-01-15T10:00:00 UTC. *)
Definition isoformat (n : nat) : string :=
  "2024-01-15T10:" +:+ two_digits ((n / 60) mod 60) +:+ ":" +:+ two_digits (n mod 60)
  +:+ "+00:00".

Definition SQUOTE : ascii := "039"%char.

Definition printable (c : ascii) : bool :=
  let n := code c in
  ((32 <=? n) && (n <=? 126)) || ((161 <=? n) && negb (n =? 173)).

Definition repr_char (quote : ascii) (c : ascii) : string :=
  let n := code c in
  if Ascii.eqb c quote || Ascii.eqb c BACKSLASH then String BACKSLASH (String c EmptyString)
  else if n =? 9 then String BACKSLASH "t"
  else if n =? 10 then String BACKSLASH "n"
  else if n =? 13 then String BACKSLASH "r"
  else if printable c then String c EmptyString
  else String BACKSLASH (String "x" (String (Hex.digit (Z.shiftr n 4))
                                            (String (Hex.digit n) EmptyString))).

Fixpoint contains (c : ascii) (s : string) : bool :=
  match s with
  | EmptyString => false
  | String c' s' => Ascii.eqb c c' || contains c s'
  end.

Fixpoint repr_chars (quote : ascii) (s : string) : string :=
  match s with
  | EmptyString => EmptyString
  | String c s' => repr_char quote c +:+ repr_chars quote s'
  end.

(** [repr(s)] of a [str]. *)
Definition repr_str (s : string) : string :=
  let quote := if contains SQUOTE s && negb (contains DQUOTE s) then DQUOTE else SQUOTE in
  String quote (repr_chars quote s +:+ String quote EmptyString).

Definition repr_key (k : key) : string :=
  match k with
  | KNone => "None"
  | KBool true => "True"
  | KBool false => "False"
  | KInt z => repr_int z
  | KStr s => repr_str s
  end.

(** [repr(v)] *)
Fixpoint repr (v : value) : string :=
  match v with
  | VNone => "None"
  | VBool true => "True"
  | VBool false => "False"
  | VInt z => repr_int z
  | VStr s => repr_str s
  | VList l => "[" +:+ join ", " (map repr l) +:+ "]"
  | VDict d =>
      "{" +:+ join ", " (map (fun kv => repr_key (fst kv) +:+ ": " +:+ repr (snd kv)) d) +:+ "}"
  end.

(** [str(v)]: the text itself for a [str], [repr(v)] otherwise. *)
Definition str (v : value) : string :=
  match v with
  | VStr s => s
  | _ => repr v
  end.

(** The runtime of an installation without the [blake3] package. *)
Definition runtime : Runtime := {|
  HAS_BLAKE3 := false;
  blake3_hexdigest := fun _ => EmptyString;
  json_loads := loads;
  utcnow_isoformat := isoformat;
  py_str := str
|}.

(** A world with no files, nothing printed and the clock unread. *)
Definition world0 : World := mkWorld ∅ [] 0.

End Reference.

(* ================================================================== *)
(** ** Vocabulary of the statements *)

(** Every character of [s] satisfies [P]. *)
Fixpoint all_chars (P : ascii -> bool) (s : string) : bool :=
  match s with
  | EmptyString => true
  | String c s' => P c && all_chars P s'
  end.

Definition is_hex (c : ascii) : bool := existsb (Ascii.eqb c) Hex.digits.

(** The bytes [dual_hash] digests. *)
Definition bytes_of_data (data : hash_data) : list byte :=
  match data with Str s => utf8_encode s | Bytes b => b end.

(** Structural induction on values, through the lists and dicts they nest. *)
Fixpoint value_induction (P : value -> Prop)
  (HNone : P VNone) (HBool : forall b, P (VBool b)) (HInt : forall z, P (VInt z))
  (HStr : forall s, P (VStr s))
  (HList : forall l, Forall P l -> P (VList l))
  (HDict : forall d, Forall (fun kv => P (snd kv)) d -> P (VDict d))
  (v : value) : P v :=
  match v with
  | VNone => HNone
  | VBool b => HBool b
  | VInt z => HInt z
  | VStr s => HStr s
  | VList l =>
      HList l ((fix each (l : list value) : Forall P l :=
                  match l with
                  | [] => @List.Forall_nil _ P
                  | x :: t =>
                      @List.Forall_cons _ P x t
                        (value_induction P HNone HBool HInt HStr HList HDict x) (each t)
                  end) l)
  | VDict d =>
      HDict d ((fix each (d : pydict) : Forall (fun kv => P (snd kv)) d :=
                  match d with
                  | [] => @List.Forall_nil _ _
                  | kv :: t =>
                      @List.Forall_cons _ (fun kv => P (snd kv)) kv t
                        (value_induction P HNone HBool HInt HStr HList HDict (snd kv)) (each t)
                  end) d)
  end.

(** [Some] of all the results when none is missing. *)
Fixpoint all_some {A : Type} (l : list (option A)) : option (list A) :=
  match l with
  | [] => Some []
  | o :: t =>
      match o, all_some t with
      | Some a, Some r => Some (a :: r)
      | _, _ => None
      end
  end.

(** Every dict inside [v] has string keys only, as in a JSON document. *)
Fixpoint str_keyed (v : value) : bool :=
  match v with
  | VList l => forallb str_keyed l
  | VDict d => forallb (fun kv => is_str_key (fst kv) && str_keyed (snd kv)) d
  | _ => true
  end.

(** Printable ASCII, the characters [json.dumps] writes. *)
Definition is_print (c : ascii) : bool := (32 <=? code c) && (code c <=? 126).

(** Printable ASCII other than the space. *)
Definition is_graph (c : ascii) : bool := (33 <=? code c) && (code c <=? 126).

(** The last character of a string. *)
Fixpoint last_char (s : string) : option ascii :=
  match s with
  | EmptyString => None
  | String c EmptyString => Some c
  | String _ s' => last_char s'
  end.

Definition first_char (s : string) : option ascii :=
  match s with
  | EmptyString => None
  | String c _ => Some c
  end.

(** A text that starts and ends with a visible character and holds
    printable ASCII only: what one line of the ledger file looks like. *)
Definition tight (s : string) : bool :=
  all_chars is_print s
  && match first_char s with Some c => is_graph c | None => false end
  && match last_char s with Some c => is_graph c | None => false end.

(** The receipt [emit_receipt] assembles from the clock reading [now], the
    data and its canonical serialization [payload]. *)
Definition receipt_of `{RT : Runtime} (receipt_type now : string) (data : pydict)
  (payload : string) : pydict :=
  dict_of_items
    ([ (KStr "receipt_type", VStr receipt_type);
       (KStr "ts", VStr (replace "+00:00" "Z" now));
       (KStr "tenant_id", dict_get "tenant_id" (VStr Core.TENANT_ID) data);
       (KStr "payload_hash", VStr (Core.dual_hash (Str payload))) ] ++ data).

(** The world after one more line on standard output and one more reading
    of the clock. *)
Definition emitted (w : World) (line : string) : World :=
  mkWorld (fs w) (stdout w ++ [line]) (S (clock w)).

(** The text of the ledger file, empty when the file does not exist. *)
Definition ledger_text (w : World) (path : string) : string :=
  default EmptyString (fs w !! path).

(** The receipts [read_all] finds in a text. *)
Definition parse_ledger `{RT : Runtime} (text : string) : list value :=
  fold_left LedgerStore.read_line (readlines text) [].

(** The world after [LedgerStore(path)]: the file exists. *)
Definition ensured (w : World) (path : string) : World :=
  mkWorld (<[path := ledger_text w path]> (fs w)) (stdout w) (clock w).

(** The receipts [compact_ledger] keeps: dicts whose [receipt_type] is one of
    [preserve_types]. *)
Definition is_kept (preserve_types : list string) (r : value) : bool :=
  match r with
  | VDict d => in_types (dict_get "receipt_type" (VStr EmptyString) d) preserve_types
  | _ => false
  end.

(** Lines written one after the other, each closed by a line feed. *)
Definition unlines (lines : list string) : string :=
  fold_right (fun s acc => s +:+ NL +:+ acc) EmptyString lines.

(** [r] serializes to the line [s]. *)
Definition encodes (r : value) (s : string) : Prop := json_encode true r = Some s.

(** The key under which [compact_ledger] counts a folded receipt. *)
Definition type_key (r : value) : option key :=
  match receipt_get "receipt_type" (VStr "unknown") r with
  | Ok rt => to_key rt
  | Raise _ => None
  end.

(** How many of the receipts are counted under a key equal to [k]. *)
Definition count_of_type (k : key) (receipts : list value) : nat :=
  length (List.filter (fun r => match type_key r with
                                | Some k' => key_eqb k' k
                                | None => false
                                end) receipts).

(** The data of the summary receipt [compact_ledger] emits. *)
Definition compaction_data (to_compact : list value) (by_type : pydict)
  (before_root : string) (first_ts last_ts : value) : pydict :=
  [ (KStr "tenant_id", VStr Core.TENANT_ID);
    (KStr "input_span", VDict [ (KStr "start", first_ts); (KStr "end", last_ts) ]);
    (KStr "output_span", VDict [ (KStr "start", first_ts); (KStr "end", last_ts) ]);
    (KStr "counts", VDict [ (KStr "before", VInt (Z.of_nat (length to_compact)));
                            (KStr "after", VInt 1) ]);
    (KStr "by_type", VDict by_type);
    (KStr "hash_continuity", VBool true);
    (KStr "pre_merkle_root", VStr before_root) ].

(** [r.get("ts")] of a receipt that is a dict. *)
Definition ts_field (r : value) : value :=
  match r with
  | VDict d => dict_get "ts" VNone d
  | _ => VNone
  end.

(** [ts] of the first and of the last receipt of a list, [None] when the
    list is empty. *)
Definition first_ts (receipts : list value) : value :=
  match head receipts with Some r => ts_field r | None => VNone end.

Definition last_ts (receipts : list value) : value :=
  match last receipts with Some r => ts_field r | None => VNone end.

(** The world after one more reading of the clock. *)
Definition ticked (w : World) : World := mkWorld (fs w) (stdout w) (S (clock w)).

(** What [read_all] makes of one line of the file: nothing when the line is
    blank or does not deserialize. *)
Definition parse_line `{RT : Runtime} (line : string) : option value :=
  let line := strip line in
  if String.eqb line EmptyString then None else json_loads line.

(** A text without line breaks. *)
Definition no_breaks (s : string) : bool :=
  all_chars (fun c => negb (Ascii.eqb c LF) && negb (Ascii.eqb c CR)) s.

(** A computation that leaves every file other than [path] as it was,
    whatever its outcome. *)
Definition keeps_other_files {A : Type} (path : string) (m : M A) : Prop :=
  forall w o w' p, m w = (o, w') -> p <> path -> fs w' !! p = fs w !! p.

(** The representative of a key among the keys equal to it: a boolean is
    the integer it equals. *)
Definition key_norm (k : key) : key :=
  match k with
  | KBool b => KInt (Z_of_bool b)
  | _ => k
  end.

(** [d] maps every key to the number [f] gives it, and has no entry where
    that number is zero. *)
Definition counted (d : pydict) (f : key -> nat) : Prop :=
  forall k, dict_lookup k d
            = if (f k =? 0)%nat then None else Some (VInt (Z.of_nat (f k))).

(** A receipt of type ["compaction"]: what [verify_compaction] counts as a
    summary. *)
Definition is_compaction (r : value) : bool :=
  match r with
  | VDict d => value_eqb (dict_get "receipt_type" VNone d) (VStr "compaction")
  | _ => false
  end.

(** A ledger of five receipts, one of them an anomaly, in the file
    [ledger.jsonl]. *)
Definition sample_receipt (receipt_type ts : string) (n : Z) : value :=
  VDict [ (KStr "receipt_type", VStr receipt_type); (KStr "ts", VStr ts);
          (KStr "tenant_id", VStr Core.TENANT_ID); (KStr "n", VInt n) ].

Definition sample_receipts : list value :=
  [ sample_receipt "ingest" "2024-01-15T09:00:00Z" 1;
    sample_receipt "anomaly" "2024-01-15T09:01:00Z" 2;
    sample_receipt "ingest" "2024-01-15T09:02:00Z" 3;
    sample_receipt "query" "2024-01-15T09:03:00Z" 4;
    sample_receipt "ingest" "2024-01-15T09:04:00Z" 5 ].

(** [store.append(r)] for each receipt in turn. *)
Fixpoint append_all `{RT : Runtime} (store : string) (receipts : list value) : M unit :=
  match receipts with
  | [] => ret tt
  | r :: rest =>
      let* _ := LedgerStore.append store r in
      append_all store rest
  end.

Definition sample_path : string := "ledger.jsonl".

Definition sample_world : World :=
  snd ((let* store := LedgerStore.__init__ sample_path in
        @append_all Reference.runtime store sample_receipts) Reference.world0).

(** Compacting the sample ledger, keeping the anomalies only. *)
Definition sample_run : outcome pydict * World :=
  @Compact.compact_ledger Reference.runtime sample_path 90 (Some ["anomaly"]) sample_world.

Definition sample_result : pydict :=
  match fst sample_run with Ok res => res | Raise _ => [] end.

Definition sample_after : World := snd sample_run.



(** A ledger file with a corrupt line and a blank line between two
    receipts. *)
Definition corrupt_lines : list string :=
  [ "{ }"; "{corrupt"; "   "; "[1, 2]" ].

Definition corrupt_world : World :=
  mkWorld {[ sample_path := unlines corrupt_lines ]} [] 0.



(** The levels [build_merkle_tree] records after [hashes], up to the root. *)
Fixpoint later_levels `{RT : Runtime} (fuel : nat) (hashes : list string)
  : list (list string) :=
  match fuel with
  | O => []
  | S fuel' =>
      if (1 <? length hashes)%nat
      then Core.next_level hashes :: later_levels fuel' (Core.next_level hashes)
      else []
  end.

(** The index [get_merkle_proof] looks at beside [index]. *)
Definition sibling (index : Z) : Z :=
  if index mod 2 =? 0 then index + 1 else index - 1.

(** On the way from leaf [index] to the root, every node has its sibling
    inside its own level: the node is never the unpaired last element of a
    level of odd length. *)
Fixpoint path_has_siblings `{RT : Runtime} (fuel : nat) (hashes : list string)
  (index : Z) : bool :=
  match fuel with
  | O => true
  | S fuel' =>
      if (1 <? length hashes)%nat
      then (sibling index <? Z.of_nat (length hashes))
           && path_has_siblings fuel' (Core.next_level hashes) (index / 2)
      else true
  end.


(** The test [r.get(field) == v] on a receipt read from the ledger. *)
Definition field_is (field : string) (v : value) (r : value) : bool :=
  match r with
  | VDict d => value_eqb (dict_get field VNone d) v
  | _ => false
  end.

(** The last [n] elements of a list, all of them when there are fewer. *)
Definition lastn {A : Type} (n : nat) (l : list A) : list A :=
  skipn (length l - n) l.

(** The test [r.get("flagged") is True] on a receipt read from the ledger. *)
Definition flagged (r : value) : bool :=
  match r with
  | VDict d => Query.is_flagged d
  | _ => false
  end.

(** A dict whose [ts], when it has one, is a string. *)
Definition has_str_ts (r : value) : bool :=
  match r with
  | VDict d => match dict_get "ts" (VStr EmptyString) d with VStr _ => true | _ => false end
  | _ => false
  end.

(** [start_date <= r.get("ts", "") <= end_date] on such a receipt. *)
Definition ts_between (start_date end_date : string) (r : value) : bool :=
  match r with
  | VDict d =>
      match dict_get "ts" (VStr EmptyString) d with
      | VStr ts => String.leb start_date ts && String.leb ts end_date
      | _ => false
      end
  | _ => false
  end.

(** No two keys of the dict are equal: what every Python dict satisfies. *)
Fixpoint unique_keys (d : pydict) : bool :=
  match d with
  | [] => true
  | (k, _) :: rest => negb (existsb (key_eqb k) (map fst rest)) && unique_keys rest
  end.

(** The fields [emit_receipt] stamps on a receipt before the data is laid
    over them. *)
Definition stamped `{RT : Runtime} (receipt_type now payload : string) : pydict :=
  [ (KStr "receipt_type", VStr receipt_type);
    (KStr "ts", VStr (replace "+00:00" "Z" now));
    (KStr "tenant_id", VStr Core.TENANT_ID);
    (KStr "payload_hash", VStr (Core.dual_hash (Str payload))) ].

(** A receipt [aggregate_by_type] can count: a dict whose [receipt_type],
    if any, is hashable. *)
Definition typed (r : value) : bool :=
  match type_key r with Some _ => true | None => false end.

(** A dict without the field [receipt_type]. *)
Definition untyped (r : value) : bool :=
  match r with
  | VDict d => match dict_lookup (KStr "receipt_type") d with None => true | Some _ => false end
  | _ => false
  end.

(** A computation that leaves the text of every file as it was, whatever
    its outcome; it may create an empty file. *)
Definition keeps_texts {A : Type} (m : M A) : Prop :=
  forall w o w' p, m w = (o, w') -> ledger_text w' p = ledger_text w p.

(** A computation that leaves the file system as it was, whatever its
    outcome. *)
Definition keeps_files {A : Type} (m : M A) : Prop :=
  forall w o w', m w = (o, w') -> fs w' = fs w.

(** The dict has the field [field]. *)
Definition has_field (d : pydict) (field : string) : bool :=
  bool_decide (is_Some (dict_lookup (KStr field) d)).

(** A receipt as [verify_receipt] expects it: a dict with string keys
    throughout whose [payload_hash], if any, is a string. *)
Definition plain_receipt (r : value) : bool :=
  match r with
  | VDict d =>
      str_keyed (VDict d)
      && match dict_lookup (KStr "payload_hash") d with
         | Some (VStr _) | None => true
         | Some _ => false
         end
  | _ => false
  end.

(** The fields of a receipt that has no [payload_hash] yet. *)
Definition sample_fields : pydict :=
  [ (KStr "receipt_type", VStr "ingest"); (KStr "ts", VStr "2024-01-15T09:00:00Z");
    (KStr "tenant_id", VStr Core.TENANT_ID); (KStr "n", VInt 1) ].

(** A receipt with the four fields [verify_receipt] requires. *)
Definition complete (r : value) : bool :=
  match r with
  | VDict d => forallb (has_field d) Verify.required
  | _ => false
  end.

(** The timestamp [verify_chain] reads off a receipt whose [ts] is a
    string: [receipt.get("ts", "")]. *)
Definition ts_string (r : value) : string :=
  match r with
  | VDict d => match dict_get "ts" (VStr EmptyString) d with VStr s => s | _ => EmptyString end
  | _ => EmptyString
  end.

(** No timestamp is less than the one before it, [previous] being the one
    before the first. *)
Fixpoint ordered_from (previous : string) (timestamps : list string) : bool :=
  match timestamps with
  | [] => true
  | ts :: rest => negb (String.ltb ts previous) && ordered_from ts rest
  end.

(** The ordering errors of [verify_chain]: one for each receipt, counted
    from [i], whose timestamp is less than the one before it. *)
Fixpoint descents (i : Z) (previous : string) (receipts : list value) : list value :=
  match receipts with
  | [] => []
  | r :: rest =>
      (if String.ltb (ts_string r) previous
       then [VDict [ (KStr "index", VInt i);
                     (KStr "error", VStr "timestamp_ordering_violation") ]]
       else [])
      ++ descents (i + 1) (ts_string r) rest
  end.

(** How many times the character occurs in the string. *)
Fixpoint count_char (c : ascii) (s : string) : nat :=
  match s with
  | EmptyString => O
  | String c' s' => ((if Ascii.eqb c' c then 1 else 0) + count_char c s')%nat
  end.

(** The line [json.dumps(r, sort_keys=True)] writes for each receipt. *)
Definition lines_of (receipts : list value) : list string :=
  map (fun r => default EmptyString (json_encode true r)) receipts.

(** The root of a list of items that has one. *)
Definition root_of `{RT : Runtime} (items : list value) : string :=
  match Core.merkle items with Ok root => root | Raise _ => EmptyString end.

(** What [compact_ledger] returns when it has rewritten the ledger. *)
Definition compaction_result (receipts_before receipts_after receipts_compacted : nat)
  (before_root after_root : string) : pydict :=
  [ (KStr "compacted", VBool true);
    (KStr "receipts_before", VInt (Z.of_nat receipts_before));
    (KStr "receipts_after", VInt (Z.of_nat receipts_after));
    (KStr "receipts_compacted", VInt (Z.of_nat receipts_compacted));
    (KStr "pre_merkle_root", VStr before_root);
    (KStr "post_merkle_root", VStr after_root) ].

(** A dict whose [receipt_type], if any, is a string. *)
Definition str_typed (r : value) : bool :=
  match type_key r with Some (KStr _) => true | _ => false end.

Definition bytes_of_ascii_string (s : string) : list byte := list_byte_of_string s.

Example sha256_empty :
  SHA256.hexdigest [] = "e3b0c44298fc1c149afbf4c8996fb92427ae41e4649b934ca495991b7852b855".
Proof. vm_compute. reflexivity. Qed.

Example sha256_abc :
  SHA256.hexdigest (bytes_of_ascii_string "abc")
  = "ba7816bf8f01cfea414140de5dae2223b00361a396177a9cb410ff61f20015ad".
Proof. vm_compute. reflexivity. Qed.

Example sha256_200a :
  SHA256.hexdigest (repeat "a"%byte 200)
  = "c2a908d98f5df987ade41b5fce213067efbcc21ef2240212a41e54b5e7c28ae5".
Proof. vm_compute. reflexivity. Qed.

(* ================================================================== *)
(** * Properties *)

(** ** Hexadecimal digests and the shape of a fingerprint *)

Lemma all_chars_cons P c s : all_chars P (String c s) = P c && all_chars P s.
Proof. reflexivity. Qed.

Lemma all_chars_app P s t : all_chars P (s +:+ t) = all_chars P s && all_chars P t.
Proof. induction s as [|c s IH]; simpl; [done|]. by rewrite IH, andb_assoc. Qed.

Lemma all_chars_impl (P Q : ascii -> bool) s :
  (forall c, P c = true -> Q c = true) -> all_chars P s = true -> all_chars Q s = true.
Proof.
  intros HPQ. induction s as [|c s IH]; simpl; [done|].
  intros [Hc Hs]%andb_true_iff. by rewrite (HPQ _ Hc), IH.
Qed.

Lemma digit_is_hex n : is_hex (Hex.digit n) = true.
Proof.
  unfold Hex.digit.
  assert (H : (Z.to_nat (Z.land n 15) < 16)%nat).
  { change 15 with (Z.ones 4). rewrite Z.land_ones by lia.
    pose proof (Z.mod_pos_bound n (2 ^ 4) ltac:(lia)). lia. }
  revert H. generalize (Z.to_nat (Z.land n 15)). intros k Hk.
  do 16 (destruct k as [|k]; [reflexivity|]). lia.
Qed.

Lemma word32_is_hex x : all_chars is_hex (Hex.word32 x) = true.
Proof. unfold Hex.word32. rewrite !all_chars_cons, !digit_is_hex. reflexivity. Qed.

Lemma word16_is_hex x : all_chars is_hex (Hex.word16 x) = true.
Proof. unfold Hex.word16. rewrite !all_chars_cons, !digit_is_hex. reflexivity. Qed.

Lemma hexdigest_is_hex b : all_chars is_hex (SHA256.hexdigest b) = true.
Proof.
  unfold SHA256.hexdigest. cbv zeta.
  rewrite !all_chars_app, !word32_is_hex. reflexivity.
Qed.

Lemma length_append s t : String.length (s +:+ t) = (String.length s + String.length t)%nat.
Proof. induction s as [|c s IH]; simpl; [done|]. by rewrite IH. Qed.

Lemma word32_length x : String.length (Hex.word32 x) = 8%nat.
Proof. reflexivity. Qed.

Lemma hexdigest_length b : String.length (SHA256.hexdigest b) = 64%nat.
Proof.
  unfold SHA256.hexdigest. cbv zeta. rewrite !length_append, !word32_length. reflexivity.
Qed.

Lemma is_hex_not_colon c : is_hex c = true -> negb (Ascii.eqb c ":") = true.
Proof. destruct (Ascii.eqb_spec c ":") as [->|]; [discriminate|done]. Qed.

Lemma split_on_no_sep sep s :
  all_chars (fun c => negb (Ascii.eqb c sep)) s = true -> split_on sep s = [s].
Proof.
  induction s as [|c s IH]; simpl; [done|].
  intros [Hc Hs]%andb_true_iff. apply negb_true_iff in Hc. by rewrite Hc, IH.
Qed.

Lemma split_on_app sep s t :
  all_chars (fun c => negb (Ascii.eqb c sep)) s = true ->
  split_on sep (s +:+ String sep t) = s :: split_on sep t.
Proof.
  induction s as [|c s IH]; simpl.
  - by rewrite Ascii.eqb_refl.
  - intros [Hc Hs]%andb_true_iff. apply negb_true_iff in Hc. by rewrite Hc, IH.
Qed.

Lemma split_dual_hash_joined sha b3 :
  all_chars is_hex sha = true -> all_chars is_hex b3 = true ->
  AnchorHash.split_dual_hash (sha +:+ ":" +:+ b3) = (sha, b3).
Proof.
  intros H1 H2. unfold AnchorHash.split_dual_hash.
  change (sha +:+ ":" +:+ b3) with (sha +:+ String ":" b3).
  rewrite split_on_app, split_on_no_sep; eauto using all_chars_impl, is_hex_not_colon.
Qed.

Lemma dual_hash_modules_agree `{RT : Runtime} data :
  AnchorHash.dual_hash data = Core.dual_hash data.
Proof. reflexivity. Qed.

(** C1, as the code has it.  When the [blake3] package is missing
    ([HAS_BLAKE3] is false) [dual_hash] does not fail: for every input, in
    [src/core.py] and in [src/anchor/hash.py] alike, it returns the SHA-256
    hex digest twice, joined by a colon, so the secondary component of the
    fingerprint is a copy of the primary one. *)
Theorem dual_hash_fallback_duplicates `{RT : Runtime} (data : hash_data) :
  HAS_BLAKE3 = false ->
  let sha := SHA256.hexdigest (bytes_of_data data) in
  Core.dual_hash data = sha +:+ ":" +:+ sha
  /\ AnchorHash.dual_hash data = sha +:+ ":" +:+ sha
  /\ AnchorHash.split_dual_hash (Core.dual_hash data) = (sha, sha).
Proof.
  intros Hno sha.
  assert (E : Core.dual_hash data = sha +:+ ":" +:+ sha).
  { unfold Core.dual_hash. rewrite Hno. reflexivity. }
  split; [exact E|]. split; [by rewrite dual_hash_modules_agree|].
  rewrite E. apply split_dual_hash_joined; apply hexdigest_is_hex.
Qed.

Lemma dual_hash_fallback_duplicates_witness :
  let sha := SHA256.hexdigest (bytes_of_data (Str "test")) in
  @Core.dual_hash Reference.runtime (Str "test") = sha +:+ ":" +:+ sha
  /\ @AnchorHash.dual_hash Reference.runtime (Str "test") = sha +:+ ":" +:+ sha
  /\ AnchorHash.split_dual_hash (@Core.dual_hash Reference.runtime (Str "test")) = (sha, sha).
Proof.
  apply (@dual_hash_fallback_duplicates Reference.runtime (Str "test")). reflexivity.
Defined.

(** C1, as the specification words it, fails: without [blake3] the
    fingerprint of the empty byte string is returned, not refused, and its
    two components are the same SHA-256 digest. *)
Lemma dual_hash_fails_closed_counterexample :
  @HAS_BLAKE3 Reference.runtime = false
  /\ @Core.dual_hash Reference.runtime (Bytes [])
     = "e3b0c44298fc1c149afbf4c8996fb92427ae41e4649b934ca495991b7852b855:e3b0c44298fc1c149afbf4c8996fb92427ae41e4649b934ca495991b7852b855"
  /\ @AnchorHash.dual_hash Reference.runtime (Bytes [])
     = "e3b0c44298fc1c149afbf4c8996fb92427ae41e4649b934ca495991b7852b855:e3b0c44298fc1c149afbf4c8996fb92427ae41e4649b934ca495991b7852b855"
  /\ AnchorHash.split_dual_hash (@Core.dual_hash Reference.runtime (Bytes []))
     = ("e3b0c44298fc1c149afbf4c8996fb92427ae41e4649b934ca495991b7852b855",
        "e3b0c44298fc1c149afbf4c8996fb92427ae41e4649b934ca495991b7852b855").
Proof. vm_compute. repeat split. Qed.

(** ** [json.dumps]: when it succeeds and what it writes *)

Lemma json_encode_VList b l :
  json_encode b (VList l)
  = match all_some (map (json_encode b) l) with
    | Some parts => Some ("[" +:+ join ", " parts +:+ "]")
    | None => None
    end.
Proof.
  simpl.
  match goal with |- match ?f l with _ => _ end = _ =>
    assert (E : forall l, f l = all_some (map (json_encode b) l))
  end.
  { clear l. induction l as [|x t IH]; [done|]. simpl. rewrite IH. done. }
  by rewrite E.
Qed.

Lemma json_encode_VDict b d :
  json_encode b (VDict d)
  = match all_some (map (fun kv => option_map (pair (fst kv)) (json_encode b (snd kv))) d) with
    | Some items =>
        match (if b then sorted_items items else Some items) with
        | Some items' => Some ("{" +:+ join ", " (map render_item items') +:+ "}")
        | None => None
        end
    | None => None
    end.
Proof.
  simpl.
  match goal with |- match ?f d with _ => _ end = _ =>
    assert (E : forall d, f d = all_some (map (fun kv => option_map (pair (fst kv))
                                                      (json_encode b (snd kv))) d))
  end.
  { clear d. induction d as [|[k x] t IH]; [done|]. simpl. rewrite IH.
    destruct (json_encode b x); done. }
  by rewrite E.
Qed.

Lemma all_some_Forall {A} (l : list (option A)) :
  Forall is_Some l -> is_Some (all_some l).
Proof.
  induction 1 as [|o t [a ->] _ [r IH]]; simpl; [by eexists|]. rewrite IH. by eexists.
Qed.

Lemma all_some_length {A} (l : list (option A)) r :
  all_some l = Some r -> length r = length l.
Proof.
  revert r. induction l as [|o t IH]; simpl; intros r H; [by inversion H|].
  destruct o; [|done]. destruct (all_some t) eqn:E; [|done].
  inversion H. simpl. by rewrite (IH _ eq_refl).
Qed.

Lemma all_some_Forall2 {A} (l : list (option A)) r :
  all_some l = Some r -> Forall2 (fun o a => o = Some a) l r.
Proof.
  revert r. induction l as [|o t IH]; simpl; intros r H.
  - inversion H. constructor.
  - destruct o; [|done]. destruct (all_some t) eqn:E; [|done].
    inversion H. constructor; auto.
Qed.

Lemma encoded_items_keys b (d : pydict) items :
  all_some (map (fun kv => option_map (pair (fst kv)) (json_encode b (snd kv))) d) = Some items ->
  map fst items = map fst d.
Proof.
  revert items. induction d as [|[k x] t IH]; simpl; intros items H.
  - by inversion H.
  - destruct (json_encode b x); [|done]. simpl in H.
    destruct (all_some _) eqn:E; [|done]. inversion H. simpl. by rewrite (IH _ eq_refl).
Qed.

(** Without [sort_keys], [json.dumps] succeeds on every value. *)
Lemma json_encode_unsorted_total v : is_Some (json_encode false v).
Proof.
  induction v as [| b | z | s | l IH | d IH] using value_induction;
    try (by eexists); try (destruct b; by eexists).
  - rewrite json_encode_VList.
    destruct (all_some_Forall (map (json_encode false) l)) as [r ->]; [|by eexists].
    apply Forall_map. exact IH.
  - rewrite json_encode_VDict.
    destruct (all_some_Forall (map (fun kv => option_map (pair (fst kv))
               (json_encode false (snd kv))) d)) as [r ->]; [|by eexists].
    apply Forall_map. eapply Forall_impl; [exact IH|].
    intros [k x] [s Hs]. simpl in *. rewrite Hs. by eexists.
Qed.

(** With or without [sort_keys], it succeeds on every value whose dicts
    have string keys only. *)
Lemma json_encode_str_keyed b v : str_keyed v = true -> is_Some (json_encode b v).
Proof.
  induction v as [| b' | z | s | l IH | d IH] using value_induction; intros Hk;
    try (by eexists); try (destruct b'; by eexists).
  - rewrite json_encode_VList.
    destruct (all_some_Forall (map (json_encode b) l)) as [r ->]; [|by eexists].
    apply Forall_map. simpl in Hk. rewrite forallb_forall in Hk.
    rewrite Forall_forall in IH |- *. intros x Hx. apply IH; [done|].
    apply Hk. by apply list_elem_of_In.
  - rewrite json_encode_VDict. simpl in Hk. rewrite forallb_forall in Hk.
    destruct (all_some_Forall (map (fun kv => option_map (pair (fst kv))
               (json_encode b (snd kv))) d)) as [r Hr].
    { apply Forall_map. rewrite Forall_forall in IH |- *. intros [k x] Hx.
      pose proof (Hk _ (proj1 (list_elem_of_In _ _) Hx)) as Hkx.
      apply andb_true_iff in Hkx as [_ Hkx].
      destruct (IH _ Hx Hkx) as [s Hs]. simpl in *. rewrite Hs. by eexists. }
    rewrite Hr. destruct b; [|by eexists].
    unfold sorted_items. rewrite (encoded_items_keys _ _ _ Hr).
    assert (Hc : keys_comparable (map fst d) = true); [|rewrite Hc; by eexists].
    unfold keys_comparable. apply orb_true_iff. left. apply orb_true_iff. right.
    apply forallb_forall. intros k [[k' x] [<- Hin]]%in_map_iff.
    apply Hk in Hin. by apply andb_true_iff in Hin as [? _].
Qed.

(** ** The monad of effects *)

Lemma bind_ok {A B} (m : M A) (k : A -> M B) w a w1 :
  m w = (Ok a, w1) -> bind m k w = k a w1.
Proof. unfold bind. by intros ->. Qed.

Lemma bind_raise {A B} (m : M A) (k : A -> M B) w e w1 :
  m w = (Raise e, w1) -> bind m k w = (Raise e, w1).
Proof. unfold bind. by intros ->. Qed.

Lemma bind_inv_ok {A B} (m : M A) (k : A -> M B) w b w' :
  bind m k w = (Ok b, w') -> exists a w1, m w = (Ok a, w1) /\ k a w1 = (Ok b, w').
Proof.
  unfold bind. destruct (m w) as [[a|e] w1]; [|discriminate]. intros H. by exists a, w1.
Qed.

Lemma lift_inv_ok {A} (o : outcome A) w a w' :
  lift o w = (Ok a, w') -> o = Ok a /\ w' = w.
Proof. unfold lift. intros H. inversion H. done. Qed.

Lemma json_dumps_Some b v s : json_encode b v = Some s -> json_dumps b v = Ok s.
Proof. unfold json_dumps. by intros ->. Qed.

Lemma json_dumps_inv b v s : json_dumps b v = Ok s -> json_encode b v = Some s.
Proof. unfold json_dumps. destruct (json_encode b v); [|discriminate]. by intros [= ->]. Qed.

(** ** [emit_receipt] *)

(** Once the data serializes, [emit_receipt] returns the assembled receipt,
    prints one line and reads the clock once; files are not touched. *)
Lemma emit_receipt_ok `{RT : Runtime} receipt_type data w payload :
  json_encode true (VDict data) = Some payload ->
  exists line,
    json_encode false (VDict (receipt_of receipt_type (utcnow_isoformat (clock w)) data payload))
      = Some line
    /\ Core.emit_receipt receipt_type data w
       = (Ok (receipt_of receipt_type (utcnow_isoformat (clock w)) data payload),
          emitted w line).
Proof.
  intros Hp.
  destruct (json_encode_unsorted_total
              (VDict (receipt_of receipt_type (utcnow_isoformat (clock w)) data payload)))
    as [line Hl].
  exists line. split; [exact Hl|].
  unfold Core.emit_receipt, bind, utcnow, lift, print, ret.
  rewrite (json_dumps_Some _ _ _ Hp).
  fold (receipt_of receipt_type (utcnow_isoformat (clock w)) data payload).
  rewrite (json_dumps_Some _ _ _ Hl). reflexivity.
Qed.

Lemma emit_receipt_inv `{RT : Runtime} receipt_type data w r w' :
  Core.emit_receipt receipt_type data w = (Ok r, w') ->
  exists payload line,
    json_encode true (VDict data) = Some payload
    /\ r = receipt_of receipt_type (utcnow_isoformat (clock w)) data payload
    /\ w' = emitted w line.
Proof.
  intros H. destruct (json_encode true (VDict data)) as [payload|] eqn:Hp.
  - destruct (emit_receipt_ok receipt_type data w payload Hp) as (line & _ & E).
    rewrite E in H. inversion H. by exists payload, line.
  - unfold Core.emit_receipt, bind, utcnow, lift in H. unfold json_dumps in H at 1.
    rewrite Hp in H. discriminate.
Qed.

(** Whatever its outcome, [emit_receipt] leaves every file as it was. *)
Lemma emit_receipt_fs `{RT : Runtime} receipt_type data w o w' :
  Core.emit_receipt receipt_type data w = (o, w') -> fs w' = fs w.
Proof.
  unfold Core.emit_receipt, bind, utcnow, lift, print, ret.
  destruct (json_dumps true (VDict data)); [|by intros [= _ <-]].
  destruct (json_dumps false _); by intros [= _ <-].
Qed.

(** The two digests of a fingerprint. *)
Lemma dual_hash_parts `{RT : Runtime} data :
  Core.dual_hash data
  = SHA256.hexdigest (bytes_of_data data)
    +:+ String ":" (if HAS_BLAKE3 then blake3_hexdigest (bytes_of_data data)
                    else SHA256.hexdigest (bytes_of_data data)).
Proof. by destruct data. Qed.

(** ** Merkle trees and inclusion proofs

    From here on a fingerprint is a black box: nothing below depends on how
    SHA-256 computes it. *)

Opaque Core.dual_hash.

Lemma build_merkle_tree_single `{RT : Runtime} item s w :
  json_encode true item = Some s ->
  exists w1,
    Merkle.build_merkle_tree [item] w
    = (Ok (mkTree (Some (Core.dual_hash (Str s))) (Some [[Core.dual_hash (Str s)]]) (Some 1)), w1)
    /\ fs w1 = fs w.
Proof.
  intros Hs. unfold Merkle.build_merkle_tree.
  unfold bind at 1. unfold lift. simpl Core.leaf_hashes.
  rewrite (json_dumps_Some _ _ _ Hs). cbn. eexists. split; reflexivity.
Qed.

(** C9.  [get_merkle_proof] never raises on an index outside
    [[0, leaf_count)]: for every tree it returns the empty proof there, and
    touches nothing.  For the tree of a single item the proof of leaf [0] is
    empty too, the root is the fingerprint of the item, and
    [verify_merkle_proof] accepts the empty proof against that root. *)
Theorem get_merkle_proof_total `{RT : Runtime} :
  (forall (t : tree) (index : Z) (w : World),
      index < 0 \/ default 0 (tree_leaves t) <= index ->
      Merkle.get_merkle_proof t index w = (Ok [], w))
  /\ (forall (item : value) (s : string) (w : World),
      json_encode true item = Some s ->
      exists t w1 w2 w3,
        Merkle.build_merkle_tree [item] w = (Ok t, w1)
        /\ tree_root t = Some (Core.dual_hash (Str s))
        /\ tree_leaves t = Some 1
        /\ Merkle.get_merkle_proof t 0 w1 = (Ok [], w2)
        /\ Merkle.verify_merkle_proof item [] (Core.dual_hash (Str s)) w2 = (Ok true, w3)).
Proof.
  split.
  - intros t index w Hout. unfold Merkle.get_merkle_proof.
    assert (Hc : (index <? 0) || (index >=? default 0 (tree_leaves t)) = true).
    { apply orb_true_iff. destruct Hout; [left; lia | right; lia]. }
    rewrite <- orb_assoc, Hc, orb_true_r. reflexivity.
  - intros item s w Hs.
    destruct (build_merkle_tree_single item s w Hs) as (w1 & Hb & _).
    eexists _, w1. rewrite Hb.
    assert (Hg : exists w2, Merkle.get_merkle_proof
              (mkTree (Some (Core.dual_hash (Str s))) (Some [[Core.dual_hash (Str s)]]) (Some 1))
              0 w1 = (Ok [], w2)).
    { unfold Merkle.get_merkle_proof. cbn. eexists. reflexivity. }
    destruct Hg as [w2 Hg]. exists w2.
    assert (Hv : exists w3, Merkle.verify_merkle_proof item [] (Core.dual_hash (Str s)) w2
                            = (Ok true, w3)).
    { unfold Merkle.verify_merkle_proof. unfold bind at 1, lift.
      rewrite (json_dumps_Some _ _ _ Hs). cbn [fold_left]. rewrite String.eqb_refl.
      cbn. eexists. reflexivity. }
    destruct Hv as [w3 Hv]. exists w3. auto.
Qed.

Lemma get_merkle_proof_total_witness :
  @Merkle.get_merkle_proof Reference.runtime
     (mkTree (Some "r") (Some [["a"; "b"]; ["r"]]) (Some 2)) 2 Reference.world0
  = (Ok [], Reference.world0)
  /\ exists t w1 w2 w3,
      @Merkle.build_merkle_tree Reference.runtime [VInt 7] Reference.world0 = (Ok t, w1)
      /\ tree_root t = Some (@Core.dual_hash Reference.runtime (Str "7"))
      /\ tree_leaves t = Some 1
      /\ @Merkle.get_merkle_proof Reference.runtime t 0 w1 = (Ok [], w2)
      /\ @Merkle.verify_merkle_proof Reference.runtime (VInt 7) []
           (@Core.dual_hash Reference.runtime (Str "7")) w2 = (Ok true, w3).
Proof.
  split.
  - apply (proj1 (@get_merkle_proof_total Reference.runtime)). right. simpl. lia.
  - apply (proj2 (@get_merkle_proof_total Reference.runtime) (VInt 7) "7" Reference.world0).
    reflexivity.
Defined.

(** Runs the [emit_receipt] at the head of the goal when its data has
    string keys only. *)
Ltac run_emit :=
  match goal with
  | |- context [Core.emit_receipt ?t ?d ?w] =>
      let p := fresh "p" in
      let Hp := fresh "Hp" in
      let line := fresh "line" in
      let E := fresh "E" in
      destruct (json_encode_str_keyed true (VDict d) eq_refl) as [p Hp];
      destruct (emit_receipt_ok t d w p Hp) as (line & _ & E);
      rewrite E; clear E Hp
  end.

(** With three leaves the first level is odd.  [build_merkle_tree] hashes
    the last leaf with itself, but keeps the unpadded level; the proof of
    the last leaf therefore skips that level, and [verify_merkle_proof]
    recomputes [H(h01 + h2)] where the root is [H(h01 + H(h2 + h2))]. *)
Lemma three_leaves_last_proof `{RT : Runtime} a b c sa sb sc w :
  json_encode true a = Some sa -> json_encode true b = Some sb ->
  json_encode true c = Some sc ->
  let h0 := Core.dual_hash (Str sa) in
  let h1 := Core.dual_hash (Str sb) in
  let h2 := Core.dual_hash (Str sc) in
  let h01 := Core.dual_hash (Str (h0 +:+ h1)) in
  let h22 := Core.dual_hash (Str (h2 +:+ h2)) in
  let root := Core.dual_hash (Str (h01 +:+ h22)) in
  exists t w1 w2 w3,
    Merkle.build_merkle_tree [a; b; c] w = (Ok t, w1)
    /\ tree_root t = Some root
    /\ tree_levels t = Some [[h0; h1; h2]; [h01; h22]; [root]]
    /\ Merkle.get_merkle_proof t 2 w1 = (Ok [mkElement h01 "left"], w2)
    /\ Merkle.verify_merkle_proof c [mkElement h01 "left"] root w2
       = (Ok (String.eqb (Core.dual_hash (Str (h01 +:+ h2))) root), w3).
Proof.
  intros Ha Hb Hc h0 h1 h2 h01 h22 root.
  assert (Hbuild : exists w1, Merkle.build_merkle_tree [a; b; c] w
            = (Ok (mkTree (Some root) (Some [[h0; h1; h2]; [h01; h22]; [root]]) (Some 3)), w1)).
  { unfold Merkle.build_merkle_tree. unfold bind at 1. unfold lift. simpl Core.leaf_hashes.
    rewrite (json_dumps_Some _ _ _ Ha), (json_dumps_Some _ _ _ Hb), (json_dumps_Some _ _ _ Hc).
    cbn. eexists. reflexivity. }
  destruct Hbuild as [w1 Hbuild]. eexists _, w1. rewrite Hbuild.
  assert (Hproof : exists w2, Merkle.get_merkle_proof
            (mkTree (Some root) (Some [[h0; h1; h2]; [h01; h22]; [root]]) (Some 3)) 2 w1
            = (Ok [mkElement h01 "left"], w2)).
  { unfold Merkle.get_merkle_proof. cbn. eexists. reflexivity. }
  destruct Hproof as [w2 Hproof]. exists w2.
  assert (Hv : exists w3, Merkle.verify_merkle_proof c [mkElement h01 "left"] root w2
            = (Ok (String.eqb (Core.dual_hash (Str (h01 +:+ h2))) root), w3)).
  { unfold Merkle.verify_merkle_proof, bind, lift.
    rewrite (json_dumps_Some _ _ _ Hc).
    change (fold_left Merkle.fold_element [mkElement h01 "left"] (Core.dual_hash (Str sc)))
      with (Core.dual_hash (Str (h01 +:+ h2))).
    run_emit. eexists. reflexivity. }
  destruct Hv as [w3 Hv]. exists w3. auto.
Qed.

(** C2 fails on the code.  For the three items of the repository's own
    [test_merkle_multiple], the tree is built, the proof of the last leaf
    (index 2) has the single element [(h01, left)], and verifying the last
    item with that proof against the root of the tree returns [False]. *)
Theorem merkle_proof_of_last_odd_leaf_rejected :
  let items := [ VDict [(KStr "a", VInt 1)]; VDict [(KStr "b", VInt 2)];
                 VDict [(KStr "c", VInt 3)] ] in
  exists t w1 proof w2 root w3,
    @Merkle.build_merkle_tree Reference.runtime items Reference.world0 = (Ok t, w1)
    /\ tree_root t = Some root
    /\ @Merkle.get_merkle_proof Reference.runtime t 2 w1 = (Ok proof, w2)
    /\ length proof = 1%nat
    /\ @Merkle.verify_merkle_proof Reference.runtime (VDict [(KStr "c", VInt 3)]) proof root w2
       = (Ok false, w3).
Proof.
  intros items.
  destruct (@three_leaves_last_proof Reference.runtime
              (VDict [(KStr "a", VInt 1)]) (VDict [(KStr "b", VInt 2)])
              (VDict [(KStr "c", VInt 3)]) _ _ _ Reference.world0 eq_refl eq_refl eq_refl)
    as (t & w1 & w2 & w3 & Hb & Hr & _ & Hp & Hv).
  eexists t, w1, _, w2, _, w3.
  split; [exact Hb|]. split; [exact Hr|]. split; [exact Hp|]. split; [reflexivity|].
  rewrite Hv. apply (f_equal (fun v : bool => (Ok v, w3))). vm_compute. reflexivity.
Qed.

(** ** [verify_integrity] and the stop rule *)





(** ** The ledger store *)

Lemma ensure_file_run `{RT : Runtime} path w :
  LedgerStore.__init__ path w = (Ok path, ensured w path).
Proof.
  unfold LedgerStore.__init__, LedgerStore._ensure_file, bind, path_exists, ret.
  unfold ensured, ledger_text. destruct (fs w !! path) as [text|] eqn:E; simpl.
  - rewrite insert_id by done. by destruct w.
  - unfold append_file. rewrite E. reflexivity.
Qed.

Lemma read_all_run `{RT : Runtime} path w text :
  fs w !! path = Some text ->
  LedgerStore.read_all path w = (Ok (parse_ledger text), w).
Proof.
  intros E. unfold LedgerStore.read_all, bind, path_exists, read_file, ret.
  rewrite E. simpl. rewrite E. reflexivity.
Qed.

Lemma read_all_missing `{RT : Runtime} path w :
  fs w !! path = None -> LedgerStore.read_all path w = (Ok [], w).
Proof.
  intros E. unfold LedgerStore.read_all, bind, path_exists, ret.
  rewrite E. reflexivity.
Qed.

Lemma ensured_lookup w path : fs (ensured w path) !! path = Some (ledger_text w path).
Proof. unfold ensured. simpl. apply lookup_insert_eq. Qed.

Lemma ensured_text w path : ledger_text (ensured w path) path = ledger_text w path.
Proof. unfold ledger_text at 1. by rewrite ensured_lookup. Qed.

Lemma ensured_other w path p : p <> path -> fs (ensured w path) !! p = fs w !! p.
Proof. intros. unfold ensured. simpl. by rewrite lookup_insert_ne. Qed.

(** ** Compaction *)

Lemma receipt_get_dict k dflt r v :
  receipt_get k dflt r = Ok v -> exists d, r = VDict d /\ v = dict_get k dflt d.
Proof. destruct r; simpl; try discriminate. intros [= <-]. by eexists. Qed.

(** The loop separating the receipts succeeds exactly on dicts, and splits
    them by [is_kept], each part in ledger order. *)
Lemma separate_spec `{RT : Runtime} pt all c k :
  Compact.separate pt all c k
  = if forallb is_dict all
    then Ok (c ++ List.filter (fun r => negb (is_kept pt r)) all,
             k ++ List.filter (is_kept pt) all)
    else Raise AttributeError.
Proof.
  revert c k. induction all as [|r rest IH]; intros c k; simpl.
  - by rewrite !app_nil_r.
  - destruct r as [| | | | |d]; simpl; try reflexivity.
    destruct (in_types _ pt) eqn:E; rewrite IH; simpl;
      destruct (forallb is_dict rest); try reflexivity; by rewrite <- !app_assoc.
Qed.

Lemma filter_not_kept_nil pt all :
  List.filter (fun r => negb (is_kept pt r)) all = [] ->
  forallb is_dict all = true /\ List.filter (is_kept pt) all = all.
Proof.
  induction all as [|r rest IH]; simpl; [done|].
  destruct (is_kept pt r) eqn:E; simpl; [|discriminate].
  intros H. destruct (IH H) as [-> ->]. split; [|done].
  destruct r; simpl in *; try discriminate. done.
Qed.

Lemma filter_partition_length {A} (f : A -> bool) (l : list A) :
  length l = (length (List.filter f l) + length (List.filter (fun x => negb (f x)) l))%nat.
Proof. induction l as [|x l IH]; simpl; [done|]. destruct (f x); simpl; lia. Qed.
Lemma append_nil_r s : s +:+ EmptyString = s.
Proof.
  induction s as [|c s IH]; [reflexivity|].
  change (String c (s +:+ EmptyString) = String c s). by rewrite IH.
Qed.

Lemma append_assoc s t u : (s +:+ t) +:+ u = s +:+ (t +:+ u).
Proof.
  induction s as [|c s IH]; [reflexivity|].
  change (String c ((s +:+ t) +:+ u) = String c (s +:+ (t +:+ u))). by rewrite IH.
Qed.

Lemma ts_of_dicts `{RT : Runtime} (o : option value) :
  (forall r, o = Some r -> is_dict r = true) ->
  Compact.ts_of o = Ok (match o with Some r => ts_field r | None => VNone end).
Proof.
  intros H. destruct o as [r|]; [|done]. specialize (H r eq_refl).
  destruct r; try discriminate. reflexivity.
Qed.

Lemma write_receipts_inv `{RT : Runtime} path rs w w' text :
  fs w !! path = Some text ->
  Compact.write_receipts path rs w = (Ok tt, w') ->
  exists lines,
    Forall2 encodes rs lines
    /\ w' = mkWorld (<[path := text +:+ unlines lines]> (fs w)) (stdout w) (clock w).
Proof.
  revert w text. induction rs as [|r rest IH]; intros w text Hw; simpl.
  - intros [= <-]. exists []. split; [constructor|]. cbn [unlines fold_right].
    rewrite append_nil_r, insert_id by done. by destruct w.
  - intros H. apply bind_inv_ok in H as (line & w1 & H1 & H).
    apply lift_inv_ok in H1 as [H1 ->]. apply json_dumps_inv in H1.
    apply bind_inv_ok in H as ([] & w2 & H2 & H).
    unfold append_file in H2. rewrite Hw in H2. simpl in H2. injection H2 as <-.
    eapply IH in H as (lines & Hl & ->); [|simpl; apply lookup_insert_eq].
    exists (line :: lines). split; [by constructor|]. cbn [unlines fold_right fs stdout clock].
    rewrite insert_insert_eq. f_equal. f_equal. by rewrite !append_assoc.
Qed.

Lemma write_receipts_fs `{RT : Runtime} path rs w o w' p :
  p <> path -> Compact.write_receipts path rs w = (o, w') -> fs w' !! p = fs w !! p.
Proof.
  intros Hp. revert w. induction rs as [|r rest IH]; intros w; simpl.
  - by intros [= _ <-].
  - unfold bind, lift. destruct (json_dumps true r); [|by intros [= _ <-]].
    unfold append_file at 1. intros H. apply IH in H. rewrite H. simpl.
    by rewrite lookup_insert_ne.
Qed.
Lemma head_is_dict (l : list value) r :
  forallb is_dict l = true -> head l = Some r -> is_dict r = true.
Proof. destruct l as [|x l]; simpl; [done|]. intros [? _]%andb_true_iff [= <-]. done. Qed.

Lemma last_is_dict (l : list value) r :
  forallb is_dict l = true -> last l = Some r -> is_dict r = true.
Proof.
  rewrite forallb_forall. intros H Hl. apply H, list_elem_of_In.
  apply last_Some in Hl as [l' ->]. set_solver.
Qed.

Lemma forallb_filter {A} (f g : A -> bool) l :
  forallb f l = true -> forallb f (List.filter g l) = true.
Proof.
  rewrite !forallb_forall. intros H x [Hx _]%filter_In. auto.
Qed.

Lemma list_nil_or_not {A} (l : list A) : l = [] \/ l <> [].
Proof. destruct l; [by left|by right]. Qed.

Lemma match_not_nil {A B} (l : list A) (a b : B) :
  l <> [] -> match l with [] => a | _ :: _ => b end = b.
Proof. by destruct l. Qed.

(** What a run of [compact_ledger] that rewrites the ledger has done. *)
Lemma compact_ledger_rewrite_inv `{RT : Runtime} path age pt w res w' :
  Compact.compact_ledger path age pt w = (Ok res, w') ->
  dict_lookup (KStr "compacted") res = Some (VBool true) ->
  let pt' := default Compact.default_preserve_types pt in
  let all := parse_ledger (ledger_text w path) in
  let to_keep := List.filter (is_kept pt') all in
  let to_compact := List.filter (fun r => negb (is_kept pt' r)) all in
  exists before_root by_type payload line lines after_root,
    let data := compaction_data to_compact by_type before_root
                  (first_ts to_compact) (last_ts to_compact) in
    let summary := receipt_of "compaction" (utcnow_isoformat (S (clock w))) data payload in
    forallb is_dict all = true
    /\ to_compact <> []
    /\ Core.merkle all = Ok before_root
    /\ Compact.count_by_type to_compact [] = Ok by_type
    /\ json_encode true (VDict data) = Some payload
    /\ Forall2 encodes (to_keep ++ [VDict summary]) lines
    /\ Core.merkle (to_keep ++ [VDict summary]) = Ok after_root
    /\ w' = mkWorld (<[path := unlines lines]> (fs w)) (stdout w ++ [line]) (S (S (clock w)))
    /\ res = [ (KStr "compacted", VBool true);
               (KStr "receipts_before", VInt (Z.of_nat (length all)));
               (KStr "receipts_after", VInt (Z.of_nat (length (to_keep ++ [VDict summary]))));
               (KStr "receipts_compacted", VInt (Z.of_nat (length to_compact)));
               (KStr "pre_merkle_root", VStr before_root);
               (KStr "post_merkle_root", VStr after_root) ].
Proof.
  intros H Hres pt' all to_keep to_compact.
  unfold Compact.compact_ledger in H.
  rewrite (bind_ok _ _ _ _ _ (ensure_file_run path w)) in H.
  rewrite (bind_ok _ _ _ _ _ (read_all_run path _ _ (ensured_lookup w path))) in H.
  fold pt' all in H.
  destruct (list_nil_or_not all) as [E|E].
  { rewrite E in H. inversion H; subst; discriminate. }
  rewrite (match_not_nil _ _ _ E) in H.
  apply bind_inv_ok in H as (now & w1 & Hnow & H). injection Hnow as <- <-.
  apply bind_inv_ok in H as ([c k] & w2 & Hsep & H).
  apply lift_inv_ok in Hsep as [Hsep ->]. rewrite separate_spec in Hsep.
  destruct (forallb is_dict all) eqn:Hd; [|discriminate]. injection Hsep as <- <-.
  cbn [app] in H. fold to_keep to_compact in H.
  destruct (list_nil_or_not to_compact) as [Ec|Ec].
  { rewrite Ec in H. inversion H; subst; discriminate. }
  rewrite (match_not_nil _ _ _ Ec) in H.
  apply bind_inv_ok in H as (before_root & w3 & Hroot & H).
  apply lift_inv_ok in Hroot as [Hroot ->].
  apply bind_inv_ok in H as (by_type & w3 & Hby & H).
  apply lift_inv_ok in Hby as [Hby ->].
  assert (Hdc : forallb is_dict to_compact = true) by (by apply forallb_filter).
  rewrite (ts_of_dicts (head to_compact)) in H by (intros; by eapply head_is_dict).
  rewrite (ts_of_dicts (last to_compact)) in H by (intros; by eapply last_is_dict).
  unfold bind at 1 2 3 4 in H. unfold lift at 1 2 3 4 in H.
  fold (first_ts to_compact) (last_ts to_compact) in H.
  fold (compaction_data to_compact by_type before_root (first_ts to_compact) (last_ts to_compact)) in H.
  apply bind_inv_ok in H as (summary & w4 & Hemit & H).
  apply emit_receipt_inv in Hemit as (payload & line & Hpay & -> & ->).
  apply bind_inv_ok in H as ([] & w5 & Hw & H). injection Hw as <-.
  apply bind_inv_ok in H as ([] & w6 & Hwr & H).
  eapply write_receipts_inv in Hwr as (lines & Hlines & Hw6); [|apply lookup_insert_eq].
  subst w6.
  apply bind_inv_ok in H as (after_root & w7 & Hafter & H).
  apply lift_inv_ok in Hafter as [Hafter ->].
  injection H as <- <-.
  exists before_root, by_type, payload, line, lines, after_root.
  cbv zeta. repeat (split; [done|]). split; [|reflexivity].
  cbn [fs stdout clock emitted ticked ensured]. f_equal.
  rewrite insert_insert_eq, insert_insert_eq. reflexivity.
Qed.

(** ** The text [json.dumps] writes *)

Lemma is_graph_print c : is_graph c = true -> is_print c = true.
Proof. unfold is_graph, is_print. lia. Qed.

Lemma is_hex_graph c : is_hex c = true -> is_graph c = true.
Proof.
  unfold is_hex. rewrite existsb_exists. intros (x & Hx & Heq).
  apply Ascii.eqb_eq in Heq as ->. simpl in Hx.
  repeat (destruct Hx as [<-|Hx]; [reflexivity|]). destruct Hx.
Qed.

Lemma last_char_snoc s c : last_char (s +:+ String c EmptyString) = Some c.
Proof.
  induction s as [|a s IH]; [reflexivity|].
  change (last_char (String a (s +:+ String c EmptyString)) = Some c).
  cbn [last_char]. destruct (s +:+ String c EmptyString) eqn:E; [|exact IH].
  destruct s; discriminate.
Qed.

Lemma tight_wrap a body b :
  is_graph a = true -> all_chars is_print body = true -> is_graph b = true ->
  tight (String a (body +:+ String b EmptyString)) = true.
Proof.
  intros Ha Hbody Hb. unfold tight.
  change (String a (body +:+ String b EmptyString))
    with (String a body +:+ String b EmptyString) at 3.
  rewrite last_char_snoc. cbn [first_char]. rewrite Ha, Hb, !andb_true_r.
  rewrite all_chars_cons, all_chars_app, Hbody. cbn [all_chars].
  by rewrite (is_graph_print _ Ha), (is_graph_print _ Hb).
Qed.

Lemma last_char_graph s :
  all_chars is_graph s = true -> s <> EmptyString ->
  match last_char s with Some c => is_graph c | None => false end = true.
Proof.
  induction s as [|a s IH]; [done|]. intros [Ha Hs]%andb_true_iff _.
  destruct s as [|b s]; [exact Ha|]. by apply IH.
Qed.

Lemma tight_of_graph s :
  all_chars is_graph s = true -> s <> EmptyString -> tight s = true.
Proof.
  intros Hs Hne. unfold tight. rewrite (last_char_graph s Hs Hne), andb_true_r.
  rewrite (all_chars_impl _ _ _ is_graph_print Hs). destruct s as [|c s]; [done|].
  apply andb_true_iff in Hs as [Hc _]. cbn [first_char]. by rewrite Hc.
Qed.

Lemma uint_graph d : all_chars is_graph (NilEmpty.string_of_uint d) = true.
Proof. induction d; simpl; auto. Qed.

Lemma repr_int_graph z : all_chars is_graph (repr_int z) = true /\ repr_int z <> EmptyString.
Proof.
  unfold repr_int. destruct (Z.to_int z) as [d|d]; simpl.
  - destruct d; simpl; try (split; [|discriminate]); auto using uint_graph.
  - split; [|discriminate]. destruct d; simpl; auto using uint_graph.
Qed.

Lemma escape_char_print c : all_chars is_print (escape_char c) = true.
Proof.
  unfold escape_char.
  repeat match goal with |- context [if ?b then _ else _] => destruct b eqn:? end;
    try reflexivity.
  - cbn [all_chars]. unfold is_print. lia.
  - rewrite !all_chars_cons.
    rewrite (all_chars_impl _ _ _ (fun c H => is_graph_print c (is_hex_graph c H))
               (word16_is_hex _)). reflexivity.
Qed.

Lemma escape_print s : all_chars is_print (escape s) = true.
Proof.
  induction s as [|c s IH]; [reflexivity|].
  cbn [escape]. by rewrite all_chars_app, escape_char_print, IH.
Qed.

Lemma json_string_tight s : tight (json_string s) = true.
Proof. unfold json_string. apply tight_wrap; [reflexivity|apply escape_print|reflexivity]. Qed.

Lemma tight_print s : tight s = true -> all_chars is_print s = true.
Proof. unfold tight. intros [[? _]%andb_true_iff _]%andb_true_iff. done. Qed.

Lemma join_print sep parts :
  all_chars is_print sep = true ->
  Forall (fun p => all_chars is_print p = true) parts ->
  all_chars is_print (join sep parts) = true.
Proof.
  intros Hsep. induction 1 as [|p rest Hp Hrest IH]; [reflexivity|].
  cbn [join]. destruct rest as [|q rest]; [exact Hp|].
  by rewrite !all_chars_app, Hp, Hsep, IH.
Qed.

Lemma wrap_print a body b :
  is_print a = true -> is_print b = true -> all_chars is_print body = true ->
  all_chars is_print (String a EmptyString +:+ body +:+ String b EmptyString) = true.
Proof.
  intros Ha Hb Hbody. rewrite !all_chars_app, Hbody. cbn [all_chars].
  by rewrite Ha, Hb.
Qed.

Lemma insert_sorted_Forall {A} (P : key * A -> Prop) x l :
  P x -> Forall P l -> Forall P (insert_sorted x l).
Proof.
  intros Hx. induction 1 as [|y t Hy Ht IH]; simpl; [by constructor|].
  destruct (key_leb x.1 y.1); repeat constructor; auto.
Qed.

Lemma sort_items_Forall {A} (P : key * A -> Prop) l :
  Forall P l -> Forall P (sort_items l).
Proof.
  induction 1 as [|y t Hy Ht IH]; simpl; [constructor|].
  by apply insert_sorted_Forall.
Qed.

Lemma json_encode_print b v s :
  json_encode b v = Some s -> all_chars is_print s = true.
Proof.
  revert s. induction v as [| b' | z | x | l IH | d IH] using value_induction; intros s.
  - by intros [= <-].
  - destruct b'; by intros [= <-].
  - intros [= <-]. apply (all_chars_impl _ _ _ is_graph_print), repr_int_graph.
  - intros [= <-]. apply tight_print, json_string_tight.
  - rewrite json_encode_VList. destruct (all_some _) as [parts|] eqn:E; [|done].
    intros [= <-]. apply (wrap_print "[" _ "]"); [reflexivity..|].
    apply join_print; [reflexivity|].
    apply all_some_Forall2 in E. apply Forall2_fmap_l in E.
    clear -E IH. induction E as [|x p l parts Hx _ IHE]; constructor.
    + inversion IH; subst. eauto.
    + inversion IH; subst. eauto.
  - rewrite json_encode_VDict. destruct (all_some _) as [items|] eqn:E; [|done].
    assert (Hitems : Forall (fun kv : key * string => all_chars is_print kv.2 = true) items).
    { apply all_some_Forall2 in E. apply Forall2_fmap_l in E.
      clear -E IH. induction E as [|[k x] p l parts Hx _ IHE]; constructor.
      - inversion IH; subst. simpl in *. destruct (json_encode b x) eqn:Ex; [|done].
        injection Hx as <-. simpl. eauto.
      - inversion IH; subst. eauto. }
    assert (Hrender : forall its, Forall (fun kv : key * string => all_chars is_print kv.2 = true) its ->
              all_chars is_print ("{" +:+ join ", " (map render_item its) +:+ "}") = true).
    { intros its Hits. apply (wrap_print "{" _ "}"); [reflexivity..|].
      apply join_print; [reflexivity|].
      apply Forall_map. eapply Forall_impl; [exact Hits|].
      intros [k p] Hp. unfold render_item. cbn [fst snd] in *.
      by rewrite !all_chars_app, (tight_print _ (json_string_tight _)), Hp. }
    destruct b.
    + unfold sorted_items. destruct (keys_comparable _); [|done].
      intros [= <-]. by apply Hrender, sort_items_Forall.
    + intros [= <-]. by apply Hrender.
Qed.

(** Whatever [json.dumps] returns is one tight line: printable ASCII, no
    line break, no blank at either end. *)
Lemma json_encode_tight b v s : json_encode b v = Some s -> tight s = true.
Proof.
  intros H. pose proof (json_encode_print b v s H) as Hp.
  destruct v as [| b' | z | x | l | d].
  - by injection H as <-.
  - destruct b'; by injection H as <-.
  - injection H as <-. apply tight_of_graph; apply repr_int_graph.
  - injection H as <-. apply json_string_tight.
  - rewrite json_encode_VList in H. destruct (all_some _); [|done]. injection H as <-.
    rewrite !all_chars_app in Hp. apply andb_true_iff in Hp as [_ [Hp _]%andb_true_iff].
    by apply (tight_wrap "[" _ "]").
  - rewrite json_encode_VDict in H. destruct (all_some _); [|done].
    destruct (if b then _ else _); [|done]. injection H as <-.
    rewrite !all_chars_app in Hp. apply andb_true_iff in Hp as [_ [Hp _]%andb_true_iff].
    by apply (tight_wrap "{" _ "}").
Qed.

(** ** Reading the ledger line by line *)

Lemma read_lines_omap `{RT : Runtime} lines acc :
  fold_left LedgerStore.read_line lines acc = acc ++ omap parse_line lines.
Proof.
  revert acc. induction lines as [|l lines IH]; intros acc; simpl.
  - by rewrite app_nil_r.
  - rewrite IH. unfold LedgerStore.read_line, parse_line.
    destruct (String.eqb (strip l) EmptyString); simpl; [done|].
    destruct (json_loads (strip l)); simpl; [|done]. by rewrite <- app_assoc.
Qed.

Lemma parse_ledger_omap `{RT : Runtime} text :
  parse_ledger text = omap parse_line (readlines text).
Proof. unfold parse_ledger. by rewrite read_lines_omap. Qed.

Lemma universal_newlines_id s :
  all_chars (fun c => negb (Ascii.eqb c CR)) s = true -> universal_newlines s = s.
Proof.
  induction s as [|c s IH]; [done|]. intros [Hc Hs]%andb_true_iff.
  apply negb_true_iff in Hc. cbn [universal_newlines]. rewrite Hc. by rewrite IH.
Qed.

Lemma lines_keepends_line s rest :
  all_chars (fun c => negb (Ascii.eqb c LF)) s = true ->
  lines_keepends (s +:+ NL +:+ rest) = (s +:+ NL) :: lines_keepends rest.
Proof.
  induction s as [|c s IH]; intros H.
  - change (lines_keepends (String LF rest) = [NL] ++ lines_keepends rest).
    cbn [lines_keepends]. by rewrite Ascii.eqb_refl.
  - apply andb_true_iff in H as [Hc Hs]. apply negb_true_iff in Hc.
    change (lines_keepends (String c (s +:+ NL +:+ rest)) = String c (s +:+ NL) :: lines_keepends rest).
    cbn [lines_keepends]. rewrite Hc, (IH Hs). reflexivity.
Qed.

Lemma no_breaks_LF s : no_breaks s = true -> all_chars (fun c => negb (Ascii.eqb c LF)) s = true.
Proof. apply all_chars_impl. intros c [? _]%andb_true_iff. done. Qed.

Lemma no_breaks_CR s : no_breaks s = true -> all_chars (fun c => negb (Ascii.eqb c CR)) s = true.
Proof. apply all_chars_impl. intros c [_ ?]%andb_true_iff. done. Qed.

Lemma unlines_no_CR lines :
  Forall (fun l => no_breaks l = true) lines ->
  all_chars (fun c => negb (Ascii.eqb c CR)) (unlines lines) = true.
Proof.
  induction 1 as [|l lines Hl _ IH]; [done|].
  cbn [unlines fold_right]. fold (unlines lines).
  rewrite !all_chars_app, (no_breaks_CR _ Hl), IH. reflexivity.
Qed.

(** A text written line by line reads back as those lines, each with its
    line feed. *)
Lemma readlines_unlines lines :
  Forall (fun l => no_breaks l = true) lines ->
  readlines (unlines lines) = map (fun l => l +:+ NL) lines.
Proof.
  intros H. unfold readlines. rewrite universal_newlines_id by (by apply unlines_no_CR).
  induction H as [|l lines Hl _ IH]; [done|].
  cbn [unlines fold_right map]. fold (unlines lines).
  rewrite lines_keepends_line by (by apply no_breaks_LF). by rewrite IH.
Qed.

Lemma is_graph_not_space c : is_graph c = true -> isspace c = false.
Proof. unfold is_graph, isspace. lia. Qed.

Lemma is_print_no_break c :
  is_print c = true -> negb (Ascii.eqb c LF) && negb (Ascii.eqb c CR) = true.
Proof.
  unfold is_print. intros H.
  destruct (Ascii.eqb_spec c LF) as [->|]; [vm_compute in H; discriminate|].
  destruct (Ascii.eqb_spec c CR) as [->|]; [vm_compute in H; discriminate|]. done.
Qed.

Lemma tight_no_breaks s : tight s = true -> no_breaks s = true.
Proof. intros H. eapply all_chars_impl; [apply is_print_no_break|by apply tight_print]. Qed.

Lemma rstrip_keeps s :
  match last_char s with Some c => is_graph c | None => false end = true -> rstrip s = s.
Proof.
  induction s as [|c s IH]; [done|]. intros H. cbn [rstrip].
  destruct s as [|d s].
  - cbn in H. cbn [rstrip]. by rewrite (is_graph_not_space _ H).
  - rewrite IH by exact H. reflexivity.
Qed.

Lemma rstrip_snoc_space s c : isspace c = true -> rstrip (s +:+ String c EmptyString) = rstrip s.
Proof.
  intros Hc. induction s as [|a s IH].
  - change (rstrip (String c EmptyString) = EmptyString). cbn [rstrip]. by rewrite Hc.
  - change (rstrip (String a (s +:+ String c EmptyString)) = rstrip (String a s)).
    cbn [rstrip]. by rewrite IH.
Qed.

(** [strip] undoes the line feed of a tight line and nothing else. *)
Lemma strip_tight_line s : tight s = true -> strip (s +:+ NL) = s /\ s <> EmptyString.
Proof.
  unfold tight. intros [[_ Hf]%andb_true_iff Hl]%andb_true_iff.
  destruct s as [|c s]; [done|]. split; [|done]. cbn [first_char] in Hf.
  unfold strip. change (String c s +:+ NL) with (String c (s +:+ NL)).
  cbn [lstrip]. rewrite (is_graph_not_space _ Hf).
  change (String c (s +:+ NL)) with (String c s +:+ String LF EmptyString).
  rewrite rstrip_snoc_space by reflexivity. by apply rstrip_keeps.
Qed.

Lemma parse_line_tight `{RT : Runtime} s :
  tight s = true -> parse_line (s +:+ NL) = json_loads s.
Proof.
  intros H. destruct (strip_tight_line s H) as [E Hne]. unfold parse_line.
  rewrite E. destruct (String.eqb_spec s EmptyString); [done|reflexivity].
Qed.

Lemma omap_cons {A B} (f : A -> option B) x l :
  omap f (x :: l) = match f x with Some y => y :: omap f l | None => omap f l end.
Proof. reflexivity. Qed.

(** Reading a file of tight lines deserializes each of them in turn. *)
Lemma parse_ledger_tight `{RT : Runtime} lines :
  Forall (fun l => tight l = true) lines ->
  parse_ledger (unlines lines) = omap json_loads lines.
Proof.
  intros H. rewrite parse_ledger_omap, readlines_unlines.
  - induction H as [|l lines Hl _ IH]; [done|]. cbn [map].
    by rewrite !omap_cons, parse_line_tight, IH.
  - eapply Forall_impl; [exact H|]. apply tight_no_breaks.
Qed.

Lemma encodes_tight rs lines :
  Forall2 encodes rs lines -> Forall (fun l => tight l = true) lines.
Proof.
  induction 1 as [|r l rs lines Hr _ IH]; constructor; [|done].
  by eapply json_encode_tight.
Qed.

Lemma omap_loads_inverse `{RT : Runtime} (rs : list value) lines :
  Forall2 (fun l r => json_loads l = Some r) lines rs -> omap json_loads lines = rs.
Proof. induction 1 as [|l r lines rs Hl _ IH]; [done|]. by rewrite omap_cons, Hl, IH. Qed.

(** ** Which files an operation can touch *)

Lemma kof_ret {A} path (a : A) : keeps_other_files path (ret a).
Proof. by intros w o w' p [= _ <-] _. Qed.

Lemma kof_raise {A} path e : keeps_other_files path (@raise A e).
Proof. by intros w o w' p [= _ <-] _. Qed.

Lemma kof_lift {A} path (x : outcome A) : keeps_other_files path (lift x).
Proof. by intros w o w' p [= _ <-] _. Qed.

Lemma kof_bind {A B} path (m : M A) (k : A -> M B) :
  keeps_other_files path m -> (forall a, keeps_other_files path (k a)) ->
  keeps_other_files path (bind m k).
Proof.
  intros Hm Hk w o w' p H Hp. unfold bind in H.
  destruct (m w) as [[a|e] w1] eqn:E.
  - rewrite (Hk a _ _ _ p H Hp). eapply Hm; eauto.
  - injection H as _ <-. eapply Hm; eauto.
Qed.

Lemma kof_utcnow `{RT : Runtime} path : keeps_other_files path utcnow.
Proof. by intros w o w' p [= _ <-] _. Qed.

Lemma kof_print path line : keeps_other_files path (print line).
Proof. by intros w o w' p [= _ <-] _. Qed.

Lemma kof_path_exists path q : keeps_other_files path (path_exists q).
Proof. by intros w o w' p [= _ <-] _. Qed.

Lemma kof_read_file path q : keeps_other_files path (read_file q).
Proof. intros w o w' p H _. unfold read_file in H. destruct (fs w !! q); by injection H as _ <-. Qed.

Lemma kof_append_file path text : keeps_other_files path (append_file path text).
Proof. intros w o w' p [= _ <-] Hp. simpl. by rewrite lookup_insert_ne. Qed.

Lemma kof_write_file path text : keeps_other_files path (write_file path text).
Proof. intros w o w' p [= _ <-] Hp. simpl. by rewrite lookup_insert_ne. Qed.

Lemma kof_emit_receipt `{RT : Runtime} path t d : keeps_other_files path (Core.emit_receipt t d).
Proof. intros w o w' p H _. by rewrite (emit_receipt_fs _ _ _ _ _ H). Qed.

Lemma kof_init `{RT : Runtime} path : keeps_other_files path (LedgerStore.__init__ path).
Proof.
  unfold LedgerStore.__init__, LedgerStore._ensure_file.
  apply kof_bind; [|intros; apply kof_ret].
  apply kof_bind; [apply kof_path_exists|]. intros [|]; simpl;
    [apply kof_ret|apply kof_append_file].
Qed.

Lemma kof_read_all `{RT : Runtime} path q : keeps_other_files path (LedgerStore.read_all q).
Proof.
  unfold LedgerStore.read_all. apply kof_bind; [apply kof_path_exists|].
  intros [|]; simpl; [|apply kof_ret].
  apply kof_bind; [apply kof_read_file|]. intros; apply kof_ret.
Qed.

Lemma kof_append `{RT : Runtime} path r : keeps_other_files path (LedgerStore.append path r).
Proof.
  unfold LedgerStore.append. apply kof_bind; [apply kof_lift|]. intros.
  apply kof_bind; [apply kof_append_file|]. intros; apply kof_ret.
Qed.

Lemma kof_write_receipts `{RT : Runtime} path rs :
  keeps_other_files path (Compact.write_receipts path rs).
Proof.
  induction rs as [|r rs IH]; simpl; [apply kof_ret|].
  apply kof_bind; [apply kof_lift|]. intros.
  apply kof_bind; [apply kof_append_file|]. intros; apply IH.
Qed.

Ltac kof :=
  repeat first
    [ apply kof_ret | apply kof_raise | apply kof_lift | apply kof_utcnow
    | apply kof_emit_receipt | apply kof_write_file | apply kof_append_file
    | apply kof_write_receipts | apply kof_init | apply kof_read_all
    | apply kof_bind; [|intros ?]
    | match goal with
      | |- keeps_other_files _ (match ?x with _ => _ end) => destruct x
      end ].

(** [compact_ledger] touches no file but the ledger, whatever its outcome. *)
Lemma kof_compact_ledger `{RT : Runtime} path age pt :
  keeps_other_files path (Compact.compact_ledger path age pt).
Proof. unfold Compact.compact_ledger. kof. Qed.

(** ** Dicts as the counters of [by_type] *)

Lemma key_eqb_norm a b : key_eqb a b = true <-> key_norm a = key_norm b.
Proof.
  destruct a as [|[|]|x|x], b as [|[|]|y|y];
    cbn [key_eqb key_norm Z_of_bool Bool.eqb];
    rewrite ?Z.eqb_eq, ?String.eqb_eq; split; intros H;
    try congruence; try discriminate; try (injection H as H; congruence);
    try reflexivity.
Qed.

Lemma key_eqb_refl a : key_eqb a a = true.
Proof. by apply key_eqb_norm. Qed.

Lemma key_eqb_sym a b : key_eqb a b = key_eqb b a.
Proof.
  destruct (key_eqb a b) eqn:E1, (key_eqb b a) eqn:E2; try done.
  - apply key_eqb_norm in E1. symmetry in E1. apply key_eqb_norm in E1. congruence.
  - apply key_eqb_norm in E2. symmetry in E2. apply key_eqb_norm in E2. congruence.
Qed.

Lemma key_eqb_congr a b c : key_eqb a b = true -> key_eqb a c = key_eqb b c.
Proof.
  intros Hab%key_eqb_norm.
  destruct (key_eqb a c) eqn:E1, (key_eqb b c) eqn:E2; try done.
  - apply key_eqb_norm in E1. rewrite Hab in E1. apply key_eqb_norm in E1. congruence.
  - apply key_eqb_norm in E2. rewrite <- Hab in E2. apply key_eqb_norm in E2. congruence.
Qed.

Lemma dict_lookup_congr a b d : key_eqb a b = true -> dict_lookup a d = dict_lookup b d.
Proof.
  intros H. induction d as [|[k v] d IH]; [done|]. cbn [dict_lookup].
  rewrite (key_eqb_sym k a), (key_eqb_sym k b), (key_eqb_congr a b k H). by rewrite IH.
Qed.

(** Reading a dict after [d[k0] = v]. *)
Lemma dict_lookup_set k k0 v d :
  dict_lookup k (dict_set k0 v d) = if key_eqb k0 k then Some v else dict_lookup k d.
Proof.
  induction d as [|[k' v'] d IH]; cbn [dict_set dict_lookup].
  - reflexivity.
  - destruct (key_eqb k' k0) eqn:E; cbn [dict_lookup].
    + rewrite (key_eqb_congr k' k0 k E). by destruct (key_eqb k0 k).
    + rewrite IH. destruct (key_eqb k' k) eqn:E1; [|done].
      destruct (key_eqb k0 k) eqn:E2; [|done].
      rewrite (key_eqb_congr k' k k0 E1), key_eqb_sym in E. congruence.
Qed.

Lemma counted_congr d f a b : counted d f -> key_eqb a b = true -> f a = f b.
Proof.
  intros H Hab. pose proof (H a) as Ha. pose proof (H b) as Hb.
  rewrite (dict_lookup_congr a b d Hab) in Ha. rewrite Ha in Hb.
  destruct (Nat.eqb_spec (f a) 0), (Nat.eqb_spec (f b) 0); try congruence.
  injection Hb as Hb. lia.
Qed.

Lemma counted_ext d f g : (forall k, f k = g k) -> counted d f -> counted d g.
Proof. intros E H k. rewrite <- E. apply H. Qed.

Lemma count_type_counted by_type f k0 :
  counted by_type f ->
  counted (Compact.count_type by_type k0)
          (fun k => (f k + if key_eqb k0 k then 1 else 0)%nat).
Proof.
  intros H k. unfold Compact.count_type. rewrite dict_lookup_set.
  destruct (key_eqb k0 k) eqn:E.
  - rewrite <- (counted_congr _ _ _ _ H E). rewrite (H k0).
    destruct (Nat.eqb_spec (f k0) 0) as [->|Hn]; simpl.
    + reflexivity.
    + destruct (Nat.eqb_spec (f k0 + 1) 0); [lia|]. do 2 f_equal. lia.
  - rewrite Nat.add_0_r. apply H.
Qed.

Lemma counted_nil : counted [] (fun _ => 0%nat).
Proof. by intros k. Qed.

(** The loop of [compact_ledger] counts each folded receipt once, under
    the key its type is. *)
Lemma count_by_type_counted `{RT : Runtime} receipts acc f by_type :
  counted acc f ->
  Compact.count_by_type receipts acc = Ok by_type ->
  counted by_type (fun k => (f k + count_of_type k receipts)%nat).
Proof.
  revert acc f. induction receipts as [|r rest IH]; intros acc f Hacc; simpl.
  - intros [= <-]. eapply counted_ext; [|exact Hacc]. intros k.
    unfold count_of_type. simpl. lia.
  - unfold count_of_type. cbn [List.filter]. unfold type_key at 1.
    destruct (receipt_get "receipt_type" (VStr "unknown") r) as [rt|e]; [|done].
    destruct (to_key rt) as [k0|]; [|done]. intros H.
    eapply counted_ext; [|exact (IH _ _ (count_type_counted _ _ k0 Hacc) H)].
    intros k. unfold count_of_type. destruct (key_eqb k0 k); simpl; lia.
Qed.

(** ** [compact_ledger] *)

Lemma compact_ledger_empty `{RT : Runtime} path age pt w :
  parse_ledger (ledger_text w path) = [] ->
  Compact.compact_ledger path age pt w
  = (Ok [ (KStr "compacted", VBool false); (KStr "reason", VStr "empty_ledger") ],
     ensured w path).
Proof.
  intros E. unfold Compact.compact_ledger.
  rewrite (bind_ok _ _ _ _ _ (ensure_file_run path w)).
  rewrite (bind_ok _ _ _ _ _ (read_all_run path _ _ (ensured_lookup w path))).
  by rewrite E.
Qed.

Lemma compact_ledger_nothing `{RT : Runtime} path age pt w :
  let all := parse_ledger (ledger_text w path) in
  all <> [] ->
  List.filter (fun r => negb (is_kept (default Compact.default_preserve_types pt) r)) all = [] ->
  Compact.compact_ledger path age pt w
  = (Ok [ (KStr "compacted", VBool false); (KStr "reason", VStr "nothing_to_compact") ],
     ticked (ensured w path)).
Proof.
  intros all Hne Hc. unfold Compact.compact_ledger.
  rewrite (bind_ok _ _ _ _ _ (ensure_file_run path w)).
  rewrite (bind_ok _ _ _ _ _ (read_all_run path _ _ (ensured_lookup w path))).
  fold all. rewrite (match_not_nil _ _ _ Hne).
  unfold bind at 1. unfold utcnow at 1. unfold bind at 1. unfold lift.
  rewrite separate_spec. destruct (filter_not_kept_nil _ _ Hc) as [-> _].
  cbn [app]. rewrite Hc. reflexivity.
Qed.

(** C10.  [max_age_days] has no effect: two runs of [compact_ledger] that
    differ in it alone are the same run.  The receipts are separated by
    [is_kept], which looks at nothing but the [receipt_type] of a receipt
    and [preserve_types]: receipts with the same type fall on the same
    side, whatever their timestamps. *)
Theorem max_age_days_is_ignored `{RT : Runtime} (path : string) (age1 age2 : Z)
  (pt : option (list string)) (w : World) :
  Compact.compact_ledger path age1 pt w = Compact.compact_ledger path age2 pt w
  /\ (forall types all,
        Compact.separate types all [] []
        = if forallb is_dict all
          then Ok (List.filter (fun r => negb (is_kept types r)) all,
                   List.filter (is_kept types) all)
          else Raise AttributeError)
  /\ (forall types d1 d2,
        dict_lookup (KStr "receipt_type") d1 = dict_lookup (KStr "receipt_type") d2 ->
        is_kept types (VDict d1) = is_kept types (VDict d2)).
Proof.
  split; [reflexivity|]. split.
  - intros types all. by rewrite separate_spec.
  - intros types d1 d2 H. unfold is_kept, dict_get. by rewrite H.
Qed.

Lemma read_back `{RT : Runtime} path w rs lines :
  fs w !! path = Some (unlines lines) ->
  Forall2 encodes rs lines ->
  Forall2 (fun l r => json_loads l = Some r) lines rs ->
  LedgerStore.read_all path w = (Ok rs, w).
Proof.
  intros Hf Henc Hload. rewrite (read_all_run _ _ _ Hf).
  rewrite parse_ledger_tight by (by eapply encodes_tight).
  by rewrite (omap_loads_inverse _ _ Hload).
Qed.

(** C7.  A run of [compact_ledger] that rewrites the ledger leaves in the
    file exactly the serialization of the kept receipts, each as it was read
    and in ledger order, followed by one summary receipt of type
    [compaction]; where [json.loads] inverts [json.dumps] on these lines,
    [read_all] returns exactly that sequence.  When the ledger is empty or
    nothing is to be folded, the run returns [compacted: False] with the
    reason and the ledger file holds the text it held (an absent file has
    been created empty by the [LedgerStore] constructor).  No other file is
    touched in any case. *)
Theorem compact_ledger_keeps_receipts `{RT : Runtime} (path : string) (age : Z)
  (pt : option (list string)) (w : World) :
  let pt' := default Compact.default_preserve_types pt in
  let all := parse_ledger (ledger_text w path) in
  let to_keep := List.filter (is_kept pt') all in
  let to_compact := List.filter (fun r => negb (is_kept pt' r)) all in
  (forall res w',
      Compact.compact_ledger path age pt w = (Ok res, w') ->
      dict_lookup (KStr "compacted") res = Some (VBool true) ->
      exists summary lines,
        dict_lookup (KStr "receipt_type") summary = Some (VStr "compaction")
        /\ Forall2 encodes (to_keep ++ [VDict summary]) lines
        /\ fs w' !! path = Some (unlines lines)
        /\ (Forall2 (fun l r => json_loads l = Some r) lines (to_keep ++ [VDict summary]) ->
            LedgerStore.read_all path w' = (Ok (to_keep ++ [VDict summary]), w')))
  /\ (all = [] \/ to_compact = [] ->
      exists w',
        Compact.compact_ledger path age pt w
        = (Ok [ (KStr "compacted", VBool false);
                (KStr "reason", VStr (match all with
                                      | [] => "empty_ledger"
                                      | _ => "nothing_to_compact"
                                      end)) ], w')
        /\ fs w' !! path = Some (ledger_text w path)
        /\ LedgerStore.read_all path w' = (Ok all, w'))
  /\ (forall o w' p,
      Compact.compact_ledger path age pt w = (o, w') -> p <> path -> fs w' !! p = fs w !! p).
Proof.
  intros pt' all to_keep to_compact. split; [|split].
  - intros res w' Hrun Hres.
    destruct (compact_ledger_rewrite_inv _ _ _ _ _ _ Hrun Hres)
      as (before_root & by_type & payload & line & lines & after_root & H).
    cbv zeta in H. destruct H as (_ & _ & _ & _ & _ & Hlines & _ & -> & _).
    match type of Hlines with Forall2 _ (_ ++ [VDict ?s]) _ => exists s, lines end.
    split; [reflexivity|]. split; [exact Hlines|].
    split; [apply lookup_insert_eq|].
    intros Hload. eapply read_back; [apply lookup_insert_eq|exact Hlines|exact Hload].
  - intros Hnoop. destruct (list_nil_or_not all) as [E|E].
    + exists (ensured w path). rewrite E.
      split; [by apply compact_ledger_empty|]. split; [apply ensured_lookup|].
      rewrite (read_all_run _ _ _ (ensured_lookup w path)). by fold all; rewrite E.
    + destruct Hnoop as [?|Hc]; [done|]. exists (ticked (ensured w path)).
      rewrite (match_not_nil _ _ _ E).
      split; [by apply compact_ledger_nothing|]. split; [apply ensured_lookup|].
      apply (read_all_run path (ticked (ensured w path))), ensured_lookup.
  - intros o w' p Hrun Hp. by eapply kof_compact_ledger.
Qed.




Lemma compaction_receipts_of_spec `{RT : Runtime} rs :
  forallb is_dict rs = true ->
  Compact.compaction_receipts_of rs = Ok (List.filter is_compaction rs).
Proof.
  induction rs as [|r rs IH]; [done|]. intros [Hr Hrs]%andb_true_iff.
  cbn [Compact.compaction_receipts_of List.filter]. rewrite (IH Hrs).
  destruct r; try discriminate. reflexivity.
Qed.





Lemma compact_ledger_keeps_receipts_witness :
  let pt' := default Compact.default_preserve_types (Some ["anomaly"]) in
  let all := @parse_ledger Reference.runtime (ledger_text sample_world sample_path) in
  let to_keep := List.filter (is_kept pt') all in
  exists summary lines,
    dict_lookup (KStr "receipt_type") summary = Some (VStr "compaction")
    /\ Forall2 encodes (to_keep ++ [VDict summary]) lines
    /\ fs sample_after !! sample_path = Some (unlines lines)
    /\ (Forall2 (fun l r => @json_loads Reference.runtime l = Some r) lines
                (to_keep ++ [VDict summary]) ->
        @LedgerStore.read_all Reference.runtime sample_path sample_after
        = (Ok (to_keep ++ [VDict summary]), sample_after)).
Proof.
  apply (proj1 (@compact_ledger_keeps_receipts Reference.runtime sample_path 90
                  (Some ["anomaly"]) sample_world) sample_result sample_after).
  - vm_compute. reflexivity.
  - vm_compute. reflexivity.
Defined.

(** ** [LedgerStore]: reading and appending *)





Lemma append_run `{RT : Runtime} path r s w :
  json_encode true r = Some s ->
  LedgerStore.append path r w
  = (Ok (Core.dual_hash (Str s)),
     mkWorld (<[path := ledger_text w path +:+ s +:+ NL]> (fs w)) (stdout w) (clock w)).
Proof.
  intros Hs. unfold LedgerStore.append, bind, lift. rewrite (json_dumps_Some _ _ _ Hs).
  reflexivity.
Qed.

Lemma unlines_app l1 l2 : unlines (l1 ++ l2) = unlines l1 +:+ unlines l2.
Proof.
  induction l1 as [|l l1 IH]; [done|]. cbn [app unlines fold_right].
  fold (unlines (l1 ++ l2)) (unlines l1). by rewrite IH, !append_assoc.
Qed.






(** ** The Merkle loop *)

Lemma combine_pairs_length `{RT : Runtime} l :
  length (Core.combine_pairs l) = Nat.div2 (length l).
Proof.
  remember (length l) as n eqn:E. revert l E.
  induction n as [n IH] using lt_wf_ind. intros l ->.
  destruct l as [|a [|b rest]]; [reflexivity..|].
  cbn [Core.combine_pairs length Nat.div2]. f_equal.
  apply (IH (length rest)); [simpl; lia | reflexivity].
Qed.

Lemma pad_odd_length `{RT : Runtime} l :
  length (Core.pad_odd l) = (length l + if Nat.odd (length l) then 1 else 0)%nat.
Proof.
  unfold Core.pad_odd. destruct (Nat.odd (length l)); [|lia].
  rewrite length_app. reflexivity.
Qed.

Lemma next_level_length `{RT : Runtime} l :
  length (Core.next_level l) = Nat.div2 (S (length l)).
Proof.
  unfold Core.next_level. rewrite combine_pairs_length, pad_odd_length.
  rewrite !Nat.div2_div.
  destruct (Nat.odd (length l)) eqn:E.
  - f_equal. lia.
  - rewrite <- Nat.negb_even in E. apply negb_false_iff in E.
    apply Nat.even_spec in E as [k Hk]. rewrite Hk.
    rewrite Nat.add_0_r.
    pose proof (Nat.div_mod_eq (2 * k) 2). pose proof (Nat.mod_upper_bound (2 * k) 2).
    pose proof (Nat.div_mod_eq (S (2 * k)) 2). pose proof (Nat.mod_upper_bound (S (2 * k)) 2).
    lia.
Qed.

Lemma next_level_shorter `{RT : Runtime} l :
  (1 < length l)%nat ->
  (1 <= length (Core.next_level l) < length l)%nat.
Proof.
  intros H. rewrite next_level_length.
  rewrite Nat.div2_div.
  pose proof (Nat.div_mod_eq (S (length l)) 2).
  pose proof (Nat.mod_upper_bound (S (length l)) 2). lia.
Qed.

(** The loop [while len(hashes) > 1] ends, within [len(hashes)] turns, on
    a single hash. *)
Lemma reduce_levels_done `{RT : Runtime} fuel hashes :
  (length hashes <= fuel)%nat -> hashes <> [] ->
  length (Core.reduce_levels fuel hashes) = 1%nat.
Proof.
  revert hashes. induction fuel as [|fuel IH]; intros hashes Hf Hne.
  - destruct hashes; [done|]. simpl in Hf. lia.
  - cbn [Core.reduce_levels]. destruct (Nat.ltb_spec 1 (length hashes)) as [H|H].
    + pose proof (next_level_shorter hashes H). apply IH; [lia|].
      intros E. rewrite E in *. simpl in *. lia.
    + destruct hashes as [|a [|b rest]]; [done|reflexivity|]. simpl in H. lia.
Qed.

Lemma build_levels_spec `{RT : Runtime} fuel hashes levels :
  Merkle.build_levels fuel hashes levels
  = (Core.reduce_levels fuel hashes, levels ++ later_levels fuel hashes).
Proof.
  revert hashes levels. induction fuel as [|fuel IH]; intros hashes levels.
  - simpl. by rewrite app_nil_r.
  - cbn [Merkle.build_levels Core.reduce_levels later_levels].
    destruct (1 <? length hashes)%nat.
    + fold (Core.next_level hashes). rewrite IH, <- app_assoc. reflexivity.
    + by rewrite app_nil_r.
Qed.

Lemma proof_walk_acc `{RT : Runtime} levels index acc :
  Merkle.proof_walk levels index acc = acc ++ Merkle.proof_walk levels index [].
Proof.
  revert index acc. induction levels as [|level rest IH]; intros index acc.
  - simpl. by rewrite app_nil_r.
  - cbn [Merkle.proof_walk].
    destruct (index mod 2 =? 0); cbn iota beta;
      match goal with |- context [if ?c then _ else _] => destruct c end;
      rewrite ?app_nil_l; rewrite IH; try done;
      rewrite (IH _ [_]); by rewrite app_assoc.
Qed.

Lemma nth_pad_odd `{RT : Runtime} l (j : nat) :
  (j < length l)%nat -> nth j (Core.pad_odd l) EmptyString = nth j l EmptyString.
Proof.
  intros H. unfold Core.pad_odd. destruct (Nat.odd (length l)); [|done].
  by rewrite app_nth1.
Qed.

Lemma nth_combine_pairs `{RT : Runtime} l (j : nat) :
  (2 * j + 1 < length l)%nat ->
  nth j (Core.combine_pairs l) EmptyString
  = Core.dual_hash (Str (nth (2 * j) l EmptyString +:+ nth (2 * j + 1) l EmptyString)).
Proof.
  revert l. induction j as [|j IH]; intros l H.
  - destruct l as [|a [|b rest]]; simpl in H; try lia. reflexivity.
  - destruct l as [|a [|b rest]]; simpl in H; try lia.
    cbn [Core.combine_pairs]. replace (2 * S j)%nat with (S (S (2 * j))) by lia.
    cbn [nth Nat.add]. rewrite IH by lia. reflexivity.
Qed.

(** A node that has its sibling in [hashes] is hashed with it, in the
    order of their positions, into its parent in the next level. *)
Lemma fold_element_parent `{RT : Runtime} hashes (index : Z) :
  0 <= index < Z.of_nat (length hashes) ->
  sibling index < Z.of_nat (length hashes) ->
  Merkle.fold_element (nth (Z.to_nat index) hashes EmptyString)
       (mkElement (nth (Z.to_nat (sibling index)) hashes EmptyString)
          (if index mod 2 =? 0 then "right" else "left"))
  = nth (Z.to_nat (index / 2)) (Core.next_level hashes) EmptyString.
Proof.
  intros Hi Hs. unfold sibling in *. unfold Core.next_level.
  pose proof (Z.div_mod index 2 ltac:(lia)) as Hd.
  pose proof (Z.mod_pos_bound index 2 ltac:(lia)) as Hm.
  set (j := Z.to_nat (index / 2)).
  destruct (Z.eqb_spec (index mod 2) 0) as [E|E].
  - rewrite nth_combine_pairs by (rewrite pad_odd_length; lia).
    rewrite !nth_pad_odd by lia.
    unfold Merkle.fold_element. cbn [hash position String.eqb Ascii.eqb Bool.eqb].
    replace (Z.to_nat index) with (2 * j)%nat by lia.
    replace (Z.to_nat (index + 1)) with (2 * j + 1)%nat by lia. reflexivity.
  - rewrite nth_combine_pairs by (rewrite pad_odd_length; lia).
    rewrite !nth_pad_odd by lia.
    unfold Merkle.fold_element. cbn [hash position String.eqb Ascii.eqb Bool.eqb].
    replace (Z.to_nat index) with (2 * j + 1)%nat by lia.
    replace (Z.to_nat (index - 1)) with (2 * j)%nat by lia. reflexivity.
Qed.

Lemma removelast_cons {A} (x : A) l :
  removelast (x :: l) = match l with [] => [] | _ => x :: removelast l end.
Proof. reflexivity. Qed.

(** Folding the proof of a leaf whose path has all its siblings gives the
    hash the loop of [build_merkle_tree] ends on. *)
Lemma walk_verifies `{RT : Runtime} fuel hashes (index : Z) :
  (length hashes <= fuel)%nat ->
  0 <= index < Z.of_nat (length hashes) ->
  path_has_siblings fuel hashes index = true ->
  fold_left Merkle.fold_element
    (Merkle.proof_walk (removelast (hashes :: later_levels fuel hashes)) index [])
    (nth (Z.to_nat index) hashes EmptyString)
  = nth 0 (Core.reduce_levels fuel hashes) EmptyString.
Proof.
  revert hashes index. induction fuel as [|fuel IH]; intros hashes index Hf Hi Hp.
  - lia.
  - cbn [later_levels Core.reduce_levels path_has_siblings] in *.
    destruct (Nat.ltb_spec 1 (length hashes)) as [H1|H1].
    + apply andb_true_iff in Hp as [Hs Hp]. apply Z.ltb_lt in Hs.
      pose proof (next_level_shorter hashes H1) as Hn.
      assert (Hi2 : 0 <= index / 2 < Z.of_nat (length (Core.next_level hashes))).
      { rewrite next_level_length, Nat.div2_div.
        pose proof (Nat.div_mod_eq (S (length hashes)) 2).
        pose proof (Nat.mod_upper_bound (S (length hashes)) 2 ltac:(lia)).
        split; [apply Z.div_pos; lia|]. apply Z.div_lt_upper_bound; lia. }
      specialize (IH (Core.next_level hashes) (index / 2) ltac:(lia) Hi2 Hp).
      rewrite removelast_cons. cbn [Merkle.proof_walk].
      fold (sibling index).
      replace (if index mod 2 =? 0 then (index + 1, "right") else (index - 1, "left"))
        with (sibling index, if index mod 2 =? 0 then "right" else "left")
        by (unfold sibling; by destruct (index mod 2 =? 0)).
      cbn iota beta. rewrite (proj2 (Z.ltb_lt _ _) Hs). rewrite app_nil_l.
      rewrite proof_walk_acc. rewrite fold_left_app. cbn [fold_left].
      rewrite fold_element_parent by done. exact IH.
    + rewrite removelast_cons. cbn [Merkle.proof_walk fold_left].
      replace (Z.to_nat index) with 0%nat by lia. reflexivity.
Qed.

Lemma leaf_hashes_inv `{RT : Runtime} items hashes :
  Core.leaf_hashes items = Ok hashes ->
  length hashes = length items
  /\ forall (i : nat), (i < length items)%nat ->
       exists s, json_encode true (nth i items VNone) = Some s
                 /\ nth i hashes EmptyString = Core.dual_hash (Str s).
Proof.
  revert hashes. induction items as [|x rest IH]; intros hashes H.
  - injection H as <-. split; [done|]. simpl. lia.
  - cbn [Core.leaf_hashes] in H.
    destruct (json_dumps true x) as [s|] eqn:Ex; [|done].
    destruct (Core.leaf_hashes rest) as [hs|] eqn:Er; [|done].
    injection H as <-. destruct (IH hs eq_refl) as [Hlen Hnth].
    split; [simpl; lia|]. intros [|i] Hi.
    + exists s. split; [by apply json_dumps_inv|done].
    + simpl in Hi. apply (Hnth i). lia.
Qed.

Lemma leaf_hashes_total `{RT : Runtime} items :
  Forall (fun i => is_Some (json_encode true i)) items ->
  exists hashes, Core.leaf_hashes items = Ok hashes.
Proof.
  induction 1 as [|x rest [s Hs] _ [hs IH]]; [by exists []|].
  exists (Core.dual_hash (Str s) :: hs). cbn [Core.leaf_hashes].
  by rewrite (json_dumps_Some _ _ _ Hs), IH.
Qed.

Lemma leaf_hashes_raises `{RT : Runtime} items e :
  Core.leaf_hashes items = Raise e ->
  e = TypeError /\ Exists (fun i => json_encode true i = None) items.
Proof.
  induction items as [|x rest IH]; [done|]. cbn [Core.leaf_hashes].
  unfold json_dumps at 1. destruct (json_encode true x) as [s|] eqn:Ex.
  - destruct (Core.leaf_hashes rest) as [hs|e'] eqn:Er; [done|].
    intros [= <-]. destruct (IH eq_refl) as [-> Hx]. split; [done|]. by apply Exists_cons_tl.
  - intros [= <-]. split; [done|]. by apply Exists_cons_hd.
Qed.

Lemma build_merkle_tree_run `{RT : Runtime} items hashes w :
  items <> [] -> Core.leaf_hashes items = Ok hashes ->
  exists line,
    Merkle.build_merkle_tree items w
    = (Ok (mkTree (Some (nth 0 (Core.reduce_levels (length hashes) hashes) EmptyString))
                  (Some (hashes :: later_levels (length hashes) hashes))
                  (Some (Z.of_nat (length items)))),
       emitted w line).
Proof.
  intros Hne Hl. destruct items as [|i rest]; [done|].
  unfold Merkle.build_merkle_tree. cbv beta iota.
  unfold bind at 1. unfold lift. rewrite Hl. rewrite build_levels_spec.
  cbv beta iota. unfold bind. run_emit. eexists. reflexivity.
Qed.

Lemma compute_merkle_root_run `{RT : Runtime} items hashes w :
  items <> [] -> Core.leaf_hashes items = Ok hashes ->
  exists line,
    Merkle.compute_merkle_root items w
    = (Ok (nth 0 (Core.reduce_levels (length hashes) hashes) EmptyString), emitted w line).
Proof.
  intros Hne Hl. destruct items as [|i rest]; [done|].
  unfold Merkle.compute_merkle_root. cbv beta iota.
  unfold bind at 1. unfold lift. rewrite Hl.
  cbv beta iota. unfold bind. run_emit. eexists. reflexivity.
Qed.

Lemma get_merkle_proof_run `{RT : Runtime} root levels (n index : Z) w :
  levels <> [] -> 0 <= index < n ->
  exists line,
    Merkle.get_merkle_proof (mkTree (Some root) (Some levels) (Some n)) index w
    = (Ok (Merkle.proof_walk (removelast levels) index []), emitted w line).
Proof.
  intros Hne Hi. unfold Merkle.get_merkle_proof.
  cbn [tree_levels tree_leaves tree_root default from_option]. unfold id.
  destruct levels as [|l ls]; [done|].
  replace (index <? 0) with false by lia. replace (index >=? n) with false by lia.
  cbn [orb]. unfold bind. run_emit. eexists. reflexivity.
Qed.

Lemma verify_merkle_proof_run `{RT : Runtime} item s proof expected w :
  json_encode true item = Some s ->
  exists line,
    Merkle.verify_merkle_proof item proof expected w
    = (Ok (String.eqb (fold_left Merkle.fold_element proof (Core.dual_hash (Str s))) expected),
       emitted w line).
Proof.
  intros Hs. unfold Merkle.verify_merkle_proof. unfold bind at 1. unfold lift.
  rewrite (json_dumps_Some _ _ _ Hs). unfold bind. run_emit. eexists. reflexivity.
Qed.

(** Build, prove, verify: the common run behind the inclusion theorems. *)
Lemma merkle_proof_run `{RT : Runtime} items hashes (index : Z) w :
  Core.leaf_hashes items = Ok hashes ->
  0 <= index < Z.of_nat (length items) ->
  path_has_siblings (length hashes) hashes index = true ->
  exists t w1 proof w2 root w3,
    Merkle.build_merkle_tree items w = (Ok t, w1)
    /\ tree_root t = Some root
    /\ Merkle.get_merkle_proof t index w1 = (Ok proof, w2)
    /\ Merkle.verify_merkle_proof (nth (Z.to_nat index) items VNone) proof root w2
       = (Ok true, w3).
Proof.
  intros Hl Hi Hp.
  assert (Hne : items <> []) by (intros ->; simpl in Hi; lia).
  destruct (leaf_hashes_inv _ _ Hl) as [Hlen Hnth].
  destruct (Hnth (Z.to_nat index) ltac:(lia)) as (s & Hs & Hh).
  destruct (build_merkle_tree_run items hashes w Hne Hl) as [l1 Hb].
  destruct (get_merkle_proof_run
              (nth 0 (Core.reduce_levels (length hashes) hashes) EmptyString)
              (hashes :: later_levels (length hashes) hashes)
              (Z.of_nat (length items)) index (emitted w l1) ltac:(done) Hi) as [l2 Hg].
  destruct (verify_merkle_proof_run (nth (Z.to_nat index) items VNone) s
              (Merkle.proof_walk
                 (removelast (hashes :: later_levels (length hashes) hashes)) index [])
              (nth 0 (Core.reduce_levels (length hashes) hashes) EmptyString)
              (emitted (emitted w l1) l2) Hs) as [l3 Hv].
  eexists _, _, _, _, _, _. split; [exact Hb|]. split; [reflexivity|].
  split; [exact Hg|]. rewrite Hv. rewrite <- Hh.
  rewrite walk_verifies by (done || lia). by rewrite String.eqb_refl.
Qed.

Lemma pow2_path_has_siblings `{RT : Runtime} fuel : forall (k : nat) hashes (index : Z),
  length hashes = (2 ^ k)%nat -> 0 <= index < Z.of_nat (length hashes) ->
  path_has_siblings fuel hashes index = true.
Proof.
  induction fuel as [|fuel IH]; intros k hashes index Hk Hi; [done|].
  cbn [path_has_siblings]. destruct (Nat.ltb_spec 1 (length hashes)) as [H1|H1]; [|done].
  destruct k as [|k]; [simpl in Hk; lia|].
  assert (Hlen : length hashes = (2 * 2 ^ k)%nat) by (rewrite Hk; simpl; lia).
  pose proof (Z.div_mod index 2 ltac:(lia)) as Hd.
  pose proof (Z.mod_pos_bound index 2 ltac:(lia)) as Hm.
  apply andb_true_iff. split.
  - apply Z.ltb_lt. unfold sibling. destruct (Z.eqb_spec (index mod 2) 0); lia.
  - apply (IH k).
    + rewrite next_level_length, Hlen, Nat.div2_succ_double. reflexivity.
    + rewrite next_level_length, Hlen, Nat.div2_succ_double.
      split; [apply Z.div_pos; lia|]. apply Z.div_lt_upper_bound; lia.
Qed.


Lemma last_later_levels `{RT : Runtime} fuel hashes :
  List.last (hashes :: later_levels fuel hashes) [] = Core.reduce_levels fuel hashes.
Proof.
  revert hashes. induction fuel as [|fuel IH]; intros hashes; [done|].
  cbn [later_levels Core.reduce_levels]. destruct (1 <? length hashes)%nat; [|done].
  rewrite <- IH. reflexivity.
Qed.

Lemma singleton_nth (l : list string) :
  length l = 1%nat -> l = [nth 0 l EmptyString].
Proof. destruct l as [|a [|b r]]; by intros [=]. Qed.

(** X1.  Whenever the path from a leaf to the root never passes through
    the unpaired last node of a level of odd length, the proof that
    [get_merkle_proof] returns for that leaf on the tree of
    [build_merkle_tree] is accepted by [verify_merkle_proof] against the
    root of the tree: the three functions run without raising and the
    verdict is [True]. *)
Theorem merkle_proof_verifies `{RT : Runtime} (items : list value) (hashes : list string)
  (index : Z) (w : World) :
  Core.leaf_hashes items = Ok hashes ->
  0 <= index < Z.of_nat (length items) ->
  path_has_siblings (length hashes) hashes index = true ->
  exists t w1 proof w2 root w3,
    Merkle.build_merkle_tree items w = (Ok t, w1)
    /\ tree_root t = Some root
    /\ Merkle.get_merkle_proof t index w1 = (Ok proof, w2)
    /\ Merkle.verify_merkle_proof (nth (Z.to_nat index) items VNone) proof root w2
       = (Ok true, w3).
Proof. apply merkle_proof_run. Qed.

Lemma merkle_proof_verifies_witness :
  exists t w1 proof w2 root w3,
    @Merkle.build_merkle_tree Reference.runtime [VInt 1; VInt 2; VInt 3] Reference.world0
    = (Ok t, w1)
    /\ tree_root t = Some root
    /\ @Merkle.get_merkle_proof Reference.runtime t 1 w1 = (Ok proof, w2)
    /\ @Merkle.verify_merkle_proof Reference.runtime
         (nth (Z.to_nat 1) [VInt 1; VInt 2; VInt 3] VNone) proof root w2
       = (Ok true, w3).
Proof.
  apply (@merkle_proof_verifies Reference.runtime [VInt 1; VInt 2; VInt 3]
           (map (fun s => @Core.dual_hash Reference.runtime (Str s)) ["1"; "2"; "3"])
           1 Reference.world0).
  - vm_compute. reflexivity.
  - simpl. lia.
  - vm_compute. reflexivity.
Defined.

(** X2.  When the number of items is a power of two and every item
    serializes, every leaf has a proof that verifies: for each index in
    range, build, prove and verify run without raising and the verdict is
    [True]. *)
Theorem merkle_proof_verifies_power_of_two `{RT : Runtime} (items : list value) (k : nat)
  (index : Z) (w : World) :
  Forall (fun i => is_Some (json_encode true i)) items ->
  length items = (2 ^ k)%nat ->
  0 <= index < Z.of_nat (length items) ->
  exists t w1 proof w2 root w3,
    Merkle.build_merkle_tree items w = (Ok t, w1)
    /\ tree_root t = Some root
    /\ Merkle.get_merkle_proof t index w1 = (Ok proof, w2)
    /\ Merkle.verify_merkle_proof (nth (Z.to_nat index) items VNone) proof root w2
       = (Ok true, w3).
Proof.
  intros Hser Hk Hi. destruct (leaf_hashes_total items Hser) as [hashes Hl].
  destruct (leaf_hashes_inv _ _ Hl) as [Hlen _].
  apply (merkle_proof_run items hashes index w Hl Hi).
  apply (pow2_path_has_siblings _ k); [congruence | lia].
Qed.

Lemma merkle_proof_verifies_power_of_two_witness :
  exists t w1 proof w2 root w3,
    @Merkle.build_merkle_tree Reference.runtime
       [VStr "a"; VStr "b"; VStr "c"; VStr "d"] Reference.world0 = (Ok t, w1)
    /\ tree_root t = Some root
    /\ @Merkle.get_merkle_proof Reference.runtime t 3 w1 = (Ok proof, w2)
    /\ @Merkle.verify_merkle_proof Reference.runtime
         (nth (Z.to_nat 3) [VStr "a"; VStr "b"; VStr "c"; VStr "d"] VNone) proof root w2
       = (Ok true, w3).
Proof.
  apply (@merkle_proof_verifies_power_of_two Reference.runtime
           [VStr "a"; VStr "b"; VStr "c"; VStr "d"] 2 3 Reference.world0).
  - repeat constructor; vm_compute; eexists; reflexivity.
  - reflexivity.
  - simpl. lia.
Defined.

(** X3.  [merkle], [compute_merkle_root] and [build_merkle_tree] agree on
    every list of items.  When [merkle] returns a root, the other two
    return the same root and leave every file as it was; the tree counts
    the items, and for a non-empty list its last level is exactly the root:
    the loop ran until a single hash remained.  When [merkle] raises, it is
    a [TypeError], and the other two raise it too, before any effect. *)
Theorem merkle_roots_agree `{RT : Runtime} (items : list value) (w : World) :
  match Core.merkle items with
  | Ok root =>
      exists t w1 w2,
        Merkle.build_merkle_tree items w = (Ok t, w1)
        /\ Merkle.compute_merkle_root items w = (Ok root, w2)
        /\ tree_root t = Some root
        /\ tree_leaves t = Some (Z.of_nat (length items))
        /\ (exists levels, tree_levels t = Some levels
              /\ (items = [] /\ levels = [] \/ items <> [] /\ List.last levels [] = [root]))
        /\ fs w1 = fs w /\ fs w2 = fs w
  | Raise e =>
      e = TypeError
      /\ Merkle.build_merkle_tree items w = (Raise TypeError, w)
      /\ Merkle.compute_merkle_root items w = (Raise TypeError, w)
  end.
Proof.
  destruct items as [|i rest].
  - cbn [Core.merkle]. eexists _, w, w. repeat split; try reflexivity.
    eexists. split; [reflexivity|]. by left.
  - assert (Hne : i :: rest <> []) by done. revert Hne.
    generalize (i :: rest) as items. intros items Hne.
    assert (Hm : Core.merkle items
                 = match Core.leaf_hashes items with
                   | Ok hashes =>
                       Ok (nth 0 (Core.reduce_levels (length hashes) hashes) EmptyString)
                   | Raise e => Raise e
                   end) by (by destruct items).
    rewrite Hm. destruct (Core.leaf_hashes items) as [hashes|e] eqn:Hl.
    + destruct (build_merkle_tree_run items hashes w Hne Hl) as [l1 Hb].
      destruct (compute_merkle_root_run items hashes w Hne Hl) as [l2 Hc].
      eexists _, _, _. split; [exact Hb|]. split; [exact Hc|].
      repeat split. eexists. split; [reflexivity|]. right. split; [done|].
      rewrite last_later_levels. apply singleton_nth, reduce_levels_done; [lia|].
      intros ->. destruct items; [done|]. cbn [Core.leaf_hashes] in Hl.
      destruct (json_dumps true v); [|done]. by destruct (Core.leaf_hashes items).
    + destruct (leaf_hashes_raises _ _ Hl) as [-> _]. split; [done|].
      destruct items as [|x xs]; [done|].
      unfold Merkle.build_merkle_tree, Merkle.compute_merkle_root. cbv beta iota.
      unfold bind, lift. rewrite Hl. done.
Qed.

Lemma some_unserializable (items : list value) :
  Exists (fun i => json_encode true i = None) items
  <-> ~ Forall (fun i => is_Some (json_encode true i)) items.
Proof.
  induction items as [|x xs IH].
  - split; [by intros H%Exists_nil | intros H; destruct H; constructor].
  - rewrite Exists_cons. split.
    + intros [Hx|Hx] HF; inversion HF as [|? ? [s Hs] HF']; subst; [congruence|].
      by apply IH.
    + intros HF. destruct (json_encode true x) as [s|] eqn:Ex; [right | by left].
      apply IH. intros HF'. apply HF. constructor; [by exists s | done].
Qed.

(** X4.  [merkle] returns a root exactly when every item can be
    serialized by [json.dumps(item, sort_keys=True)]; otherwise it raises
    [TypeError].  The empty list has the fixed root [dual_hash(b"empty")]
    and a single item has the fingerprint of its serialization as root. *)
Theorem merkle_defined_iff `{RT : Runtime} (items : list value) :
  ((exists root, Core.merkle items = Ok root)
   <-> Forall (fun i => is_Some (json_encode true i)) items)
  /\ (Core.merkle items = Raise TypeError
      <-> Exists (fun i => json_encode true i = None) items)
  /\ Core.merkle [] = Ok (Core.dual_hash (Bytes (list_byte_of_string "empty")))
  /\ (forall item s, json_encode true item = Some s ->
        Core.merkle [item] = Ok (Core.dual_hash (Str s))).
Proof.
  assert (Hm : Core.merkle items
               = match Core.leaf_hashes items with
                 | Ok hashes =>
                     match items with
                     | [] => Ok Core.empty_root
                     | _ => Ok (nth 0 (Core.reduce_levels (length hashes) hashes) EmptyString)
                     end
                 | Raise e => Raise e
                 end).
  { destruct items; [done|]. cbn [Core.merkle]. by destruct (Core.leaf_hashes _). }
  pose proof (some_unserializable items) as Hex.
  split; [|split; [|split]].
  - split.
    + intros [root H]. rewrite Hm in H.
      destruct (Core.leaf_hashes items) as [hashes|e] eqn:Hl; [|done].
      apply Forall_forall. intros x Hx.
      apply list_elem_of_In in Hx. destruct (In_nth _ _ VNone Hx) as (n & Hn & <-).
      destruct (proj2 (leaf_hashes_inv _ _ Hl) n Hn) as (s & Hs & _). by exists s.
    + intros H. destruct (leaf_hashes_total items H) as [hashes Hl]. rewrite Hm, Hl.
      destruct items; by eexists.
  - rewrite Hex. split.
    + intros H HF. destruct (leaf_hashes_total items HF) as [hashes Hl].
      rewrite Hm, Hl in H. by destruct items.
    + intros HF. rewrite Hm. destruct (Core.leaf_hashes items) as [hashes|e] eqn:Hl.
      * exfalso. apply HF. apply Forall_forall. intros x Hx.
        apply list_elem_of_In in Hx. destruct (In_nth _ _ VNone Hx) as (n & Hn & <-).
        destruct (proj2 (leaf_hashes_inv _ _ Hl) n Hn) as (s & Hs & _). by exists s.
      * by destruct (leaf_hashes_raises _ _ Hl) as [-> _].
  - reflexivity.
  - intros item s Hs. cbn [Core.merkle Core.leaf_hashes].
    rewrite (json_dumps_Some _ _ _ Hs). reflexivity.
Qed.

(** ** Reading the ledger: [get_latest] and the queries *)

Lemma read_all_ok `{RT : Runtime} path w :
  LedgerStore.read_all path w
  = (Ok (match fs w !! path with Some text => parse_ledger text | None => [] end), w).
Proof.
  destruct (fs w !! path) as [text|] eqn:E;
    [by apply read_all_run | by apply read_all_missing].
Qed.

(** X5.  [get_latest(n)] is the slice [receipts[-n:]] of what [read_all]
    returns, and changes nothing.  For a positive [n] these are the last
    [n] receipts (all of them when the ledger holds fewer); for [n = 0] the
    slice is [receipts[0:]], the whole ledger and not the empty list; for a
    negative [n] it is the ledger without its first [|n|] receipts. *)
Theorem get_latest_slice `{RT : Runtime} (path : string) (n : Z) (w : World) :
  exists receipts latest,
    LedgerStore.read_all path w = (Ok receipts, w)
    /\ LedgerStore.get_latest path n w = (Ok latest, w)
    /\ (0 < n -> latest = lastn (Z.to_nat n) receipts
                 /\ length latest = Nat.min (Z.to_nat n) (length receipts))
    /\ (n = 0 -> latest = receipts)
    /\ (n < 0 -> latest = skipn (Z.to_nat (- n)) receipts).
Proof.
  eexists _, _. split; [apply read_all_ok|].
  unfold LedgerStore.get_latest. rewrite (bind_ok _ _ _ _ _ (read_all_ok path w)).
  split; [reflexivity|].
  set (receipts := match fs w !! path with Some text => parse_ledger text | None => [] end).
  unfold slice_from, lastn. repeat split.
  - replace (- n <? 0) with true by lia. f_equal. lia.
  - replace (- n <? 0) with true by lia. rewrite length_skipn. lia.
  - intros ->. change (- 0 <? 0) with false. cbv iota.
    replace (Z.to_nat (Z.min (- 0) (Z.of_nat (length receipts)))) with 0%nat by lia.
    reflexivity.
  - intros Hn. replace (- n <? 0) with false by lia.
    destruct (Z.le_gt_cases (- n) (Z.of_nat (length receipts))) as [H|H].
    + f_equal. lia.
    + rewrite !skipn_all2 by lia. reflexivity.
Qed.

Lemma select_spec test receipts :
  select test receipts
  = if forallb is_dict receipts
    then Ok (List.filter (fun r => match r with VDict d => test d | _ => false end) receipts)
    else Raise AttributeError.
Proof.
  induction receipts as [|r rest IH]; [done|].
  destruct r; try done. cbn [select forallb is_dict andb List.filter]. rewrite IH.
  destruct (forallb is_dict rest); [|done]. by destruct (test d).
Qed.

(** Runs a query up to its selection: the constructor, [read_all]. *)
Ltac run_read path w :=
  rewrite (bind_ok _ _ _ _ _ (ensure_file_run path w));
  rewrite (bind_ok _ _ _ _ _ (read_all_run path _ _ (ensured_lookup w path))).

(** X6.  [query_by_field(field, value, path)] returns exactly the receipts
    of the ledger whose [field] equals [value] (Python's [==], a missing
    field being [None]), in ledger order; it creates the ledger file when
    it is absent and prints one [ledger_query] receipt.  If some line of
    the ledger holds a JSON value that is not an object, the query raises
    [AttributeError] instead, before printing anything. *)
Theorem query_by_field_filter `{RT : Runtime} (field : string) (v : value) (path : string)
  (w : World) :
  let receipts := parse_ledger (ledger_text w path) in
  if forallb is_dict receipts
  then exists line,
         Query.query_by_field field v path w
         = (Ok (List.filter (field_is field v) receipts), emitted (ensured w path) line)
  else Query.query_by_field field v path w = (Raise AttributeError, ensured w path).
Proof.
  intros receipts. unfold Query.query_by_field. run_read path w. fold receipts.
  unfold bind at 1. unfold lift. rewrite select_spec.
  destruct (forallb is_dict receipts); [|reflexivity].
  unfold bind. run_emit. eexists. reflexivity.
Qed.

(** X7.  The typed queries are selections of the same kind:
    [query_by_type(t)] selects on [receipt_type == t], [query_anomalies()]
    is [query_by_type("anomaly")], [query_by_tenant(t)] selects on
    [tenant_id == t], and [query_flagged()] selects the receipts whose
    [flagged] is the object [True] itself (an integer [1] does not count).
    Each raises [AttributeError] when the ledger holds a value that is not
    an object. *)
Theorem typed_queries_filter `{RT : Runtime} (t : string) (path : string) (w : World) :
  let receipts := parse_ledger (ledger_text w path) in
  let answer (f : value -> bool) : outcome (list value) :=
    if forallb is_dict receipts then Ok (List.filter f receipts) else Raise AttributeError in
  fst (Query.query_by_type t path w) = answer (field_is "receipt_type" (VStr t))
  /\ fst (Query.query_anomalies path w) = answer (field_is "receipt_type" (VStr "anomaly"))
  /\ fst (Query.query_by_tenant t path w) = answer (field_is "tenant_id" (VStr t))
  /\ fst (Query.query_flagged path w) = answer flagged
  /\ (forall d, flagged (VDict d) = true
                <-> dict_lookup (KStr "flagged") d = Some (VBool true)).
Proof.
  intros receipts answer. unfold answer.
  assert (Ht : forall t', fst (Query.query_by_type t' path w)
                 = if forallb is_dict receipts
                   then Ok (List.filter (field_is "receipt_type" (VStr t')) receipts)
                   else Raise AttributeError).
  { intros t'. unfold Query.query_by_type. run_read path w. fold receipts.
    unfold bind at 1. unfold lift. rewrite select_spec.
    destruct (forallb is_dict receipts); [|reflexivity].
    unfold bind. run_emit. reflexivity. }
  split; [apply Ht|]. split; [apply Ht|]. split; [|split].
  - unfold Query.query_by_tenant. run_read path w. fold receipts.
    unfold bind at 1. unfold lift. rewrite select_spec.
    destruct (forallb is_dict receipts); [|reflexivity].
    unfold bind. run_emit. reflexivity.
  - unfold Query.query_flagged. run_read path w. fold receipts.
    unfold bind at 1. unfold lift. rewrite select_spec.
    destruct (forallb is_dict receipts); [|reflexivity].
    unfold bind. run_emit. reflexivity.
  - intros d. unfold flagged, Query.is_flagged, dict_get.
    destruct (dict_lookup (KStr "flagged") d) as [[| [|] | | | |]|]; split; congruence.
Qed.

Lemma in_date_range_spec start_date end_date receipts matching :
  forallb has_str_ts receipts = true ->
  Query.in_date_range start_date end_date receipts matching
  = Ok (matching ++ List.filter (ts_between start_date end_date) receipts).
Proof.
  revert matching. induction receipts as [|r rest IH]; intros matching H.
  - simpl. by rewrite app_nil_r.
  - apply andb_true_iff in H as [Hr Hrest]. destruct r; try done.
    cbn [Query.in_date_range receipt_get List.filter ts_between]. simpl in Hr.
    destruct (dict_get "ts" (VStr EmptyString) d); try done.
    destruct (String.leb start_date s && String.leb s end_date).
    + rewrite IH by done. by rewrite <- app_assoc.
    + by apply IH.
Qed.

Lemma leb_refl s : String.leb s s = true.
Proof.
  unfold String.leb. pose proof (String.compare_antisym s s) as H.
  by destruct (String.compare s s).
Qed.

Lemma leb_empty s : String.leb s EmptyString = String.eqb s EmptyString.
Proof. by destruct s. Qed.

(** X8.  On a ledger of objects whose [ts], where present, is a string,
    [query_by_date_range(start, end)] returns exactly the receipts with
    [start <= ts <= end], both bounds included, strings compared
    character by character; a receipt without [ts] counts as [ts = ""] and
    is selected only when [start] is the empty string.  A [ts] that is not
    a string raises [TypeError]. *)
Theorem query_by_date_range_inclusive `{RT : Runtime} (start_date end_date : string)
  (path : string) (w : World) :
  let receipts := parse_ledger (ledger_text w path) in
  forallb has_str_ts receipts = true ->
  (exists line,
     Query.query_by_date_range start_date end_date path w
     = (Ok (List.filter (ts_between start_date end_date) receipts),
        emitted (ensured w path) line))
  /\ (forall d ts, dict_lookup (KStr "ts") d = Some (VStr ts) ->
        ts_between start_date end_date (VDict d)
        = String.leb start_date ts && String.leb ts end_date)
  /\ (forall d, dict_lookup (KStr "ts") d = Some (VStr start_date) ->
        ts_between start_date end_date (VDict d) = String.leb start_date end_date)
  /\ (forall d, dict_lookup (KStr "ts") d = None ->
        ts_between start_date end_date (VDict d) = String.eqb start_date EmptyString)
  /\ (forall d v rest, dict_lookup (KStr "ts") d = Some v ->
        (forall ts, v <> VStr ts) ->
        Query.in_date_range start_date end_date (VDict d :: rest) [] = Raise TypeError).
Proof.
  intros receipts Hts. split; [|split; [|split; [|split]]].
  - unfold Query.query_by_date_range. run_read path w. fold receipts.
    unfold bind at 1. unfold lift. rewrite in_date_range_spec by done.
    cbn [app]. unfold bind. run_emit. eexists. reflexivity.
  - intros d ts H. unfold ts_between, dict_get. by rewrite H.
  - intros d H. unfold ts_between, dict_get. rewrite H.
    by rewrite leb_refl.
  - intros d H. unfold ts_between, dict_get. rewrite H.
    rewrite leb_empty.
    assert (String.leb EmptyString end_date = true) as -> by (by destruct end_date).
    by rewrite andb_true_r.
  - intros d v rest H Hv. cbn [Query.in_date_range receipt_get]. unfold dict_get.
    rewrite H. destruct v; try done. by destruct (Hv s).
Qed.

Lemma query_by_date_range_inclusive_witness :
  exists line,
    @Query.query_by_date_range Reference.runtime
       "2024-01-15T09:01:00Z" "2024-01-15T09:03:00Z" sample_path sample_world
    = (Ok (List.filter (ts_between "2024-01-15T09:01:00Z" "2024-01-15T09:03:00Z")
             (@parse_ledger Reference.runtime (ledger_text sample_world sample_path))),
       emitted (ensured sample_world sample_path) line).
Proof.
  apply (proj1 (@query_by_date_range_inclusive Reference.runtime
                  "2024-01-15T09:01:00Z" "2024-01-15T09:03:00Z" sample_path sample_world
                  ltac:(vm_compute; reflexivity))).
Defined.

(** ** Receipts that serialize *)

Lemma all_some_map_inv {A B} (f : A -> option B) l r :
  all_some (map f l) = Some r -> Forall (fun x => is_Some (f x)) l.
Proof.
  revert r. induction l as [|x t IH]; intros r H; [constructor|].
  simpl in H. destruct (f x) as [y|] eqn:E; [|done].
  destruct (all_some (map f t)) as [r'|] eqn:E'; [|done].
  constructor; [rewrite E; by eexists | by eapply IH].
Qed.

(** What serializes has values that serialize. *)
Lemma json_encode_dict_values b d s :
  json_encode b (VDict d) = Some s ->
  Forall (fun kv => is_Some (json_encode b (snd kv))) d.
Proof.
  rewrite json_encode_VDict.
  destruct (all_some _) as [items|] eqn:E; [|done]. intros _.
  apply all_some_map_inv in E. eapply Forall_impl; [exact E|].
  intros [k x] [y Hy]. simpl in *. destruct (json_encode b x); [by eexists|done].
Qed.

Lemma json_encode_lookup b d s k v :
  json_encode b (VDict d) = Some s -> dict_lookup k d = Some v ->
  is_Some (json_encode b v).
Proof.
  intros H%json_encode_dict_values. induction H as [|[k' x] t Hx _ IH]; [done|].
  simpl. destruct (key_eqb k' k); [by intros [= <-] | exact IH].
Qed.

(** A dict with string keys serializes as soon as its values do. *)
Lemma json_encode_str_dict b d :
  forallb is_str_key (map fst d) = true ->
  Forall (fun kv => is_Some (json_encode b (snd kv))) d ->
  is_Some (json_encode b (VDict d)).
Proof.
  intros Hk Hv. rewrite json_encode_VDict.
  destruct (all_some_Forall (map (fun kv => option_map (pair (fst kv))
             (json_encode b (snd kv))) d)) as [r Hr].
  { apply Forall_map. eapply Forall_impl; [exact Hv|].
    intros [k x] [s Hs]. simpl in *. rewrite Hs. by eexists. }
  rewrite Hr. destruct b; [|by eexists].
  unfold sorted_items. rewrite (encoded_items_keys _ _ _ Hr).
  assert (Hc : keys_comparable (map fst d) = true); [|rewrite Hc; by eexists].
  unfold keys_comparable. apply orb_true_iff. left. apply orb_true_iff. by right.
Qed.

(** [emit_receipt] runs on data with string keys and values that
    serialize. *)
Lemma emit_receipt_runs `{RT : Runtime} receipt_type data w :
  forallb is_str_key (map fst data) = true ->
  Forall (fun kv => is_Some (json_encode true (snd kv))) data ->
  exists payload line,
    json_encode true (VDict data) = Some payload
    /\ Core.emit_receipt receipt_type data w
       = (Ok (receipt_of receipt_type (utcnow_isoformat (clock w)) data payload),
          emitted w line).
Proof.
  intros Hk Hv. destruct (json_encode_str_dict true data Hk Hv) as [payload Hp].
  destruct (emit_receipt_ok receipt_type data w payload Hp) as (line & _ & E).
  by exists payload, line.
Qed.

(** ** [append_receipt] and [read_receipts] *)

(** X9.  [append_receipt(receipt, path)] on a receipt that serializes to
    the line [s]: when the receipt is a dict, the line is appended to the
    ledger file, one [ledger_append] receipt is printed, and the
    fingerprint of [s] is returned.  When it is any other JSON value, the
    line is appended all the same and only then [receipt.get] raises
    [AttributeError]: the call fails but the ledger has grown.  A receipt
    that does not serialize raises [TypeError] and leaves the ledger text
    as it was. *)
Theorem append_receipt_outcomes `{RT : Runtime} (receipt : value) (path : string)
  (w : World) :
  let appended s :=
    mkWorld (<[path := ledger_text w path +:+ s +:+ NL]> (fs w)) (stdout w) (clock w) in
  match json_encode true receipt with
  | Some s =>
      if is_dict receipt
      then exists line,
             LedgerStore.append_receipt receipt path w
             = (Ok (Core.dual_hash (Str s)), emitted (appended s) line)
      else LedgerStore.append_receipt receipt path w = (Raise AttributeError, appended s)
  | None => LedgerStore.append_receipt receipt path w = (Raise TypeError, ensured w path)
  end.
Proof.
  intros appended. unfold LedgerStore.append_receipt.
  rewrite (bind_ok _ _ _ _ _ (ensure_file_run path w)).
  destruct (json_encode true receipt) as [s|] eqn:Hs.
  - rewrite (bind_ok _ _ _ _ _ (append_run path receipt s _ Hs)).
    rewrite ensured_text.
    replace (mkWorld _ _ _) with (appended s)
      by (unfold appended, ensured; cbn [fs stdout clock]; by rewrite insert_insert_eq).
    destruct receipt as [| | | | |d]; try reflexivity.
    cbn [is_dict]. unfold bind at 1. unfold lift. cbn [receipt_get].
    edestruct (emit_receipt_runs "ledger_append") as (payload & line & _ & E);
      [..|unfold bind; rewrite E; by eexists]; [reflexivity|].
    repeat constructor; cbn [snd]; try by eexists.
    unfold dict_get. destruct (dict_lookup _ d) as [v|] eqn:Hv; [|by eexists].
    by eapply json_encode_lookup.
  - unfold LedgerStore.append, bind, lift, json_dumps. by rewrite Hs.
Qed.

(** ** The fields of an emitted receipt *)

Lemma dict_lookup_absent k k' (d : pydict) :
  existsb (key_eqb k) (map fst d) = false -> key_eqb k k' = true ->
  dict_lookup k' d = None.
Proof.
  intros H Hk. induction d as [|[k0 v] rest IH]; [done|].
  simpl in H. apply orb_false_iff in H as [H0 Hrest]. simpl.
  rewrite (key_eqb_sym k0 k'), <- (key_eqb_congr k k' k0 Hk), H0. by apply IH.
Qed.

(** Laying the items of a dict over another one: its own fields win. *)
Lemma dict_lookup_overlay k (items base : pydict) :
  unique_keys items = true ->
  dict_lookup k (fold_left (fun d kv => dict_set (fst kv) (snd kv) d) items base)
  = match dict_lookup k items with
    | Some v => Some v
    | None => dict_lookup k base
    end.
Proof.
  revert base. induction items as [|[k0 v0] rest IH]; intros base Hu; [done|].
  simpl in Hu. apply andb_true_iff in Hu as [H0 Hu]. apply negb_true_iff in H0.
  cbn [fold_left fst snd dict_lookup]. rewrite IH by done. rewrite dict_lookup_set.
  destruct (key_eqb k0 k) eqn:E; [|done].
  by rewrite (dict_lookup_absent k0 k rest H0 E).
Qed.

(** X10.  The receipt [emit_receipt(receipt_type, data)] builds is the data
    laid over four stamped fields: every field of [data] appears in the
    receipt with the value [data] gives it, and only the fields [data]
    lacks are stamped ([receipt_type], [ts] with ["+00:00"] replaced by
    ["Z"], [tenant_id], and [payload_hash], the fingerprint of
    [json.dumps(data, sort_keys=True)]).  In particular a [receipt_type],
    [ts] or [payload_hash] inside [data] replaces the stamped one.  The
    call reads the clock once and prints the receipt on one line; when the
    data does not serialize it raises [TypeError] having printed
    nothing. *)
Theorem emit_receipt_fields `{RT : Runtime} (receipt_type : string) (data : pydict)
  (w : World) :
  unique_keys data = true ->
  match json_encode true (VDict data) with
  | Some payload =>
      exists r line,
        Core.emit_receipt receipt_type data w = (Ok r, emitted w line)
        /\ json_encode false (VDict r) = Some line
        /\ forall k,
             dict_lookup k r
             = match dict_lookup k data with
               | Some v => Some v
               | None => dict_lookup k (stamped receipt_type (utcnow_isoformat (clock w))
                                                payload)
               end
  | None => Core.emit_receipt receipt_type data w = (Raise TypeError, ticked w)
  end.
Proof.
  intros Hu. destruct (json_encode true (VDict data)) as [payload|] eqn:Hp.
  - destruct (emit_receipt_ok receipt_type data w payload Hp) as (line & Hl & E).
    eexists _, line. split; [exact E|]. split; [exact Hl|]. intros k.
    unfold receipt_of, dict_of_items. rewrite fold_left_app.
    rewrite dict_lookup_overlay by done.
    destruct (dict_lookup k data) as [v|] eqn:Hk; [done|].
    match goal with |- dict_lookup k ?base = _ =>
      change base with
        [ (KStr "receipt_type", VStr receipt_type);
          (KStr "ts", VStr (replace "+00:00" "Z" (utcnow_isoformat (clock w))));
          (KStr "tenant_id", dict_get "tenant_id" (VStr Core.TENANT_ID) data);
          (KStr "payload_hash", VStr (Core.dual_hash (Str payload))) ]
    end.
    unfold stamped. cbn [dict_lookup].
    destruct (key_eqb (KStr "receipt_type") k); [done|].
    destruct (key_eqb (KStr "ts") k); [done|].
    destruct (key_eqb (KStr "tenant_id") k) eqn:Et; [|done].
    unfold dict_get. by rewrite (dict_lookup_congr _ _ data Et), Hk.
  - unfold Core.emit_receipt, bind, utcnow, lift, json_dumps. by rewrite Hp.
Qed.

Lemma emit_receipt_fields_witness :
  exists r line,
    @Core.emit_receipt Reference.runtime "ledger_append"
       [ (KStr "tenant_id", VStr "ohioproof"); (KStr "receipt_type", VStr "ingest") ]
       Reference.world0
    = (Ok r, emitted Reference.world0 line)
    /\ dict_lookup (KStr "receipt_type") r = Some (VStr "ingest").
Proof.
  generalize (@emit_receipt_fields Reference.runtime "ledger_append"
                [ (KStr "tenant_id", VStr "ohioproof"); (KStr "receipt_type", VStr "ingest") ]
                Reference.world0 eq_refl).
  set (e := json_encode true _). vm_compute in e. subst e. cbv iota beta.
  intros (r & line & H1 & _ & H3). exists r, line. split; [exact H1|].
  rewrite H3. reflexivity.
Defined.

(** ** [aggregate_by_type] *)

Lemma count_types_count_by_type `{RT : Runtime} receipts counts :
  Query.count_types receipts counts = Compact.count_by_type receipts counts.
Proof.
  revert counts. induction receipts as [|r rest IH]; intros counts; [done|].
  cbn [Query.count_types Compact.count_by_type].
  destruct (receipt_get "receipt_type" (VStr "unknown") r) as [rt|]; [|done].
  destruct (to_key rt); [|done]. apply IH.
Qed.

Lemma count_by_type_total `{RT : Runtime} receipts acc :
  forallb typed receipts = true -> exists by_type, Compact.count_by_type receipts acc = Ok by_type.
Proof.
  revert acc. induction receipts as [|r rest IH]; intros acc H; [by eexists|].
  apply andb_true_iff in H as [Hr Hrest]. cbn [Compact.count_by_type].
  unfold typed, type_key in Hr.
  destruct (receipt_get "receipt_type" (VStr "unknown") r) as [rt|]; [|done].
  destruct (to_key rt); [|done]. by apply IH.
Qed.

Lemma to_key_eqb v k t :
  to_key v = Some k -> key_eqb k (KStr t) = value_eqb v (VStr t).
Proof. destruct v; intros [= <-]; reflexivity. Qed.

Lemma count_of_type_filter receipts t :
  forallb typed receipts = true ->
  count_of_type (KStr t) receipts
  = (length (List.filter (field_is "receipt_type" (VStr t)) receipts)
     + if String.eqb t "unknown" then length (List.filter untyped receipts) else 0)%nat.
Proof.
  unfold count_of_type. induction receipts as [|r rest IH]; intros H.
  - simpl. by destruct (String.eqb t "unknown").
  - apply andb_true_iff in H as [Hr Hrest]. specialize (IH Hrest).
    cbn [List.filter]. unfold typed in Hr.
    destruct (type_key r) as [k|] eqn:Ek; [|done].
    destruct r as [| | | | |d]; try done.
    unfold type_key, receipt_get, dict_get in Ek. cbn [field_is untyped]. unfold dict_get.
    destruct (dict_lookup (KStr "receipt_type") d) as [v|] eqn:Ev.
    + rewrite (to_key_eqb _ _ t Ek). destruct (value_eqb v (VStr t)); simpl; lia.
    + injection Ek as <-. cbn [key_eqb value_eqb].
      rewrite String.eqb_sym. destruct (String.eqb t "unknown"); simpl; lia.
Qed.

(** X11.  On a ledger of objects whose types are hashable,
    [aggregate_by_type] returns a dict that maps each type to the number of
    receipts counted under it and has no other entry.  For a type name
    other than ["unknown"] this is the number of receipts
    [query_by_type] selects; under ["unknown"] the receipts that have no
    [receipt_type] at all are counted as well, which [query_by_type]
    does not select. *)
Theorem aggregate_by_type_counts `{RT : Runtime} (path : string) (w : World) :
  let receipts := parse_ledger (ledger_text w path) in
  forallb typed receipts = true ->
  exists counts line,
    Query.aggregate_by_type path w = (Ok counts, emitted (ensured w path) line)
    /\ counted counts (fun k => count_of_type k receipts)
    /\ forall t,
         dict_lookup (KStr t) counts
         = let n := (length (List.filter (field_is "receipt_type" (VStr t)) receipts)
                     + if String.eqb t "unknown"
                       then length (List.filter untyped receipts) else 0)%nat in
           if (n =? 0)%nat then None else Some (VInt (Z.of_nat n)).
Proof.
  intros receipts Ht.
  destruct (count_by_type_total receipts [] Ht) as [counts Hc].
  pose proof (count_by_type_counted receipts [] _ counts counted_nil Hc) as Hcounted.
  unfold Query.aggregate_by_type. run_read path w. fold receipts.
  unfold bind at 1. unfold lift. rewrite count_types_count_by_type, Hc.
  unfold bind. run_emit. exists counts. eexists. split; [reflexivity|]. split.
  - eapply counted_ext; [|exact Hcounted]. by intros k.
  - intros t. cbv zeta. rewrite <- count_of_type_filter by done.
    rewrite (Hcounted (KStr t)). reflexivity.
Qed.

Lemma aggregate_by_type_counts_witness :
  exists counts line,
    @Query.aggregate_by_type Reference.runtime sample_path sample_world
    = (Ok counts, emitted (ensured sample_world sample_path) line)
    /\ dict_lookup (KStr "ingest") counts = Some (VInt 3)
    /\ dict_lookup (KStr "unknown") counts = None.
Proof.
  destruct (@aggregate_by_type_counts Reference.runtime sample_path sample_world
              ltac:(vm_compute; reflexivity)) as (counts & line & H & _ & Hl).
  exists counts, line. split; [exact H|]. rewrite !Hl. split; vm_compute; reflexivity.
Defined.

(** ** What the readers and the verifiers never do *)

Lemma kf_ret {A} (a : A) : keeps_files (ret a).
Proof. by intros w o w' [= _ <-]. Qed.

Lemma kf_raise {A} e : keeps_files (@raise A e).
Proof. by intros w o w' [= _ <-]. Qed.

Lemma kf_lift {A} (x : outcome A) : keeps_files (lift x).
Proof. by intros w o w' [= _ <-]. Qed.

Lemma kf_bind {A B} (m : M A) (k : A -> M B) :
  keeps_files m -> (forall a, keeps_files (k a)) -> keeps_files (bind m k).
Proof.
  intros Hm Hk w o w' H. unfold bind in H. destruct (m w) as [[a|e] w1] eqn:E.
  - rewrite (Hk a _ _ _ H). eapply Hm; eauto.
  - injection H as _ <-. eapply Hm; eauto.
Qed.

Lemma kf_emit_receipt `{RT : Runtime} t d : keeps_files (Core.emit_receipt t d).
Proof. intros w o w' H. by rewrite (emit_receipt_fs _ _ _ _ _ H). Qed.

Lemma kf_read_all `{RT : Runtime} path : keeps_files (LedgerStore.read_all path).
Proof. intros w o w' H. rewrite read_all_ok in H. by injection H as _ <-. Qed.

Ltac kf_step :=
  first
    [ apply kf_ret | apply kf_raise | apply kf_lift | apply kf_emit_receipt
    | apply kf_read_all
    | apply kf_bind; [|intros ?]
    | match goal with
      | |- keeps_files (match ?x with _ => _ end) => destruct x
      | |- keeps_files (if ?x then _ else _) => destruct x
      | |- keeps_files (let '(_, _) := ?x in _) => destruct x
      end ].

Ltac kf := repeat kf_step.

Lemma kf_compute_merkle_root `{RT : Runtime} items :
  keeps_files (Merkle.compute_merkle_root items).
Proof. unfold Merkle.compute_merkle_root. kf. Qed.

Lemma kf_verify_receipt `{RT : Runtime} receipt : keeps_files (Verify.verify_receipt receipt).
Proof. unfold Verify.verify_receipt. kf. Qed.

Lemma kf_chain_loop `{RT : Runtime} receipts : forall i previous_ts errors,
  keeps_files (Verify.chain_loop i receipts previous_ts errors).
Proof.
  induction receipts as [|r rest IH]; intros i previous_ts errors; cbn [Verify.chain_loop].
  - apply kf_ret.
  - apply kf_bind; [apply kf_verify_receipt|]. intros result.
    apply kf_bind; [apply kf_lift|]. intros current_ts.
    apply kf_bind; [kf|]. intros violation. apply IH.
Qed.

Lemma kf_audit_loop `{RT : Runtime} receipts : forall by_type invalid valid,
  keeps_files (Verify.audit_loop receipts by_type invalid valid).
Proof.
  induction receipts as [|r rest IH]; intros by_type invalid valid; cbn [Verify.audit_loop].
  - apply kf_ret.
  - apply kf_bind; [apply kf_lift|]. intros receipt_type.
    apply kf_bind; [kf|]. intros k.
    apply kf_bind; [apply kf_verify_receipt|]. intros result.
    destruct (truthy _); apply IH.
Qed.

Lemma kf_stoprule_hash_mismatch `{RT : Runtime} expected actual :
  keeps_files (Core.stoprule_hash_mismatch expected actual).
Proof. unfold Core.stoprule_hash_mismatch. kf. Qed.

(** X12.  The Merkle functions, [hash_batch], [verify_hash], the
    verifiers of [src/anchor/verify.py] and the stop rules of
    [src/core.py] write no file: whatever the arguments and whatever the
    outcome (a result or an exception), the file system after the call is
    the file system before it. *)
Theorem anchor_functions_write_no_file `{RT : Runtime} :
  (forall items, keeps_files (Merkle.compute_merkle_root items))
  /\ (forall items, keeps_files (Merkle.build_merkle_tree items))
  /\ (forall t index, keeps_files (Merkle.get_merkle_proof t index))
  /\ (forall item proof root, keeps_files (Merkle.verify_merkle_proof item proof root))
  /\ (forall receipts, keeps_files (Merkle.anchor_receipts receipts))
  /\ (forall items, keeps_files (AnchorHash.hash_batch items))
  /\ (forall data expected, keeps_files (AnchorHash.verify_hash data expected))
  /\ (forall receipt, keeps_files (Verify.verify_receipt receipt))
  /\ (forall receipts, keeps_files (Verify.verify_chain receipts))
  /\ (forall data expected halt, keeps_files (Verify.verify_integrity data expected halt))
  /\ (forall items root, keeps_files (Verify.verify_batch_integrity items root))
  /\ (forall receipts, keeps_files (Verify.audit_receipt_stream receipts))
  /\ (forall expected actual, keeps_files (Core.stoprule_hash_mismatch expected actual))
  /\ (forall reason, keeps_files (Core.stoprule_invalid_receipt reason))
  /\ (forall source retries, keeps_files (Core.stoprule_data_source_unavailable source retries)).
Proof.
  repeat split; intros.
  - apply kf_compute_merkle_root.
  - unfold Merkle.build_merkle_tree. kf.
  - unfold Merkle.get_merkle_proof. kf.
  - unfold Merkle.verify_merkle_proof. kf.
  - unfold Merkle.anchor_receipts. apply kf_bind; [apply kf_compute_merkle_root|]. intros. kf.
  - unfold AnchorHash.hash_batch. kf.
  - unfold AnchorHash.verify_hash. kf.
  - apply kf_verify_receipt.
  - unfold Verify.verify_chain. destruct receipts; [apply kf_ret|].
    apply kf_bind; [apply kf_chain_loop|]. intros. kf.
  - unfold Verify.verify_integrity. apply kf_bind; [apply kf_lift|]. intros.
    apply kf_bind; [apply kf_emit_receipt|]. intros.
    apply kf_bind; [|intros; apply kf_ret].
    destruct (_ && _); [apply kf_stoprule_hash_mismatch | apply kf_ret].
  - unfold Verify.verify_batch_integrity.
    apply kf_bind; [apply kf_compute_merkle_root|]. intros. kf.
  - unfold Verify.audit_receipt_stream. apply kf_bind; [apply kf_audit_loop|].
    intros [[by_type invalid] valid]. kf.
  - apply kf_stoprule_hash_mismatch.
  - unfold Core.stoprule_invalid_receipt. kf.
  - unfold Core.stoprule_data_source_unavailable. kf.
Qed.

Lemma kt_of_kf {A} (m : M A) : keeps_files m -> keeps_texts m.
Proof. intros H w o w' p E. unfold ledger_text. by rewrite (H _ _ _ E). Qed.

Lemma kt_bind {A B} (m : M A) (k : A -> M B) :
  keeps_texts m -> (forall a, keeps_texts (k a)) -> keeps_texts (bind m k).
Proof.
  intros Hm Hk w o w' p H. unfold bind in H. destruct (m w) as [[a|e] w1] eqn:E.
  - rewrite (Hk a _ _ _ p H). eapply Hm; eauto.
  - injection H as _ <-. eapply Hm; eauto.
Qed.

Lemma kt_init `{RT : Runtime} path : keeps_texts (LedgerStore.__init__ path).
Proof.
  intros w o w' p H. rewrite ensure_file_run in H. injection H as _ <-.
  unfold ledger_text at 1. unfold ensured. cbn [fs].
  destruct (decide (p = path)) as [->|Hp].
  - by rewrite lookup_insert_eq.
  - by rewrite lookup_insert_ne.
Qed.

(** Every reader starts with the constructor and goes on without writing. *)
Ltac kt_reader :=
  apply kt_bind; [apply kt_init|]; intros ?; apply kt_of_kf; kf.

Lemma read_receipts_run `{RT : Runtime} path w :
  exists line,
    LedgerStore.read_receipts path w
    = (Ok (parse_ledger (ledger_text w path)), emitted (ensured w path) line).
Proof.
  unfold LedgerStore.read_receipts. run_read path w. unfold bind. run_emit.
  eexists. reflexivity.
Qed.

(** X13.  The readers of the ledger never change what a file holds:
    [read_receipts], [get_latest], [count], [get_merkle_root], the
    queries, [aggregate_by_type] and [get_compaction_history] leave the
    text of every file as it was, whatever their outcome.  The only change
    to the file system is that the functions going through the
    [LedgerStore] constructor create the ledger file, empty, when it does
    not exist. *)
Theorem ledger_readers_keep_texts `{RT : Runtime} (path : string) :
  keeps_texts (LedgerStore.read_receipts path)
  /\ (forall n, keeps_files (LedgerStore.get_latest path n))
  /\ keeps_files (LedgerStore.count path)
  /\ keeps_files (LedgerStore.get_merkle_root path)
  /\ (forall t, keeps_texts (Query.query_by_type t path))
  /\ (forall a b, keeps_texts (Query.query_by_date_range a b path))
  /\ (forall t, keeps_texts (Query.query_by_tenant t path))
  /\ (forall field v, keeps_texts (Query.query_by_field field v path))
  /\ keeps_texts (Query.query_flagged path)
  /\ keeps_texts (Query.query_anomalies path)
  /\ keeps_texts (Query.aggregate_by_type path)
  /\ keeps_texts (Compact.get_compaction_history path)
  /\ (forall w, fs w !! path = None ->
        snd (LedgerStore.read_receipts path w) <> w
        /\ fs (snd (LedgerStore.read_receipts path w)) !! path = Some EmptyString).
Proof.
  repeat split; intros.
  - unfold LedgerStore.read_receipts. kt_reader.
  - unfold LedgerStore.get_latest. kf.
  - unfold LedgerStore.count. kf.
  - unfold LedgerStore.get_merkle_root. kf.
  - unfold Query.query_by_type. kt_reader.
  - unfold Query.query_by_date_range. kt_reader.
  - unfold Query.query_by_tenant. kt_reader.
  - unfold Query.query_by_field. kt_reader.
  - unfold Query.query_flagged. kt_reader.
  - unfold Query.query_anomalies, Query.query_by_type. kt_reader.
  - unfold Query.aggregate_by_type. kt_reader.
  - unfold Compact.get_compaction_history. kt_reader.
  - destruct (read_receipts_run path w) as [line ->]. cbn [snd]. intros E.
    apply (f_equal (fun x => fs x !! path)) in E. unfold emitted, ensured in E.
    cbn [fs] in E. rewrite lookup_insert_eq in E. congruence.
  - destruct (read_receipts_run path w) as [line ->]. cbn [snd]. unfold emitted, ensured.
    cbn [fs]. rewrite lookup_insert_eq. unfold ledger_text. by rewrite H.
Qed.

(** ** [verify_receipt] *)

(** Splits a goal on the items of a literal dict, and closes those whose
    value is a literal. *)
Ltac each_item :=
  repeat match goal with
         | |- Forall _ (_ :: _) => constructor
         | |- Forall _ [] => constructor
         end;
  cbn [snd]; try (apply json_encode_str_keyed; reflexivity).

Lemma str_keyed_lookup d k v :
  str_keyed (VDict d) = true -> dict_lookup k d = Some v -> str_keyed v = true.
Proof.
  induction d as [|[k' x] rest IH]; [done|]. cbn [str_keyed forallb fst snd].
  intros [[_ Hx]%andb_true_iff Hrest]%andb_true_iff. simpl.
  destruct (key_eqb k' k); [by intros [= <-] | by apply IH].
Qed.

Lemma str_keyed_dict_get d k dflt :
  str_keyed (VDict d) = true -> str_keyed dflt = true -> str_keyed (dict_get k dflt d) = true.
Proof.
  intros Hd Hdflt. unfold dict_get.
  destruct (dict_lookup (KStr k) d) eqn:E; [by eapply str_keyed_lookup | done].
Qed.

Lemma str_keyed_data_copy d :
  str_keyed (VDict d) = true -> str_keyed (VDict (Verify.data_copy_of d)) = true.
Proof.
  cbn [str_keyed]. unfold Verify.data_copy_of. intros H.
  apply forallb_forall. intros kv [Hin _]%filter_In.
  by apply (proj1 (forallb_forall _ _) H).
Qed.

Lemma missing_fields_nil d :
  (length (Verify.missing_fields d) =? 0)%nat = forallb (has_field d) Verify.required.
Proof.
  unfold Verify.missing_fields, Verify.required, has_field.
  cbn [List.filter forallb].
  repeat match goal with |- context [bool_decide ?P] => destruct (bool_decide P) end;
    reflexivity.
Qed.

Lemma verify_receipt_plain `{RT : Runtime} (d : pydict) (w : World) :
  plain_receipt (VDict d) = true ->
  exists result line,
    Verify.verify_receipt (VDict d) w = (Ok result, emitted w line)
    /\ dict_lookup (KStr "verified") result
       = Some (VBool (forallb (has_field d) Verify.required))
    /\ dict_lookup (KStr "errors") result
       = Some (VList (map (fun field => VStr ("missing_required_field:" +:+ field))
                          (List.filter (fun field => negb (has_field d field))
                                       Verify.required)))
    /\ dict_lookup (KStr "receipt_type") result
       = Some (dict_get "receipt_type" VNone d).
Proof.
  intros [Hk Hp]%andb_true_iff. unfold Verify.verify_receipt.
  assert (Hw : exists warnings,
             (match dict_lookup (KStr "payload_hash") d with
              | Some payload_hash =>
                  let* serialized := lift (json_dumps true (VDict (Verify.data_copy_of d))) in
                  let* single := lift (Verify.lacks_colon payload_hash) in
                  ret (if single then [VStr "single_hash_format"] else [])
              | None => ret []
              end) w = (Ok warnings, w)).
  { destruct (dict_lookup (KStr "payload_hash") d) as [[| | |s| |]|]; try done.
    - destruct (json_encode_str_keyed true _ (str_keyed_data_copy d Hk)) as [s' Hs'].
      unfold bind, lift. rewrite (json_dumps_Some _ _ _ Hs'). cbn [Verify.lacks_colon].
      eexists. reflexivity.
    - by eexists. }
  destruct Hw as [warnings Hw]. rewrite (bind_ok _ _ _ _ _ Hw).
  cbv zeta.
  match goal with |- context [Core.emit_receipt ?t ?data] =>
    destruct (emit_receipt_runs t data w) as (payload & line & _ & E)
  end.
  - reflexivity.
  - each_item. apply json_encode_str_keyed. by apply str_keyed_dict_get.
  - unfold bind. rewrite E. eexists _, line. split; [reflexivity|].
    rewrite missing_fields_nil. repeat split.
Qed.

(** X14.  On a receipt that is a dict with string keys and whose
    [payload_hash], if any, is a string, [verify_receipt] returns a result
    and prints one receipt.  The verdict [verified] is true exactly when the
    four fields [receipt_type], [ts], [tenant_id] and [payload_hash] are
    all present: the values of the fields play no part in it, and
    [errors] names each missing field in that order. *)
Theorem verify_receipt_verdict `{RT : Runtime} (d : pydict) (w : World) :
  plain_receipt (VDict d) = true ->
  exists result line,
    Verify.verify_receipt (VDict d) w = (Ok result, emitted w line)
    /\ dict_lookup (KStr "verified") result
       = Some (VBool (forallb (has_field d) Verify.required))
    /\ dict_lookup (KStr "errors") result
       = Some (VList (map (fun field => VStr ("missing_required_field:" +:+ field))
                          (List.filter (fun field => negb (has_field d field))
                                       Verify.required)))
    /\ dict_lookup (KStr "receipt_type") result
       = Some (dict_get "receipt_type" VNone d).
Proof. apply verify_receipt_plain. Qed.

Lemma verify_receipt_verdict_witness :
  exists result line,
    @Verify.verify_receipt Reference.runtime
       (VDict [ (KStr "receipt_type", VStr "ingest"); (KStr "ts", VStr "2024-01-15T09:00:00Z");
                (KStr "tenant_id", VStr "ohioproof"); (KStr "payload_hash", VStr "0:0") ])
       Reference.world0
    = (Ok result, emitted Reference.world0 line)
    /\ dict_lookup (KStr "verified") result = Some (VBool true).
Proof.
  destruct (@verify_receipt_verdict Reference.runtime
              [ (KStr "receipt_type", VStr "ingest"); (KStr "ts", VStr "2024-01-15T09:00:00Z");
                (KStr "tenant_id", VStr "ohioproof"); (KStr "payload_hash", VStr "0:0") ]
              Reference.world0 eq_refl) as (result & line & H & Hv & _).
  exists result, line. split; [exact H | exact Hv].
Defined.

Lemma data_copy_of_set d v :
  Verify.data_copy_of (dict_set (KStr "payload_hash") v d) = Verify.data_copy_of d.
Proof.
  unfold Verify.data_copy_of. induction d as [|[k x] rest IH]; [reflexivity|].
  cbn [dict_set]. destruct (key_eqb k (KStr "payload_hash")) eqn:E.
  - cbn [List.filter fst existsb]. by rewrite E.
  - cbn [List.filter fst]. by rewrite IH.
Qed.

Lemma missing_fields_set d v1 v2 :
  Verify.missing_fields (dict_set (KStr "payload_hash") v1 d)
  = Verify.missing_fields (dict_set (KStr "payload_hash") v2 d).
Proof.
  unfold Verify.missing_fields. f_equal. apply filter_ext. intros field.
  rewrite !dict_lookup_set. by destruct (key_eqb _ _).
Qed.

(** X15.  [verify_receipt] never compares the [payload_hash] of a receipt
    with the fingerprint it computes from the receipt's data: replacing the
    [payload_hash] by any other string with the same answer to "does it
    contain a colon" changes neither the result, nor the outcome, nor what
    is printed.  A receipt with a forged [payload_hash] is verified like
    the genuine one. *)
Theorem verify_receipt_ignores_payload_hash `{RT : Runtime} (d : pydict) (h1 h2 : string)
  (w : World) :
  has_char ":" h1 = has_char ":" h2 ->
  Verify.verify_receipt (VDict (dict_set (KStr "payload_hash") (VStr h1) d)) w
  = Verify.verify_receipt (VDict (dict_set (KStr "payload_hash") (VStr h2) d)) w.
Proof.
  intros Hc. unfold Verify.verify_receipt.
  rewrite (missing_fields_set d (VStr h1) (VStr h2)).
  rewrite !data_copy_of_set. unfold dict_get. rewrite !dict_lookup_set.
  cbn [key_eqb String.eqb Ascii.eqb Bool.eqb Verify.lacks_colon]. rewrite Hc. reflexivity.
Qed.

Lemma verify_receipt_ignores_payload_hash_witness :
  @Verify.verify_receipt Reference.runtime
     (VDict (dict_set (KStr "payload_hash") (VStr "0a:0b") sample_fields))
     Reference.world0
  = @Verify.verify_receipt Reference.runtime
      (VDict (dict_set (KStr "payload_hash") (VStr "forged:hash") sample_fields))
      Reference.world0.
Proof.
  apply (@verify_receipt_ignores_payload_hash Reference.runtime). reflexivity.
Defined.

(** ** The stop rules *)

(** Runs a stop rule: the anomaly receipt is emitted, then the rule
    raises. *)
Ltac run_stoprule :=
  unfold bind;
  match goal with
  | |- context [Core.emit_receipt ?t ?d ?w] =>
      let p := fresh "p" in
      let Hp := fresh "Hp" in
      let line := fresh "line" in
      let Hl := fresh "Hl" in
      let E := fresh "E" in
      destruct (json_encode_str_keyed true (VDict d) eq_refl) as [p Hp];
      destruct (emit_receipt_ok t d w p Hp) as (line & Hl & E);
      rewrite E; eexists _, line; split; [reflexivity|];
      split; [exact Hl|]; split; reflexivity
  end.

(** X16.  The three stop rules never return: whatever their arguments,
    each prints exactly one receipt, of type [anomaly] and with action
    [halt], and then raises [StopRule] with its message. *)
Theorem stoprules_always_raise `{RT : Runtime} (w : World) :
  (forall expected actual,
      exists r line,
        Core.stoprule_hash_mismatch expected actual w
        = (Raise (StopRule ("Hash mismatch: expected " +:+ expected +:+ ", got " +:+ actual)),
           emitted w line)
        /\ json_encode false (VDict r) = Some line
        /\ dict_lookup (KStr "receipt_type") r = Some (VStr "anomaly")
        /\ dict_lookup (KStr "action") r = Some (VStr "halt"))
  /\ (forall reason,
      exists r line,
        Core.stoprule_invalid_receipt reason w
        = (Raise (StopRule ("Invalid receipt: " +:+ reason)), emitted w line)
        /\ json_encode false (VDict r) = Some line
        /\ dict_lookup (KStr "receipt_type") r = Some (VStr "anomaly")
        /\ dict_lookup (KStr "action") r = Some (VStr "halt"))
  /\ (forall source retries,
      exists r line,
        Core.stoprule_data_source_unavailable source retries w
        = (Raise (StopRule ("Data source unavailable after " +:+ repr_int retries
                            +:+ " retries: " +:+ source)), emitted w line)
        /\ json_encode false (VDict r) = Some line
        /\ dict_lookup (KStr "receipt_type") r = Some (VStr "anomaly")
        /\ dict_lookup (KStr "action") r = Some (VStr "halt")).
Proof.
  split; [|split]; intros.
  - unfold Core.stoprule_hash_mismatch. run_stoprule.
  - unfold Core.stoprule_invalid_receipt. run_stoprule.
  - unfold Core.stoprule_data_source_unavailable. run_stoprule.
Qed.

(** ** Anchoring and batch verification *)

Lemma compute_merkle_root_ok `{RT : Runtime} items root w :
  Core.merkle items = Ok root ->
  exists w1, Merkle.compute_merkle_root items w = (Ok root, w1).
Proof.
  intros H. destruct items as [|i rest].
  - injection H as <-. by exists w.
  - cbn [Core.merkle] in H.
    destruct (Core.leaf_hashes (i :: rest)) as [hashes|] eqn:Hl; [|done].
    injection H as <-.
    destruct (compute_merkle_root_run (i :: rest) hashes w ltac:(done) Hl) as [line E].
    by eexists.
Qed.

(** Runs an [emit_receipt] on literal data and reads fields of the
    receipt off. *)
Ltac emit_fields r line E :=
  match goal with
  | |- context [Core.emit_receipt ?t ?d ?w] =>
      let p := fresh "p" in
      let Hp := fresh "Hp" in
      destruct (json_encode_str_keyed true (VDict d) eq_refl) as [p Hp];
      destruct (emit_receipt_ok t d w p Hp) as (line & _ & E);
      set (r := receipt_of t (utcnow_isoformat (clock w)) d p) in E
  end.

(** X17.  Anchoring and batch verification agree with [merkle].  When the
    items have the Merkle root [root], [anchor_receipts] returns a receipt
    of type [anchor] whose [merkle_root] is [root] and whose [batch_size]
    is the number of items; [verify_batch_integrity] on the same items
    reports [verified] true against [root], and false against every other
    expected root. *)
Theorem anchor_then_verify_batch `{RT : Runtime} (items : list value) (root : string)
  (w : World) :
  Core.merkle items = Ok root ->
  (exists anchor w1,
     Merkle.anchor_receipts items w = (Ok anchor, w1)
     /\ dict_lookup (KStr "receipt_type") anchor = Some (VStr "anchor")
     /\ dict_lookup (KStr "merkle_root") anchor = Some (VStr root)
     /\ dict_lookup (KStr "batch_size") anchor = Some (VInt (Z.of_nat (length items))))
  /\ (forall expected,
        exists result w2,
          Verify.verify_batch_integrity items expected w = (Ok result, w2)
          /\ dict_lookup (KStr "verified") result = Some (VBool (String.eqb root expected))
          /\ dict_lookup (KStr "computed_root") result = Some (VStr root)).
Proof.
  intros Hm. destruct (compute_merkle_root_ok items root w Hm) as [w1 Hc]. split.
  - unfold Merkle.anchor_receipts. rewrite (bind_ok _ _ _ _ _ Hc).
    emit_fields r line E. exists r. eexists. split; [exact E|]. repeat split.
  - intros expected. unfold Verify.verify_batch_integrity. rewrite (bind_ok _ _ _ _ _ Hc).
    cbv zeta. unfold bind. run_emit. eexists _, _. split; [reflexivity|]. split; reflexivity.
Qed.

Lemma anchor_then_verify_batch_witness :
  exists result w2,
    @Verify.verify_batch_integrity Reference.runtime sample_receipts
       (match @Core.merkle Reference.runtime sample_receipts with Ok r => r | Raise _ => "" end)
       Reference.world0 = (Ok result, w2)
    /\ dict_lookup (KStr "verified") result = Some (VBool true).
Proof.
  destruct (proj2 (@anchor_then_verify_batch Reference.runtime sample_receipts
                     (match @Core.merkle Reference.runtime sample_receipts with
                      | Ok r => r | Raise _ => "" end)
                     Reference.world0 ltac:(vm_compute; reflexivity))
                  (match @Core.merkle Reference.runtime sample_receipts with
                   | Ok r => r | Raise _ => "" end))
    as (result & w2 & H & Hv & _).
  exists result, w2. split; [exact H|]. rewrite Hv. by rewrite String.eqb_refl.
Defined.

(** ** [audit_receipt_stream] *)

Lemma dict_set_set k v1 v2 d : dict_set k v2 (dict_set k v1 d) = dict_set k v2 d.
Proof.
  induction d as [|[k' x] rest IH]; cbn [dict_set].
  - by rewrite key_eqb_refl.
  - destruct (key_eqb k' k) eqn:E; cbn [dict_set]; rewrite E; [done|]. by rewrite IH.
Qed.

(** The two statements [if t not in by_type: by_type[t] = 0] and
    [by_type[t] += 1] count like [by_type[t] = by_type.get(t, 0) + 1]. *)
Lemma audit_step_count_type by_type f k :
  counted by_type f ->
  (let by_type1 := match dict_lookup k by_type with
                   | Some _ => by_type
                   | None => dict_set k (VInt 0) by_type
                   end in
   match dict_lookup k by_type1 with
   | Some (VInt n) => dict_set k (VInt (n + 1)) by_type1
   | _ => by_type1
   end) = Compact.count_type by_type k.
Proof.
  intros H. cbv zeta. unfold Compact.count_type. rewrite (H k).
  destruct (f k =? 0)%nat eqn:E.
  - rewrite dict_lookup_set, key_eqb_refl. by rewrite dict_set_set.
  - rewrite (H k), E. reflexivity.
Qed.

Lemma audit_loop_run `{RT : Runtime} receipts : forall by_type f invalid valid w,
  counted by_type f ->
  forallb (fun r => plain_receipt r && typed r) receipts = true ->
  exists by_type' invalid' w',
    Verify.audit_loop receipts by_type invalid valid w
    = (Ok (by_type', invalid', valid + Z.of_nat (length (List.filter complete receipts))), w')
    /\ counted by_type' (fun k => (f k + count_of_type k receipts)%nat)
    /\ length invalid'
       = (length invalid + length (List.filter (fun r => negb (complete r)) receipts))%nat.
Proof.
  induction receipts as [|r rest IH]; intros by_type f invalid valid w Hc Hok.
  - exists by_type, invalid, w. cbn [Verify.audit_loop List.filter length].
    rewrite Z.add_0_r, Nat.add_0_r. split; [reflexivity|]. split; [|done].
    eapply counted_ext; [|exact Hc]. intros k. unfold count_of_type. simpl. lia.
  - cbn [forallb] in Hok. apply andb_true_iff in Hok as [[Hp Ht]%andb_true_iff Hrest].
    destruct r as [| | | | |d]; try done.
    unfold typed, type_key in Ht. cbn [receipt_get] in Ht.
    destruct (to_key (dict_get "receipt_type" (VStr "unknown") d)) as [k|] eqn:Ek; [|done].
    cbn [Verify.audit_loop]. unfold bind at 1. unfold lift. cbn [receipt_get].
    unfold bind at 1. rewrite Ek. unfold ret at 1.
    pose proof (audit_step_count_type by_type f k Hc) as Hs. cbv zeta in Hs. cbv zeta.
    rewrite Hs. clear Hs.
    destruct (verify_receipt_plain d w Hp) as (result & line & Hv & Hver & Herr & _).
    unfold bind at 1. rewrite Hv. unfold dict_get at 1. rewrite Hver. cbn [truthy].
    pose proof (count_type_counted by_type f k Hc) as Hc'.
    assert (Hcount : forall k', (f k' + count_of_type k' (VDict d :: rest))%nat
                      = ((f k' + if key_eqb k k' then 1 else 0)
                         + count_of_type k' rest)%nat).
    { intros k'. unfold count_of_type. cbn [List.filter]. unfold type_key at 1.
      cbn [receipt_get]. rewrite Ek. destruct (key_eqb k k'); simpl; lia. }
    cbn [List.filter complete].
    destruct (forallb (has_field d) Verify.required) eqn:Ecomp; cbn [negb].
    + destruct (IH _ _ invalid (valid + 1) (emitted w line) Hc' Hrest)
        as (by_type' & invalid' & w' & Hrun & Hcnt & Hlen).
      exists by_type', invalid', w'. split; [|split].
      * rewrite Hrun. do 3 f_equal. cbn [length]. lia.
      * eapply counted_ext; [|exact Hcnt]. intros k'. by rewrite Hcount.
      * exact Hlen.
    + match goal with |- context [Verify.audit_loop rest _ ?inv valid _] =>
        destruct (IH _ _ inv valid (emitted w line) Hc' Hrest)
          as (by_type' & invalid' & w' & Hrun & Hcnt & Hlen)
      end.
      exists by_type', invalid', w'. split; [|split].
      * exact Hrun.
      * eapply counted_ext; [|exact Hcnt]. intros k'. by rewrite Hcount.
      * rewrite Hlen, length_app. cbn [length]. lia.
Qed.

Lemma str_keyed_keys (d : pydict) :
  str_keyed (VList (map (fun kv => value_of_key (fst kv)) d)) = true.
Proof.
  cbn [str_keyed]. apply forallb_forall. intros v [[k x] [<- _]]%in_map_iff.
  by destruct k.
Qed.

(** X18.  On receipts that are dicts with string keys, a hashable type and
    a string [payload_hash] if any, [audit_receipt_stream] returns a report
    in which [valid_receipts] is the number of receipts having the four
    required fields, [invalid_receipts] is the number of the others, the
    two add up to [total_receipts], [by_type] counts every receipt once
    under its type (["unknown"] when it has none), and
    [invalid_details] holds at most ten entries. *)
Theorem audit_receipt_stream_counts `{RT : Runtime} (receipts : list value) (w : World) :
  forallb (fun r => plain_receipt r && typed r) receipts = true ->
  exists audit w' by_type details,
    Verify.audit_receipt_stream receipts w = (Ok audit, w')
    /\ dict_lookup (KStr "total_receipts") audit = Some (VInt (Z.of_nat (length receipts)))
    /\ dict_lookup (KStr "valid_receipts") audit
       = Some (VInt (Z.of_nat (length (List.filter complete receipts))))
    /\ dict_lookup (KStr "invalid_receipts") audit
       = Some (VInt (Z.of_nat (length (List.filter (fun r => negb (complete r)) receipts))))
    /\ (length (List.filter complete receipts)
        + length (List.filter (fun r => negb (complete r)) receipts))%nat = length receipts
    /\ dict_lookup (KStr "by_type") audit = Some (VDict by_type)
    /\ counted by_type (fun k => count_of_type k receipts)
    /\ dict_lookup (KStr "invalid_details") audit = Some (VList details)
    /\ length details
       = Nat.min 10 (length (List.filter (fun r => negb (complete r)) receipts)).
Proof.
  intros Hok.
  destruct (audit_loop_run receipts [] _ [] 0 w counted_nil Hok)
    as (by_type & invalid & w1 & Hrun & Hcnt & Hlen).
  unfold Verify.audit_receipt_stream. rewrite (bind_ok _ _ _ _ _ Hrun). cbv zeta beta iota.
  match goal with |- context [Core.emit_receipt ?t ?data] =>
    destruct (emit_receipt_runs t data w1) as (payload & line & _ & E)
  end.
  - reflexivity.
  - each_item. apply json_encode_str_keyed, str_keyed_keys.
  - unfold bind. rewrite E. eexists _, _, by_type, (firstn 10 invalid).
    split; [reflexivity|]. cbn [length] in Hlen.
    repeat split.
    + cbn [dict_lookup key_eqb String.eqb Ascii.eqb Bool.eqb]. by rewrite Hlen.
    + symmetry. apply filter_partition_length.
    + eapply counted_ext; [|exact Hcnt]. by intros k.
    + rewrite length_firstn, Hlen. reflexivity.
Qed.

Lemma audit_receipt_stream_counts_witness :
  exists audit w',
    @Verify.audit_receipt_stream Reference.runtime
       (VDict (dict_set (KStr "payload_hash") (VStr "0a:0b") sample_fields) :: sample_receipts)
       Reference.world0 = (Ok audit, w')
    /\ dict_lookup (KStr "valid_receipts") audit = Some (VInt 1)
    /\ dict_lookup (KStr "invalid_receipts") audit = Some (VInt 5).
Proof.
  destruct (@audit_receipt_stream_counts Reference.runtime
              (VDict (dict_set (KStr "payload_hash") (VStr "0a:0b") sample_fields)
                 :: sample_receipts)
              Reference.world0 ltac:(vm_compute; reflexivity))
    as (audit & w' & _ & _ & H & _ & Hv & Hi & _).
  exists audit, w'. split; [exact H|]. split; [exact Hv | exact Hi].
Defined.

(** ** [verify_chain] *)

Lemma ltb_empty s : String.ltb s EmptyString = false.
Proof. by destruct s. Qed.

Lemma chain_loop_run `{RT : Runtime} receipts : forall i previous_ts previous errors w,
  forallb (fun r => plain_receipt r && complete r && has_str_ts r) receipts = true ->
  previous_ts = VStr previous \/ previous_ts = VNone /\ previous = EmptyString ->
  exists w',
    Verify.chain_loop i receipts previous_ts errors w
    = (Ok (errors ++ descents i previous receipts), w').
Proof.
  induction receipts as [|r rest IH]; intros i previous_ts previous errors w Hok Hprev.
  - exists w. cbn [Verify.chain_loop descents]. by rewrite app_nil_r.
  - cbn [forallb] in Hok.
    apply andb_true_iff in Hok as [[[Hp Hc]%andb_true_iff Hts]%andb_true_iff Hrest].
    destruct r as [| | | | |d]; try done.
    destruct (verify_receipt_plain d w Hp) as (result & line & Hv & Hver & _).
    assert (Hd : dict_get "verified" VNone result = VBool true).
    { unfold dict_get. rewrite Hver. cbn [complete] in Hc. by rewrite Hc. }
    cbn [Verify.chain_loop]. unfold bind at 1. rewrite Hv. rewrite !Hd. cbn [truthy negb].
    unfold bind at 1. unfold lift. cbn [receipt_get].
    cbn [has_str_ts] in Hts. cbn [descents ts_string].
    destruct (dict_get "ts" (VStr EmptyString) d) as [| | |ts| |]; try done.
    assert (Hviol : (if truthy previous_ts
                     then match py_lt (VStr ts) previous_ts with
                          | Some b => ret b
                          | None => raise TypeError
                          end
                     else ret false) (emitted w line)
                    = (Ok (String.ltb ts previous), emitted w line)).
    { destruct Hprev as [->|[-> ->]].
      - cbn [truthy py_lt]. destruct (String.eqb_spec previous EmptyString) as [->|_]; cbn [negb].
        + by rewrite ltb_empty.
        + reflexivity.
      - cbn [truthy]. by rewrite ltb_empty. }
    unfold bind at 1. rewrite Hviol.
    match goal with |- context [Verify.chain_loop (i + 1) rest (VStr ts) ?errs _] =>
      destruct (IH (i + 1) (VStr ts) ts errs (emitted w line) Hrest ltac:(by left)) as [w' Hrun]
    end.
    exists w'. rewrite Hrun. f_equal. f_equal.
    destruct (String.ltb ts previous); by rewrite <- ?app_assoc.
Qed.

Lemma descents_ordered i previous receipts :
  (length (descents i previous receipts) =? 0)%nat
  = ordered_from previous (map ts_string receipts).
Proof.
  revert i previous. induction receipts as [|r rest IH]; intros i previous; [done|].
  cbn [descents map ordered_from]. rewrite length_app.
  destruct (String.ltb (ts_string r) previous); cbn [negb andb length]; [done|].
  apply IH.
Qed.

(** X19.  On a chain of receipts that have the four required fields and a
    string timestamp, [verify_chain] reports [verified] exactly when no
    timestamp is less, as a string, than the one before it; equal
    timestamps are in order.  Its [errors] hold one
    [timestamp_ordering_violation] for each receipt whose timestamp is
    less than its predecessor's, with the index of that receipt. *)
Theorem verify_chain_ordering `{RT : Runtime} (receipts : list value) (w : World) :
  forallb (fun r => plain_receipt r && complete r && has_str_ts r) receipts = true ->
  exists result w',
    Verify.verify_chain receipts w = (Ok result, w')
    /\ dict_lookup (KStr "verified") result
       = Some (VBool (ordered_from EmptyString (map ts_string receipts)))
    /\ dict_lookup (KStr "errors") result = Some (VList (descents 0 EmptyString receipts))
    /\ dict_lookup (KStr "chain_length") result = Some (VInt (Z.of_nat (length receipts))).
Proof.
  intros Hok. destruct receipts as [|r rest].
  - eexists _, w. split; [reflexivity|]. repeat split.
  - destruct (chain_loop_run (r :: rest) 0 VNone EmptyString [] w Hok ltac:(by right))
      as [w1 Hrun].
    unfold Verify.verify_chain. rewrite (bind_ok _ _ _ _ _ Hrun). cbv zeta.
    unfold bind. run_emit. eexists _, _. split; [reflexivity|].
    cbn [app]. rewrite descents_ordered. repeat split.
Qed.

Lemma verify_chain_ordering_witness :
  exists result w',
    @Verify.verify_chain Reference.runtime
       [ VDict (dict_set (KStr "payload_hash") (VStr "0a:0b") sample_fields);
         VDict (dict_set (KStr "ts") (VStr "2024-01-14T09:00:00Z")
                  (dict_set (KStr "payload_hash") (VStr "0a:0b") sample_fields)) ]
       Reference.world0 = (Ok result, w')
    /\ dict_lookup (KStr "verified") result = Some (VBool false).
Proof.
  destruct (@verify_chain_ordering Reference.runtime
              [ VDict (dict_set (KStr "payload_hash") (VStr "0a:0b") sample_fields);
                VDict (dict_set (KStr "ts") (VStr "2024-01-14T09:00:00Z")
                         (dict_set (KStr "payload_hash") (VStr "0a:0b") sample_fields)) ]
              Reference.world0 ltac:(vm_compute; reflexivity))
    as (result & w' & H & Hv & _).
  exists result, w'. split; [exact H | exact Hv].
Defined.

(** ** [split_dual_hash], [verify_hash] and [hash_batch] *)

Lemma split_on_length sep s : length (split_on sep s) = S (count_char sep s).
Proof.
  induction s as [|c s IH]; [done|]. cbn [split_on count_char].
  destruct (Ascii.eqb c sep); cbn [length]; [by rewrite IH|].
  destruct (split_on sep s); simpl in *; lia.
Qed.

Lemma split_on_single sep s b : split_on sep s = [b] -> s = b.
Proof.
  revert b. induction s as [|c s IH]; intros b; cbn [split_on]; [by intros [= <-]|].
  destruct (Ascii.eqb c sep).
  - intros H. apply (f_equal (@length _)) in H. rewrite length_cons, split_on_length in H.
    simpl in H. lia.
  - pose proof (split_on_length sep s) as Hl.
    destruct (split_on sep s) as [|p rest] eqn:E; [done|].
    intros [= <- ->]. by rewrite (IH p eq_refl).
Qed.

Lemma split_on_pair sep s a b :
  split_on sep s = [a; b] -> s = a +:+ String sep b.
Proof.
  revert a. induction s as [|c s IH]; intros a; cbn [split_on]; [done|].
  destruct (Ascii.eqb_spec c sep) as [->|Hc].
  - intros [= <- H]. by rewrite (split_on_single _ _ _ H).
  - pose proof (split_on_length sep s) as Hl.
    destruct (split_on sep s) as [|p rest] eqn:E; [done|].
    intros [= <- ->]. by rewrite (IH p eq_refl).
Qed.

Lemma count_char_app c s t :
  count_char c (s +:+ t) = (count_char c s + count_char c t)%nat.
Proof.
  induction s as [|c' s IH]; [done|].
  change (count_char c (String c' (s +:+ t))
          = (count_char c (String c' s) + count_char c t)%nat).
  cbn [count_char]. rewrite IH. lia.
Qed.

Lemma count_char_hex s : all_chars is_hex s = true -> count_char ":" s = 0%nat.
Proof.
  induction s as [|c s IH]; [done|]. rewrite all_chars_cons.
  intros [Hc Hs]%andb_true_iff. cbn [count_char]. rewrite (IH Hs).
  apply is_hex_not_colon in Hc. apply negb_true_iff in Hc. by rewrite Hc.
Qed.

Lemma count_char_none c s :
  count_char c s = 0%nat -> all_chars (fun x => negb (Ascii.eqb x c)) s = true.
Proof.
  induction s as [|c' s IH]; [done|]. cbn [count_char]. rewrite all_chars_cons.
  destruct (Ascii.eqb c' c); [done|]. intros H. by rewrite IH.
Qed.

(** X20.  [split_dual_hash] splits on the colon only when there is exactly
    one: a string with one colon is returned as the parts before and after
    it, and these two joined by a colon give the string back; a string with
    no colon, or with two or more, is returned twice, unsplit.  A
    fingerprint made by [dual_hash] has exactly one colon whenever the
    BLAKE3 digest has none, and splits into its two digests. *)
Theorem split_dual_hash_cases `{RT : Runtime} (hash_str : string) :
  (count_char ":" hash_str = 1%nat ->
     exists a b, AnchorHash.split_dual_hash hash_str = (a, b)
                 /\ hash_str = a +:+ ":" +:+ b
                 /\ count_char ":" a = 0%nat /\ count_char ":" b = 0%nat)
  /\ (count_char ":" hash_str <> 1%nat ->
        AnchorHash.split_dual_hash hash_str = (hash_str, hash_str))
  /\ (forall data,
        count_char ":" (blake3_hexdigest (bytes_of_data data)) = 0%nat ->
        count_char ":" (Core.dual_hash data) = 1%nat
        /\ AnchorHash.split_dual_hash (Core.dual_hash data)
           = (SHA256.hexdigest (bytes_of_data data),
              if HAS_BLAKE3 then blake3_hexdigest (bytes_of_data data)
              else SHA256.hexdigest (bytes_of_data data))).
Proof.
  pose proof (split_on_length ":" hash_str) as Hlen.
  unfold AnchorHash.split_dual_hash. split; [|split].
  - intros H1. rewrite H1 in Hlen.
    destruct (split_on ":" hash_str) as [|a [|b [|c rest]]] eqn:E; try done.
    exists a, b. split; [done|]. pose proof (split_on_pair _ _ _ _ E) as Hs.
    split; [exact Hs|].
    rewrite Hs in H1. rewrite count_char_app in H1. cbn [count_char Ascii.eqb Bool.eqb] in H1.
    lia.
  - intros H1.
    destruct (split_on ":" hash_str) as [|a [|b [|c rest]]] eqn:E; try done.
    simpl in Hlen. lia.
  - intros data Hb.
    set (sha := SHA256.hexdigest (bytes_of_data data)).
    set (b3 := if HAS_BLAKE3 then blake3_hexdigest (bytes_of_data data) else sha).
    assert (Hd : Core.dual_hash data = sha +:+ String ":" b3).
    { apply dual_hash_parts. }
    assert (Hsha : count_char ":" sha = 0%nat) by apply count_char_hex, hexdigest_is_hex.
    assert (Hb3 : count_char ":" b3 = 0%nat).
    { unfold b3. by destruct HAS_BLAKE3. }
    rewrite Hd. split.
    + rewrite count_char_app. cbn [count_char Ascii.eqb Bool.eqb]. lia.
    + by rewrite split_on_app, split_on_no_sep by (by apply count_char_none).
Qed.

(** X21.  [verify_hash] never raises and never halts: it prints one
    receipt and returns whether the expected string is the fingerprint of
    the data, the same fingerprint [src/core.py] computes.  [hash_batch]
    returns the fingerprint of [json.dumps(items, sort_keys=True)], which
    [verify_hash] accepts for that text; when the items do not serialize
    it raises [TypeError] before printing anything. *)
Theorem hash_batch_then_verify_hash `{RT : Runtime} (items : list value) (w : World) :
  (forall data expected w1,
      exists line,
        AnchorHash.verify_hash data expected w1
        = (Ok (String.eqb (Core.dual_hash data) expected), emitted w1 line))
  /\ match json_encode true (VList items) with
     | Some s =>
         exists line,
           AnchorHash.hash_batch items w = (Ok (Core.dual_hash (Str s)), emitted w line)
           /\ forall w1, exists line1,
                AnchorHash.verify_hash (Str s) (Core.dual_hash (Str s)) w1
                = (Ok true, emitted w1 line1)
     | None => AnchorHash.hash_batch items w = (Raise TypeError, w)
     end.
Proof.
  assert (Hv : forall data expected w1,
             exists line,
               AnchorHash.verify_hash data expected w1
               = (Ok (String.eqb (Core.dual_hash data) expected), emitted w1 line)).
  { intros data expected w1. unfold AnchorHash.verify_hash.
    rewrite dual_hash_modules_agree. unfold bind. run_emit. eexists. reflexivity. }
  split; [exact Hv|].
  destruct (json_encode true (VList items)) as [s|] eqn:Hs.
  - unfold AnchorHash.hash_batch. unfold bind at 1. unfold lift.
    rewrite (json_dumps_Some _ _ _ Hs). rewrite dual_hash_modules_agree.
    unfold bind. run_emit. eexists. split; [reflexivity|].
    intros w1. destruct (Hv (Str s) (Core.dual_hash (Str s)) w1) as [line1 H].
    exists line1. by rewrite H, String.eqb_refl.
  - unfold AnchorHash.hash_batch, bind, lift, json_dumps. by rewrite Hs.
Qed.

(** ** [compact_ledger], step by step *)

Lemma leaf_hashes_serializable `{RT : Runtime} items hashes :
  Core.leaf_hashes items = Ok hashes ->
  Forall (fun i => is_Some (json_encode true i)) items.
Proof.
  revert hashes. induction items as [|x rest IH]; intros hashes H; [constructor|].
  cbn [Core.leaf_hashes] in H. destruct (json_dumps true x) as [s|] eqn:Ex; [|done].
  destruct (Core.leaf_hashes rest) as [hs|] eqn:Er; [|done].
  constructor; [exists s; by apply json_dumps_inv | by eapply IH].
Qed.

Lemma merkle_serializable `{RT : Runtime} items root :
  Core.merkle items = Ok root -> Forall (fun i => is_Some (json_encode true i)) items.
Proof.
  destruct items as [|i rest]; [constructor|]. cbn [Core.merkle].
  destruct (Core.leaf_hashes (i :: rest)) as [hashes|] eqn:Hl; [|done].
  intros _. by eapply leaf_hashes_serializable.
Qed.

Lemma merkle_total `{RT : Runtime} items :
  Forall (fun i => is_Some (json_encode true i)) items ->
  Core.merkle items = Ok (root_of items).
Proof.
  intros H. unfold root_of. destruct items as [|i rest]; [done|].
  destruct (leaf_hashes_total _ H) as [hashes Hl]. cbn [Core.merkle]. by rewrite Hl.
Qed.

Lemma merkle_raises `{RT : Runtime} items e : Core.merkle items = Raise e -> e = TypeError.
Proof.
  destruct items as [|i rest]; [done|]. cbn [Core.merkle].
  destruct (Core.leaf_hashes (i :: rest)) as [hashes|e'] eqn:Hl; [done|].
  intros [= <-]. by destruct (leaf_hashes_raises _ _ Hl).
Qed.

Lemma count_by_type_raises `{RT : Runtime} receipts acc e :
  forallb is_dict receipts = true ->
  Compact.count_by_type receipts acc = Raise e -> e = TypeError.
Proof.
  revert acc. induction receipts as [|r rest IH]; intros acc Hd; [done|].
  apply andb_true_iff in Hd as [Hr Hrest]. destruct r; try done.
  cbn [Compact.count_by_type receipt_get].
  destruct (to_key _); [by apply IH | by intros [= <-]].
Qed.

Lemma lines_of_encodes receipts :
  Forall (fun i => is_Some (json_encode true i)) receipts ->
  Forall2 encodes receipts (lines_of receipts).
Proof.
  induction 1 as [|r rest [s Hs] _ IH]; [constructor|].
  cbn [lines_of map]. constructor; [|exact IH]. unfold encodes. by rewrite Hs.
Qed.

Lemma write_receipts_run `{RT : Runtime} path rs lines w text :
  fs w !! path = Some text ->
  Forall2 encodes rs lines ->
  Compact.write_receipts path rs w
  = (Ok tt, mkWorld (<[path := text +:+ unlines lines]> (fs w)) (stdout w) (clock w)).
Proof.
  intros Hw H. revert w text Hw.
  induction H as [|r s rs lines Hr Hrs IH]; intros w text Hw.
  - cbn [Compact.write_receipts unlines fold_right]. unfold ret.
    rewrite append_nil_r, insert_id by done. by destruct w.
  - cbn [Compact.write_receipts]. unfold bind at 1. unfold lift.
    rewrite (json_dumps_Some _ _ _ Hr). unfold bind at 1. unfold append_file at 1.
    rewrite Hw. cbn [default from_option]. unfold id.
    erewrite IH; [|cbn [fs]; apply lookup_insert_eq].
    cbn [fs stdout clock unlines fold_right]. rewrite insert_insert_eq.
    f_equal. f_equal. f_equal. by rewrite !append_assoc.
Qed.

(** The summary receipt serializes as soon as its data does. *)
Lemma summary_serializable `{RT : Runtime} to_compact by_type before_root first last
  now payload :
  json_encode true
    (VDict (compaction_data to_compact by_type before_root first last)) = Some payload ->
  is_Some (json_encode true
             (VDict (receipt_of "compaction" now
                       (compaction_data to_compact by_type before_root first last) payload))).
Proof.
  intros H. apply json_encode_dict_values in H. unfold compaction_data in H.
  repeat match goal with
         | H : Forall _ (_ :: _) |- _ => apply Forall_cons in H as [? H]
         end.
  cbn [snd] in *.
  apply json_encode_str_dict; [reflexivity|].
  unfold receipt_of, compaction_data, dict_of_items.
  cbn [app fold_left fst snd dict_set key_eqb String.eqb Ascii.eqb Bool.eqb dict_get
       dict_lookup].
  each_item; assumption.
Qed.

(** The run of [compact_ledger] on a ledger of dicts of which some are
    folded: the serialization that can fail comes before the file is
    opened for writing. *)
Lemma compact_ledger_cases `{RT : Runtime} path age pt w :
  let pt' := default Compact.default_preserve_types pt in
  let all := parse_ledger (ledger_text w path) in
  let to_keep := List.filter (is_kept pt') all in
  let to_compact := List.filter (fun r => negb (is_kept pt' r)) all in
  forallb is_dict all = true -> to_compact <> [] ->
  Compact.compact_ledger path age pt w
  = match Core.merkle all with
    | Raise e => (Raise e, ticked (ensured w path))
    | Ok before_root =>
        match Compact.count_by_type to_compact [] with
        | Raise e => (Raise e, ticked (ensured w path))
        | Ok by_type =>
            let data := compaction_data to_compact by_type before_root
                          (first_ts to_compact) (last_ts to_compact) in
            match json_encode true (VDict data) with
            | None => (Raise TypeError, ticked (ticked (ensured w path)))
            | Some payload =>
                let summary :=
                  VDict (receipt_of "compaction" (utcnow_isoformat (S (clock w))) data
                           payload) in
                (Ok (compaction_result (length all) (length (to_keep ++ [summary]))
                       (length to_compact) before_root (root_of (to_keep ++ [summary]))),
                 mkWorld (<[path := unlines (lines_of (to_keep ++ [summary]))]> (fs w))
                         (stdout w ++ [default EmptyString (json_encode false summary)])
                         (S (S (clock w))))
            end
        end
    end.
Proof.
  intros pt' all to_keep to_compact Hd Hc.
  assert (Hall : all <> []).
  { intros E. apply Hc. unfold to_compact. by rewrite E. }
  unfold Compact.compact_ledger. run_read path w. fold pt' all.
  rewrite (match_not_nil _ _ _ Hall).
  unfold bind at 1. unfold utcnow at 1. unfold bind at 1. unfold lift at 1.
  rewrite separate_spec, Hd. cbn [app]. fold to_keep to_compact.
  rewrite (match_not_nil _ _ _ Hc).
  change (mkWorld (fs (ensured w path)) (stdout (ensured w path)) (S (clock (ensured w path))))
    with (ticked (ensured w path)).
  unfold bind at 1. unfold lift at 1.
  destruct (Core.merkle all) as [before_root|e] eqn:Hroot; [|reflexivity].
  unfold bind at 1. unfold lift at 1.
  destruct (Compact.count_by_type to_compact []) as [by_type|e] eqn:Hby; [|reflexivity].
  assert (Hdc : forallb is_dict to_compact = true) by (by apply forallb_filter).
  rewrite (ts_of_dicts (head to_compact)) by (intros; by eapply head_is_dict).
  rewrite (ts_of_dicts (last to_compact)) by (intros; by eapply last_is_dict).
  unfold bind at 1 2 3 4. unfold lift at 1 2 3 4.
  fold (first_ts to_compact) (last_ts to_compact).
  fold (compaction_data to_compact by_type before_root (first_ts to_compact) (last_ts to_compact)).
  cbv zeta.
  set (data := compaction_data to_compact by_type before_root
                 (first_ts to_compact) (last_ts to_compact)).
  pose proof (merkle_serializable _ _ Hroot) as Hser.
  destruct (json_encode true (VDict data)) as [payload|] eqn:Hp.
  - destruct (emit_receipt_ok "compaction" data (ticked (ensured w path)) payload Hp)
      as (line & Hl & E).
    unfold bind at 1. rewrite E.
    change (clock (ticked (ensured w path))) with (S (clock w)) in *.
    set (summary := receipt_of "compaction" (utcnow_isoformat (S (clock w))) data payload)
      in *.
    assert (Hcs : Forall (fun i => is_Some (json_encode true i)) (to_keep ++ [VDict summary])).
    { apply Forall_app. split.
      - apply Forall_forall. intros r Hr. apply list_elem_of_In in Hr.
        apply filter_In in Hr as [Hr _]. apply list_elem_of_In in Hr.
        by apply (proj1 (Forall_forall _ _) Hser).
      - constructor; [|constructor]. by apply summary_serializable. }
    set (w1 := emitted (ticked (ensured w path)) line).
    set (w2 := mkWorld (<[path := EmptyString]> (fs w1)) (stdout w1) (clock w1)).
    assert (Hwf : write_file path EmptyString w1 = (Ok tt, w2)) by reflexivity.
    rewrite (bind_ok _ _ _ _ _ Hwf).
    assert (Hw2 : fs w2 !! path = Some EmptyString) by apply lookup_insert_eq.
    rewrite (bind_ok _ _ _ _ _ (write_receipts_run path _ _ w2 EmptyString Hw2
                                  (lines_of_encodes _ Hcs))).
    unfold bind at 1. unfold lift at 1. rewrite (merkle_total _ Hcs). unfold ret.
    rewrite Hl. cbn [default from_option]. unfold id.
    unfold compaction_result. f_equal.
    unfold w2, w1, emitted, ticked, ensured. cbn [fs stdout clock]. f_equal.
    rewrite !insert_insert_eq. reflexivity.
  - unfold Core.emit_receipt, bind, utcnow, lift, json_dumps. rewrite Hp. reflexivity.
Qed.

(** X22.  When [compact_ledger] raises, it has written nothing: the
    exception is an [AttributeError] (a line of the ledger is not an
    object) or a [TypeError] (something does not serialize or a type is
    unhashable), the ledger file holds the text it held, no other file
    has changed, and nothing was printed.  Everything that can fail
    happens before the file is opened for writing, and what is written
    afterwards has been serialized once already. *)
Theorem compact_ledger_raises_before_writing `{RT : Runtime} (path : string) (age : Z)
  (pt : option (list string)) (w : World) (e : exn) (w' : World) :
  Compact.compact_ledger path age pt w = (Raise e, w') ->
  (e = AttributeError \/ e = TypeError)
  /\ fs w' = fs (ensured w path)
  /\ ledger_text w' path = ledger_text w path
  /\ stdout w' = stdout w.
Proof.
  intros H.
  assert (Hmain : (e = AttributeError \/ e = TypeError)
                 /\ fs w' = fs (ensured w path) /\ stdout w' = stdout w).
  { set (pt' := default Compact.default_preserve_types pt).
    set (all := parse_ledger (ledger_text w path)).
    destruct (list_nil_or_not all) as [E|E].
    { rewrite compact_ledger_empty in H by done. discriminate. }
    destruct (forallb is_dict all) eqn:Hd.
    - destruct (list_nil_or_not (List.filter (fun r => negb (is_kept pt' r)) all)) as [Ec|Ec].
      { rewrite compact_ledger_nothing in H by done. discriminate. }
      rewrite (compact_ledger_cases path age pt w Hd Ec) in H. fold all pt' in H.
      destruct (Core.merkle all) as [before_root|e1] eqn:Hroot.
      + destruct (Compact.count_by_type _ []) as [by_type|e2] eqn:Hby.
        * cbv zeta in H. destruct (json_encode true _); [discriminate|].
          injection H as <- <-. split; [by right|]. split; reflexivity.
        * injection H as <- <-. split; [|split; reflexivity]. right.
          eapply count_by_type_raises; [|exact Hby]. by apply forallb_filter.
      + injection H as <- <-. split; [|split; reflexivity]. right.
        by eapply merkle_raises.
    - unfold Compact.compact_ledger in H. revert H. run_read path w. fold pt' all.
      rewrite (match_not_nil _ _ _ E).
      unfold bind at 1. unfold utcnow at 1. unfold bind at 1. unfold lift at 1.
      rewrite separate_spec, Hd. intros [= <- <-]. split; [by left|]. split; reflexivity. }
  destruct Hmain as (He & Hfs & Hout). repeat split; try done.
  unfold ledger_text at 1. rewrite Hfs. apply ensured_text.
Qed.

Lemma compact_ledger_raises_before_writing_witness :
  (AttributeError = AttributeError \/ AttributeError = TypeError)
  /\ fs (ticked (ensured corrupt_world sample_path)) = fs (ensured corrupt_world sample_path)
  /\ ledger_text (ticked (ensured corrupt_world sample_path)) sample_path
     = ledger_text corrupt_world sample_path
  /\ stdout (ticked (ensured corrupt_world sample_path)) = stdout corrupt_world.
Proof.
  apply (@compact_ledger_raises_before_writing Reference.runtime sample_path 90 None
           corrupt_world AttributeError (ticked (ensured corrupt_world sample_path))).
  vm_compute. reflexivity.
Defined.

Lemma str_keyed_dict_set k v d :
  is_str_key k = true -> str_keyed v = true -> str_keyed (VDict d) = true ->
  str_keyed (VDict (dict_set k v d)) = true.
Proof.
  intros Hk Hv. cbn [str_keyed]. induction d as [|[k' x] rest IH]; cbn [dict_set forallb].
  - intros _. cbn [fst snd]. by rewrite Hk, Hv.
  - cbn [fst snd]. intros [[Hk' Hx]%andb_true_iff Hrest]%andb_true_iff.
    destruct (key_eqb k' k); cbn [forallb fst snd].
    + by rewrite Hk', Hv, Hrest.
    + by rewrite Hk', Hx, IH.
Qed.

Lemma count_by_type_str_keyed `{RT : Runtime} receipts acc by_type :
  forallb str_typed receipts = true -> str_keyed (VDict acc) = true ->
  Compact.count_by_type receipts acc = Ok by_type -> str_keyed (VDict by_type) = true.
Proof.
  revert acc. induction receipts as [|r rest IH]; intros acc Ht Hacc.
  - by intros [= <-].
  - apply andb_true_iff in Ht as [Hr Hrest]. cbn [Compact.count_by_type].
    unfold str_typed, type_key in Hr.
    destruct (receipt_get "receipt_type" (VStr "unknown") r) as [rt|]; [|done].
    destruct (to_key rt) as [[| | |s]|]; try done.
    apply IH; [done|]. unfold Compact.count_type. by apply str_keyed_dict_set.
Qed.

Lemma str_typed_typed r : str_typed r = true -> typed r = true.
Proof. unfold str_typed, typed. by destruct (type_key r) as [[]|]. Qed.

Lemma str_typed_is_dict r : str_typed r = true -> is_dict r = true.
Proof. by destruct r. Qed.

Lemma str_keyed_ts_field r : str_keyed r = true -> str_keyed (ts_field r) = true.
Proof. destruct r; try done. intros H. by apply str_keyed_dict_get. Qed.

Lemma str_keyed_first_ts receipts :
  forallb str_keyed receipts = true -> str_keyed (first_ts receipts) = true.
Proof.
  unfold first_ts. destruct receipts as [|r rest]; [done|]. cbn [head forallb].
  intros [Hr _]%andb_true_iff. by apply str_keyed_ts_field.
Qed.

Lemma str_keyed_last_ts receipts :
  forallb str_keyed receipts = true -> str_keyed (last_ts receipts) = true.
Proof.
  unfold last_ts. intros H. destruct (last receipts) as [r|] eqn:E; [|done].
  apply str_keyed_ts_field. apply last_Some_elem_of in E.
  apply (proj1 (forallb_forall _ _) H). by apply list_elem_of_In.
Qed.

(** X23.  [compact_ledger] succeeds on every ledger of objects with string
    keys whose [receipt_type], where present, is a string, as soon as one
    receipt is to be folded: it returns [compacted: True] with the counts
    of the ledger before and after, prints the summary receipt, and leaves
    in the file one line for each kept receipt followed by the line of the
    summary. *)
Theorem compact_ledger_succeeds `{RT : Runtime} (path : string) (age : Z)
  (pt : option (list string)) (w : World) :
  let pt' := default Compact.default_preserve_types pt in
  let all := parse_ledger (ledger_text w path) in
  let to_keep := List.filter (is_kept pt') all in
  let to_compact := List.filter (fun r => negb (is_kept pt' r)) all in
  forallb (fun r => str_keyed r && str_typed r) all = true ->
  to_compact <> [] ->
  exists summary before_root after_root w',
    Compact.compact_ledger path age pt w
    = (Ok (compaction_result (length all) (length to_keep + 1) (length to_compact)
             before_root after_root), w')
    /\ Core.merkle all = Ok before_root
    /\ Core.merkle (to_keep ++ [VDict summary]) = Ok after_root
    /\ dict_lookup (KStr "receipt_type") summary = Some (VStr "compaction")
    /\ fs w' = <[path := unlines (lines_of (to_keep ++ [VDict summary]))]> (fs w)
    /\ Forall2 encodes (to_keep ++ [VDict summary]) (lines_of (to_keep ++ [VDict summary]))
    /\ length (stdout w') = S (length (stdout w)).
Proof.
  intros pt' all to_keep to_compact Hok Hc.
  assert (Hk : forallb str_keyed all = true).
  { apply forallb_forall. intros r Hr.
    by apply (proj1 (forallb_forall _ _) Hok) in Hr as [? _]%andb_true_iff. }
  assert (Ht : forallb str_typed all = true).
  { apply forallb_forall. intros r Hr.
    by apply (proj1 (forallb_forall _ _) Hok) in Hr as [_ ?]%andb_true_iff. }
  assert (Hd : forallb is_dict all = true).
  { apply forallb_forall. intros r Hr. apply str_typed_is_dict.
    by apply (proj1 (forallb_forall _ _) Ht). }
  assert (Hser : Forall (fun i => is_Some (json_encode true i)) all).
  { apply Forall_forall. intros r Hr. apply json_encode_str_keyed.
    apply (proj1 (forallb_forall _ _) Hk). by apply list_elem_of_In. }
  pose proof (compact_ledger_cases path age pt w Hd Hc) as Hrun.
  fold pt' all to_keep to_compact in Hrun. cbv zeta in Hrun.
  rewrite (merkle_total _ Hser) in Hrun.
  assert (Htc : forallb str_typed to_compact = true) by (by apply forallb_filter).
  assert (Hkc : forallb str_keyed to_compact = true) by (by apply forallb_filter).
  destruct (count_by_type_total to_compact []) as [by_type Hby].
  { apply forallb_forall. intros r Hr. apply str_typed_typed.
    by apply (proj1 (forallb_forall _ _) Htc). }
  rewrite Hby in Hrun.
  pose proof (count_by_type_str_keyed to_compact [] by_type Htc eq_refl Hby) as Hbk.
  set (data := compaction_data to_compact by_type (root_of all)
                 (first_ts to_compact) (last_ts to_compact)) in *.
  assert (Hdata : str_keyed (VDict data) = true).
  { unfold data, compaction_data. cbn [str_keyed forallb fst snd is_str_key andb].
    cbn [str_keyed] in Hbk. rewrite Hbk.
    by rewrite (str_keyed_first_ts _ Hkc), (str_keyed_last_ts _ Hkc). }
  destruct (json_encode_str_keyed true _ Hdata) as [payload Hp]. rewrite Hp in Hrun.
  set (summary := receipt_of "compaction" (utcnow_isoformat (S (clock w))) data payload) in *.
  assert (Hcs : Forall (fun i => is_Some (json_encode true i)) (to_keep ++ [VDict summary])).
  { apply Forall_app. split.
    - apply Forall_forall. intros r Hr. apply list_elem_of_In in Hr.
      apply filter_In in Hr as [Hr _]. apply list_elem_of_In in Hr.
      by apply (proj1 (Forall_forall _ _) Hser).
    - constructor; [|constructor]. by apply summary_serializable. }
  exists summary, (root_of all), (root_of (to_keep ++ [VDict summary])). eexists.
  split; [|split; [|split; [|split; [|split; [|split]]]]].
  - rewrite Hrun. rewrite length_app. reflexivity.
  - by apply merkle_total.
  - by apply merkle_total.
  - reflexivity.
  - reflexivity.
  - by apply lines_of_encodes.
  - cbn [stdout]. rewrite length_app. cbn [length]. lia.
Qed.

Lemma compact_ledger_succeeds_witness :
  exists summary res w',
    @Compact.compact_ledger Reference.runtime sample_path 90 (Some ["anomaly"]) sample_world
    = (Ok res, w')
    /\ dict_lookup (KStr "compacted") res = Some (VBool true)
    /\ dict_lookup (KStr "receipt_type") summary = Some (VStr "compaction").
Proof.
  destruct (@compact_ledger_succeeds Reference.runtime sample_path 90 (Some ["anomaly"])
              sample_world ltac:(vm_compute; reflexivity) ltac:(vm_compute; discriminate))
    as (summary & before_root & after_root & w' & H & _ & _ & Hs & _).
  exists summary. eexists _, w'. split; [exact H|]. split; [reflexivity | exact Hs].
Defined.

(** ** Two batches with one root *)

Lemma reduce_levels_fuel `{RT : Runtime} fuel : forall fuel' hashes,
  (length hashes <= fuel)%nat -> (length hashes <= fuel')%nat ->
  Core.reduce_levels fuel hashes = Core.reduce_levels fuel' hashes.
Proof.
  induction fuel as [|fuel IH]; intros fuel' hashes H H'.
  - destruct hashes; [|simpl in H; lia]. by destruct fuel'.
  - cbn [Core.reduce_levels]. destruct (Nat.ltb_spec 1 (length hashes)) as [H1|H1].
    + destruct fuel' as [|fuel']; [lia|]. cbn [Core.reduce_levels].
      rewrite (proj2 (Nat.ltb_lt _ _) H1).
      pose proof (next_level_shorter hashes H1). apply IH; lia.
    + destruct fuel' as [|fuel']; [done|]. cbn [Core.reduce_levels].
      by rewrite (proj2 (Nat.ltb_ge _ _) H1).
Qed.

Lemma reduce_levels_step `{RT : Runtime} fuel hashes :
  Core.reduce_levels (S fuel) hashes
  = if (1 <? length hashes)%nat then Core.reduce_levels fuel (Core.next_level hashes)
    else hashes.
Proof. reflexivity. Qed.

Lemma last_hash_cons a hashes :
  hashes <> [] -> Core.last_hash (a :: hashes) = Core.last_hash hashes.
Proof. by destruct hashes. Qed.

Lemma leaf_hashes_twice `{RT : Runtime} items x hashes :
  Core.leaf_hashes (items ++ [x]) = Ok hashes ->
  Core.leaf_hashes (items ++ [x; x]) = Ok (hashes ++ [Core.last_hash hashes]).
Proof.
  revert hashes. induction items as [|y rest IH]; intros hashes.
  - cbn [app Core.leaf_hashes]. destruct (json_dumps true x); [|done]. by intros [= <-].
  - cbn [app Core.leaf_hashes]. destruct (json_dumps true y); [|done].
    destruct (Core.leaf_hashes (rest ++ [x])) as [hs|] eqn:E; [|done].
    intros [= <-]. rewrite (IH hs eq_refl). cbn [app]. rewrite last_hash_cons; [done|].
    intros ->. apply leaf_hashes_inv in E as [E _]. rewrite length_app in E. simpl in E. lia.
Qed.

Lemma next_level_padded `{RT : Runtime} hashes :
  Core.next_level (Core.pad_odd hashes) = Core.next_level hashes.
Proof.
  unfold Core.next_level. f_equal. unfold Core.pad_odd at 1.
  rewrite pad_odd_length. destruct (Nat.odd (length hashes)) eqn:E.
  - rewrite Nat.add_1_r, Nat.odd_succ, <- Nat.negb_odd, E. reflexivity.
  - by rewrite Nat.add_0_r, E.
Qed.

(** X24.  Appending a copy of the last item to a list of odd length, three
    items or more, does not change the Merkle root: the loop pads an odd
    level with a copy of its last hash, so [merkle(items + [x])] and
    [merkle(items + [x, x])] are the same fingerprint (and raise the same
    [TypeError] when an item does not serialize).  Two different batches
    share one root. *)
Theorem merkle_duplicate_last `{RT : Runtime} (items : list value) (x : value) :
  Nat.odd (length (items ++ [x])) = true ->
  (1 < length (items ++ [x]))%nat ->
  Core.merkle (items ++ [x; x]) = Core.merkle (items ++ [x]).
Proof.
  intros Hodd H1.
  assert (E1 : forall l y, Core.merkle (l ++ [y])
                = match Core.leaf_hashes (l ++ [y]) with
                  | Ok hashes =>
                      Ok (nth 0 (Core.reduce_levels (length hashes) hashes) EmptyString)
                  | Raise e => Raise e
                  end) by (intros l y; by destruct l).
  replace (items ++ [x; x]) with ((items ++ [x]) ++ [x]) by (by rewrite <- app_assoc).
  rewrite !E1. rewrite <- app_assoc. cbn [app].
  destruct (Core.leaf_hashes (items ++ [x])) as [hashes|e] eqn:Hl.
  - rewrite (leaf_hashes_twice _ _ _ Hl).
    destruct (leaf_hashes_inv _ _ Hl) as [Hlen _]. rewrite <- Hlen in Hodd, H1.
    f_equal. f_equal.
    assert (Hp : hashes ++ [Core.last_hash hashes] = Core.pad_odd hashes).
    { unfold Core.pad_odd. by rewrite Hodd. }
    rewrite Hp, pad_odd_length, Hodd, Nat.add_1_r.
    rewrite (reduce_levels_fuel (length hashes) (S (length hashes)) hashes) by lia.
    rewrite !reduce_levels_step, pad_odd_length, Hodd, next_level_padded.
    rewrite (proj2 (Nat.ltb_lt _ _) H1).
    by replace (1 <? length hashes + 1)%nat with true by (symmetry; apply Nat.ltb_lt; lia).
  - destruct (leaf_hashes_raises _ _ Hl) as [-> Hex].
    destruct (Core.leaf_hashes (items ++ [x; x])) as [hs|e] eqn:Hl2.
    + exfalso. apply leaf_hashes_serializable in Hl2.
      apply some_unserializable in Hex. apply Hex.
      replace (items ++ [x; x]) with ((items ++ [x]) ++ [x]) in Hl2
        by (by rewrite <- app_assoc).
      by apply Forall_app in Hl2 as [? _].
    + by destruct (leaf_hashes_raises _ _ Hl2) as [-> _].
Qed.

Lemma merkle_duplicate_last_witness :
  @Core.merkle Reference.runtime ([VInt 1; VInt 2] ++ [VInt 3; VInt 3])
  = @Core.merkle Reference.runtime ([VInt 1; VInt 2] ++ [VInt 3]).
Proof.
  apply (@merkle_duplicate_last Reference.runtime [VInt 1; VInt 2] (VInt 3)).
  - reflexivity.
  - simpl. lia.
Defined.

(** ** Appending to a ledger that already holds lines *)

(** X25.  Appending a receipt to a ledger made of whole lines, whatever
    these lines hold (receipts, blank lines, text that is not JSON), adds
    exactly one line at the end of the file, the [sort_keys] serialization
    of the receipt, and returns its fingerprint.  Afterwards [read_all]
    returns what it returned before followed by the receipt read back
    from that line, and [count] has grown by one (by nothing if
    [json.loads] rejects the line). *)
Theorem append_extends_ledger `{RT : Runtime} (path : string) (w : World)
  (old : list string) (r : value) (s : string) :
  fs w !! path = Some (unlines old) ->
  Forall (fun l => no_breaks l = true) old ->
  json_encode true r = Some s ->
  exists w',
    LedgerStore.append path r w = (Ok (Core.dual_hash (Str s)), w')
    /\ fs w' = <[path := unlines (old ++ [s])]> (fs w)
    /\ no_breaks s = true
    /\ LedgerStore.read_all path w' 
       = (Ok (parse_ledger (unlines old)
              ++ match json_loads s with Some r' => [r'] | None => [] end), w')
    /\ LedgerStore.read_all path w = (Ok (parse_ledger (unlines old)), w)
    /\ fst (LedgerStore.count path w')
       = Ok (match fst (LedgerStore.count path w) with Ok n => n | Raise _ => 0 end
             + match json_loads s with Some _ => 1 | None => 0 end).
Proof.
  intros Hf Hold Hs.
  assert (Ht : ledger_text w path = unlines old) by (unfold ledger_text; by rewrite Hf).
  assert (Htext : ledger_text w path +:+ s +:+ NL = unlines (old ++ [s])).
  { rewrite Ht, unlines_app. cbn [unlines fold_right]. by rewrite append_nil_r. }
  set (w' := mkWorld (<[path := unlines (old ++ [s])]> (fs w)) (stdout w) (clock w)).
  assert (Hw' : fs w' !! path = Some (unlines (old ++ [s]))) by apply lookup_insert_eq.
  exists w'. split; [rewrite (append_run path r s w Hs); by rewrite Htext|].
  pose proof (json_encode_tight _ _ _ Hs) as Htight.
  assert (Hparse : parse_ledger (unlines (old ++ [s]))
                   = parse_ledger (unlines old)
                     ++ match json_loads s with Some r' => [r'] | None => [] end).
  { rewrite !parse_ledger_omap, !readlines_unlines.
    - rewrite map_app, omap_app. f_equal. cbn [map]. rewrite omap_cons, parse_line_tight by done.
      by destruct (json_loads s).
    - done.
    - apply Forall_app. split; [done|]. constructor; [|constructor].
      by apply tight_no_breaks. }
  split; [reflexivity|]. split; [by apply tight_no_breaks|].
  assert (Hr' : forall w0, fs w0 !! path = Some (unlines (old ++ [s])) ->
                  LedgerStore.read_all path w0
                  = (Ok (parse_ledger (unlines old)
                         ++ match json_loads s with Some r' => [r'] | None => [] end), w0)).
  { intros w0 H0. by rewrite (read_all_run _ _ _ H0), Hparse. }
  split; [by apply Hr'|].
  split; [by apply read_all_run|].
  unfold LedgerStore.count.
  rewrite (bind_ok _ _ _ _ _ (Hr' w' Hw')).
  rewrite (bind_ok _ _ _ _ _ (read_all_run _ _ _ Hf)). cbn [fst ret].
  unfold ret. cbn [fst]. f_equal. rewrite length_app.
  destruct (json_loads s); cbn [length]; lia.
Qed.

Lemma append_extends_ledger_witness :
  exists w',
    @LedgerStore.append Reference.runtime sample_path
       (sample_receipt "ingest" "2024-01-15T09:00:00Z" 1) corrupt_world
    = (Ok (@Core.dual_hash Reference.runtime
             (Str (default EmptyString
                     (json_encode true (sample_receipt "ingest" "2024-01-15T09:00:00Z" 1))))),
       w')
    /\ fst (@LedgerStore.count Reference.runtime sample_path w') = Ok 3.
Proof.
  destruct (@append_extends_ledger Reference.runtime sample_path corrupt_world corrupt_lines
              (sample_receipt "ingest" "2024-01-15T09:00:00Z" 1)
              (default EmptyString
                 (json_encode true (sample_receipt "ingest" "2024-01-15T09:00:00Z" 1)))
              ltac:(reflexivity)
              ltac:(repeat constructor)
              ltac:(vm_compute; reflexivity))
    as (w' & Ha & _ & _ & _ & _ & Hc).
  exists w'. split; [exact Ha|]. rewrite Hc. vm_compute. reflexivity.
Defined.

(** ** [get_compaction_history] *)

Lemma compaction_receipts_of_raises `{RT : Runtime} rs :
  forallb is_dict rs = false -> Compact.compaction_receipts_of rs = Raise AttributeError.
Proof.
  induction rs as [|r rs IH]; [done|]. cbn [forallb Compact.compaction_receipts_of].
  destruct r; try done. cbn [is_dict andb receipt_get]. intros H. by rewrite (IH H).
Qed.

(** X26.  [get_compaction_history] returns the receipts of the ledger
    whose [receipt_type] is ["compaction"], in ledger order: the same
    receipts [query_by_type("compaction")] selects, but it prints nothing.
    Like the queries it raises [AttributeError] when a line of the ledger
    holds a value that is not an object, and its only effect is to create
    the ledger file when it is absent. *)
Theorem get_compaction_history_filter `{RT : Runtime} (path : string) (w : World) :
  let receipts := parse_ledger (ledger_text w path) in
  Compact.get_compaction_history path w
  = (if forallb is_dict receipts
     then Ok (List.filter (field_is "receipt_type" (VStr "compaction")) receipts)
     else Raise AttributeError,
     ensured w path)
  /\ fst (Compact.get_compaction_history path w)
     = fst (Query.query_by_type "compaction" path w).
Proof.
  intros receipts.
  assert (H : Compact.get_compaction_history path w
              = (if forallb is_dict receipts
                 then Ok (List.filter (field_is "receipt_type" (VStr "compaction")) receipts)
                 else Raise AttributeError,
                 ensured w path)).
  { unfold Compact.get_compaction_history. run_read path w. fold receipts. unfold lift.
    destruct (forallb is_dict receipts) eqn:Hd.
    - by rewrite compaction_receipts_of_spec.
    - by rewrite compaction_receipts_of_raises. }
  split; [exact H|]. rewrite H. cbn [fst].
  unfold Query.query_by_type. run_read path w. fold receipts.
  unfold bind at 1. unfold lift. rewrite select_spec.
  destruct (forallb is_dict receipts); [|reflexivity].
  unfold bind. run_emit. reflexivity.
Qed.
